(** * pynextion: the protocol engine

    A shallow embedding of the frame parser (events.py), the command
    lifecycle (commands.py), the page and widget registry (widgets.py,
    device.py), the slots that widgets and pages connect to the signals
    of their commands (widgets.py, interfaces.py), the queue engine
    (NexDevice.poll and NexDevice.init in device.py) and the reader of
    the serial port (hardware.py), followed by the properties established
    about them.

    Conventions.
    - A Python [bytes] value is a [list byte]; a Python [str] is the list
      of its code points.
    - A computation that may raise returns a [res]: [Ret v], [Raise e], or
      [Timeout] when the call does not come back: a loop of the source is
      cut by the fuel of the model, or the process ends inside the call
      (a slot that fails while a signal is emitted, see [slot]).
    - Methods that mutate objects are functions [st -> res A * st]: the
      state travels with the exception, so what a method had already
      changed when it raised stays visible. *)

From Stdlib Require Import String Ascii.
From Stdlib Require Import Strings.Byte.
From Stdlib Require Import List ZArith NArith Lia Bool.
Import ListNotations.

Set Implicit Arguments.

(* ------------------------------------------------------------------ *)
(** ** Outcomes and the state-and-exception monad *)

Inductive exn : Type :=
| NexMessageException (code : N)
| NexMessageEndException
| NexMessageLengthException
| NexMessageFirstByteException
| NexComponentNameException
| NexComponentIdException
| NotImplementedError
| ValueError
| KeyError
| IndexError
| AttributeError
| TypeError
| UnicodeDecodeError
| UnicodeEncodeError
| OverflowError.

Inductive res (A : Type) : Type :=
| Ret (a : A)
| Raise (e : exn)
| Timeout.

Arguments Ret {A} a.
Arguments Raise {A} e.
Arguments Timeout {A}.

Definition res_bind {A B} (r : res A) (k : A -> res B) : res B :=
  match r with
  | Ret a => k a
  | Raise e => Raise e
  | Timeout => Timeout
  end.

Definition returns {A} (r : res A) : bool :=
  match r with Ret _ => true | _ => false end.

Definition M (St A : Type) : Type := St -> res A * St.

Definition ret {St A} (a : A) : M St A := fun s => (Ret a, s).
Definition raise {St A} (e : exn) : M St A := fun s => (Raise e, s).
Definition bind {St A B} (m : M St A) (k : A -> M St B) : M St B :=
  fun s => match m s with
           | (Ret a, s') => k a s'
           | (Raise e, s') => (Raise e, s')
           | (Timeout, s') => (Timeout, s')
           end.
Definition get {St} : M St St := fun s => (Ret s, s).
Definition modify {St} (f : St -> St) : M St unit := fun s => (Ret tt, f s).
Definition lift {St A} (r : res A) : M St A := fun s => (r, s).

Declare Scope res_scope.
Delimit Scope res_scope with res.
Notation "x <- r ;; k" := (res_bind r (fun x => k))
  (at level 61, r at next level, right associativity) : res_scope.

Declare Scope m_scope.
Delimit Scope m_scope with m.
Notation "x <- m ;; k" := (bind m (fun x => k))
  (at level 61, m at next level, right associativity) : m_scope.
Notation "m ;;; k" := (bind m (fun _ => k))
  (at level 61, right associativity) : m_scope.

(* ------------------------------------------------------------------ *)
(** ** Bytes and strings *)

Definition bytes := list byte.
Definition str := list N.

Fixpoint list_eqb {A} (eqb : A -> A -> bool) (l1 l2 : list A) : bool :=
  match l1, l2 with
  | [], [] => true
  | a :: l1', b :: l2' => eqb a b && list_eqb eqb l1' l2'
  | _, _ => false
  end.

Definition bytes_eqb : bytes -> bytes -> bool := list_eqb Byte.eqb.
Definition str_eqb : str -> str -> bool := list_eqb N.eqb.

(** A literal of the source, as code points. *)
Definition lit (s : string) : str :=
  map N_of_ascii (list_ascii_of_string s).

(** [msg[i]] on bytes: an int, or IndexError. *)
Definition getitem (msg : bytes) (i : nat) : res N :=
  match nth_error msg i with
  | Some b => Ret (Byte.to_N b)
  | None => Raise IndexError
  end.

(** [msg[-3:]] *)
Definition last3 (msg : bytes) : bytes := skipn (length msg - 3) msg.

(** [msg[1:-3]] *)
Definition payload (msg : bytes) : bytes :=
  firstn (length msg - 3 - 1) (skipn 1 msg).

(** [str(n)] for an int. *)
Fixpoint digits_of_uint (d : Decimal.uint) : str :=
  match d with
  | Decimal.Nil => []
  | Decimal.D0 d' => 48%N :: digits_of_uint d'
  | Decimal.D1 d' => 49%N :: digits_of_uint d'
  | Decimal.D2 d' => 50%N :: digits_of_uint d'
  | Decimal.D3 d' => 51%N :: digits_of_uint d'
  | Decimal.D4 d' => 52%N :: digits_of_uint d'
  | Decimal.D5 d' => 53%N :: digits_of_uint d'
  | Decimal.D6 d' => 54%N :: digits_of_uint d'
  | Decimal.D7 d' => 55%N :: digits_of_uint d'
  | Decimal.D8 d' => 56%N :: digits_of_uint d'
  | Decimal.D9 d' => 57%N :: digits_of_uint d'
  end.

Definition str_of_int (z : Z) : str :=
  match z with
  | Z0 => [48%N]
  | Zpos p => digits_of_uint (Pos.to_uint p)
  | Zneg p => 45%N :: digits_of_uint (Pos.to_uint p)
  end.

(** [bytes(s, 'latin1', 'strict')]: one byte per code point below 256,
    UnicodeEncodeError otherwise. *)
Fixpoint latin1 (s : str) : res bytes :=
  match s with
  | [] => Ret []
  | c :: s' =>
      match Byte.of_N c with
      | Some b => (bs <- latin1 s' ;; Ret (b :: bs))%res
      | None => Raise UnicodeEncodeError
      end
  end.

(** [bytearray(b).decode("utf-8")]: the strict decoder, which refuses
    overlong forms, surrogates, code points above U+10FFFF and truncated
    sequences. *)
Definition in_range (lo hi b : N) : bool := (lo <=? b)%N && (b <=? hi)%N.
Definition low6 (b : N) : N := N.land b 63.

Fixpoint utf8_decode (bs : list N) : res str :=
  match bs with
  | [] => Ret []
  | b0 :: r0 =>
      if (b0 <? 128)%N then (s <- utf8_decode r0 ;; Ret (b0 :: s))%res
      else match r0 with
      | [] => Raise UnicodeDecodeError
      | b1 :: r1 =>
          if in_range 194 223 b0 then
            if in_range 128 191 b1
            then (s <- utf8_decode r1 ;;
                  Ret (N.shiftl (N.land b0 31) 6 + low6 b1 :: s)%N)%res
            else Raise UnicodeDecodeError
          else match r1 with
          | [] => Raise UnicodeDecodeError
          | b2 :: r2 =>
              if in_range 224 239 b0 then
                if in_range (if (b0 =? 224)%N then 160 else 128)
                            (if (b0 =? 237)%N then 159 else 191) b1
                   && in_range 128 191 b2
                then (s <- utf8_decode r2 ;;
                      Ret (N.shiftl (N.land b0 15) 12
                           + N.shiftl (low6 b1) 6 + low6 b2 :: s)%N)%res
                else Raise UnicodeDecodeError
              else match r2 with
              | [] => Raise UnicodeDecodeError
              | b3 :: r3 =>
                  if in_range 240 244 b0
                     && in_range (if (b0 =? 240)%N then 144 else 128)
                                 (if (b0 =? 244)%N then 143 else 191) b1
                     && in_range 128 191 b2 && in_range 128 191 b3
                  then (s <- utf8_decode r3 ;;
                        Ret (N.shiftl (N.land b0 7) 18
                             + N.shiftl (low6 b1) 12
                             + N.shiftl (low6 b2) 6 + low6 b3 :: s)%N)%res
                  else Raise UnicodeDecodeError
              end
          end
      end
  end.

(* ------------------------------------------------------------------ *)
(** ** Protocol constants

    constants.py is not among the sources at hand.  The values of the
    enumeration [Return.Code] are therefore a parameter: a table that
    gives the value of every member the sources name, and the values of
    whatever further members the enumeration has.  A member is identified
    with its value; this is how a Python Enum behaves, where two names with
    one value are one member.

    The kind of the enumeration is a parameter too: [Code_is_int] says
    whether [Return.Code] derives from [int] (an IntEnum), so that [%d]
    formats its members; [%d] applied to a member of a plain Enum raises
    TypeError.  The sources take [.value] of a member wherever they need
    its number, as one does with a plain Enum. *)

Record ReturnCodes : Type := {
  INVALID_CMD : N;
  CMD_FINISHED : N;
  EVENT_LAUNCHED : N;
  EVENT_TOUCH_HEAD : N;
  CURRENT_PAGE_ID_HEAD : N;
  EVENT_POSITION_HEAD : N;
  EVENT_SLEEP_POSITION_HEAD : N;
  STRING_HEAD : N;
  NUMBER_HEAD : N;
  INVALID_COMPONENT_ID : N;
  INVALID_PAGE_ID : N;
  INVALID_PICTURE_ID : N;
  INVALID_FONT_ID : N;
  INVALID_BAUD : N;
  INVALID_VARIABLE : N;
  INVALID_OPERATION : N;
  INVALID_ASSIGN : N;
  INVALID_EEPROM : N;
  INVALID_PARAMETER_QUANTITY : N;
  INVALID_IO : N;
  INVALID_ESC_CHAR : N;
  INVALID_VAR_NAME_TOO_LONG : N;
  other_codes : list N;
  Code_is_int : bool;
  Mode_ALWAYS : Z
}.

(** Modelled from the spec: S_END_OF_CMD of constants.py, the 3-byte frame
    terminator FF FF FF. *)
Definition S_END_OF_CMD : bytes := [xff; xff; xff].

Section Events.

Variable rc : ReturnCodes.

Definition Code_values : list N :=
  [ INVALID_CMD rc; CMD_FINISHED rc; EVENT_LAUNCHED rc; EVENT_TOUCH_HEAD rc;
    CURRENT_PAGE_ID_HEAD rc; EVENT_POSITION_HEAD rc;
    EVENT_SLEEP_POSITION_HEAD rc; STRING_HEAD rc; NUMBER_HEAD rc;
    INVALID_COMPONENT_ID rc; INVALID_PAGE_ID rc; INVALID_PICTURE_ID rc;
    INVALID_FONT_ID rc; INVALID_BAUD rc; INVALID_VARIABLE rc;
    INVALID_OPERATION rc; INVALID_ASSIGN rc; INVALID_EEPROM rc;
    INVALID_PARAMETER_QUANTITY rc; INVALID_IO rc; INVALID_ESC_CHAR rc;
    INVALID_VAR_NAME_TOO_LONG rc ] ++ other_codes rc.

(** [Return.Code(v)]: the member of value [v], or ValueError. *)
Definition Return_Code (v : N) : res N :=
  if existsb (N.eqb v) Code_values then Ret v else Raise ValueError.

(* ------------------------------------------------------------------ *)
(** ** events.py *)

(** [Event.Touch] *)
Inductive Touch : Type := Press | Release.

Definition Event_Touch (v : N) : res Touch :=
  if (v =? 1)%N then Ret Press
  else if (v =? 0)%N then Ret Release
  else Raise ValueError.

(** The event classes, and their instances. *)
Inductive EventClass : Type :=
| TouchEvent
| CurrentPageIDHeadEvent
| PositionHeadEvent
| SleepPositionHeadEvent
| StringHeadEvent
| NumberHeadEvent
| CommandSucceeded
| EventLaunched
| EventStartup
| EmptyMessage.

Inductive event : Type :=
| mkTouchEvent (code pid cid : N) (press_event : Touch)
| mkCurrentPageIDHeadEvent (code pid : N)
| mkPositionHeadEvent (code x y : N) (tevts : Touch)
| mkSleepPositionHeadEvent (code x y : N) (tevts : Touch)
| mkStringHeadEvent (code : N) (value : str)
| mkNumberHeadEvent (code value : N) (signed_value : Z)
| mkCommandSucceeded
| mkEventLaunched
| mkEventStartup
| mkEmptyMessage.

Definition class_of (e : event) : EventClass :=
  match e with
  | mkTouchEvent _ _ _ _ => TouchEvent
  | mkCurrentPageIDHeadEvent _ _ => CurrentPageIDHeadEvent
  | mkPositionHeadEvent _ _ _ _ => PositionHeadEvent
  | mkSleepPositionHeadEvent _ _ _ _ => SleepPositionHeadEvent
  | mkStringHeadEvent _ _ => StringHeadEvent
  | mkNumberHeadEvent _ _ _ => NumberHeadEvent
  | mkCommandSucceeded => CommandSucceeded
  | mkEventLaunched => EventLaunched
  | mkEventStartup => EventStartup
  | mkEmptyMessage => EmptyMessage
  end.

Definition EventClass_eqb (a b : EventClass) : bool :=
  match a, b with
  | TouchEvent, TouchEvent
  | CurrentPageIDHeadEvent, CurrentPageIDHeadEvent
  | PositionHeadEvent, PositionHeadEvent
  | SleepPositionHeadEvent, SleepPositionHeadEvent
  | StringHeadEvent, StringHeadEvent
  | NumberHeadEvent, NumberHeadEvent
  | CommandSucceeded, CommandSucceeded
  | EventLaunched, EventLaunched
  | EventStartup, EventStartup
  | EmptyMessage, EmptyMessage => true
  | _, _ => false
  end.

(** [isinstance(e, classes)] *)
Definition isinstance (e : event) (classes : list EventClass) : bool :=
  existsb (EventClass_eqb (class_of e)) classes.

Definition EXPECTED_LENGTH (cls : EventClass) : option nat :=
  match cls with
  | TouchEvent => Some 7
  | CurrentPageIDHeadEvent => Some 5
  | PositionHeadEvent => Some 9
  | SleepPositionHeadEvent => Some 9
  | StringHeadEvent => None
  | NumberHeadEvent => Some 8
  | CommandSucceeded => Some 4
  | EventLaunched => Some 4
  | EventStartup => None
  | EmptyMessage => Some 0
  end%nat.

Definition FIRST_BYTE (cls : EventClass) : option N :=
  match cls with
  | TouchEvent => Some (EVENT_TOUCH_HEAD rc)
  | CurrentPageIDHeadEvent => Some (CURRENT_PAGE_ID_HEAD rc)
  | PositionHeadEvent => Some (EVENT_POSITION_HEAD rc)
  | SleepPositionHeadEvent => Some (EVENT_SLEEP_POSITION_HEAD rc)
  | StringHeadEvent => Some (STRING_HEAD rc)
  | NumberHeadEvent => Some (NUMBER_HEAD rc)
  | CommandSucceeded => Some (CMD_FINISHED rc)
  | EventLaunched => Some (EVENT_LAUNCHED rc)
  | EventStartup => None
  | EmptyMessage => None
  end.

Definition isempty (e : event) : bool :=
  match e with mkEmptyMessage => true | _ => false end.

Definition issuccess (e : event) : bool :=
  match e with mkEmptyMessage => false | _ => true end.

Definition has_end (msg : bytes) : bool :=
  (3 <? length msg)%nat && bytes_eqb (last3 msg) S_END_OF_CMD.

Definition ensure_has_end (msg : bytes) : res unit :=
  if has_end msg then Ret tt else Raise NexMessageEndException.

Definition ensure_has_expected_length (cls : EventClass) (msg : bytes)
  : res unit :=
  match EXPECTED_LENGTH cls with
  | Some expected_length =>
      if negb (length msg =? expected_length)%nat
      then Raise NexMessageLengthException else Ret tt
  | None => Ret tt
  end.

(** ["...%d..." % member]: the text of a member of [Return.Code] as a
    number, needed for the message of the first-byte error. *)
Definition format_d (code : option N) : res unit :=
  match code with
  | Some _ => if Code_is_int rc then Ret tt else Raise TypeError
  | None => Raise TypeError
  end.

(** The message is built before the exception is: it formats
    [expected_first_byte], then [first_byte], with [%d]. *)
Definition ensure_has_expected_first_byte (cls : EventClass) (first_byte : N)
  : res unit :=
  let expected_first_byte := FIRST_BYTE cls in
  if match expected_first_byte with
     | Some b => negb (first_byte =? b)%N
     | None => true
     end
  then
    (_ <- format_d expected_first_byte ;;
     _ <- format_d (Some first_byte) ;;
     Raise NexMessageFirstByteException)%res
  else Ret tt.

(** The four statements every [parse] classmethod starts with; the result
    is [code]. *)
Definition parse_head (cls : EventClass) (msg : bytes) : res N :=
  (_ <- ensure_has_end msg ;;
   _ <- ensure_has_expected_length cls msg ;;
   b0 <- getitem msg 0 ;;
   code <- Return_Code b0 ;;
   _ <- ensure_has_expected_first_byte cls code ;;
   Ret code)%res.

Definition TouchEvent_parse (msg : bytes) : res event :=
  (code <- parse_head TouchEvent msg ;;
   pid <- getitem msg 1 ;;
   cid <- getitem msg 2 ;;
   b3 <- getitem msg 3 ;;
   tevts <- Event_Touch b3 ;;
   Ret (mkTouchEvent code pid cid tevts))%res.

Definition CurrentPageIDHeadEvent_parse (msg : bytes) : res event :=
  (code <- parse_head CurrentPageIDHeadEvent msg ;;
   pid <- getitem msg 1 ;;
   Ret (mkCurrentPageIDHeadEvent code pid))%res.

Definition PositionHeadEvent_parse (msg : bytes) : res event :=
  (code <- parse_head PositionHeadEvent msg ;;
   b1 <- getitem msg 1 ;; b2 <- getitem msg 2 ;;
   b3 <- getitem msg 3 ;; b4 <- getitem msg 4 ;;
   b5 <- getitem msg 5 ;;
   tevts <- Event_Touch b5 ;;
   Ret (mkPositionHeadEvent code (N.shiftl b1 8 + b2) (N.shiftl b3 8 + b4)
          tevts))%res.

Definition SleepPositionHeadEvent_parse (msg : bytes) : res event :=
  (code <- parse_head SleepPositionHeadEvent msg ;;
   b1 <- getitem msg 1 ;; b2 <- getitem msg 2 ;;
   b3 <- getitem msg 3 ;; b4 <- getitem msg 4 ;;
   b5 <- getitem msg 5 ;;
   tevts <- Event_Touch b5 ;;
   Ret (mkSleepPositionHeadEvent code (N.shiftl b1 8 + b2)
          (N.shiftl b3 8 + b4) tevts))%res.

Definition StringHeadEvent_parse (msg : bytes) : res event :=
  (code <- parse_head StringHeadEvent msg ;;
   value <- utf8_decode (map Byte.to_N (payload msg)) ;;
   Ret (mkStringHeadEvent code value))%res.

(** [ctypes.c_int32(v).value] *)
Definition c_int32 (v : Z) : Z :=
  ((v + 2 ^ 31) mod 2 ^ 32 - 2 ^ 31)%Z.

Definition NumberHeadEvent_parse (msg : bytes) : res event :=
  (code <- parse_head NumberHeadEvent msg ;;
   b1 <- getitem msg 1 ;; b2 <- getitem msg 2 ;;
   b3 <- getitem msg 3 ;; b4 <- getitem msg 4 ;;
   let value := (b1 + N.shiftl b2 8 + N.shiftl b3 16 + N.shiftl b4 24)%N in
   Ret (mkNumberHeadEvent code value (c_int32 (Z.of_N value))))%res.

Definition CommandSucceeded_parse (msg : bytes) : res event :=
  (_ <- parse_head CommandSucceeded msg ;; Ret mkCommandSucceeded)%res.

Definition EventLaunched_parse (msg : bytes) : res event :=
  (_ <- parse_head EventLaunched msg ;; Ret mkEventLaunched)%res.

(** The dict literal D_BYTE0_EVENT, in the order of the source; a later
    entry with the key of an earlier one replaces it. *)
Definition D_BYTE0_EVENT : list (N * EventClass) :=
  [ (EVENT_LAUNCHED rc, EventLaunched);
    (CMD_FINISHED rc, CommandSucceeded);
    (EVENT_TOUCH_HEAD rc, TouchEvent);
    (CURRENT_PAGE_ID_HEAD rc, CurrentPageIDHeadEvent);
    (EVENT_POSITION_HEAD rc, PositionHeadEvent);
    (EVENT_SLEEP_POSITION_HEAD rc, SleepPositionHeadEvent);
    (STRING_HEAD rc, StringHeadEvent);
    (NUMBER_HEAD rc, NumberHeadEvent) ].

Definition D_BYTE0_EVENT_get (first_byte : N) : option EventClass :=
  option_map snd
    (find (fun kv => (fst kv =? first_byte)%N) (rev D_BYTE0_EVENT)).

Definition NEX_EXCEPTIONS : list N :=
  [ INVALID_CMD rc; CMD_FINISHED rc; INVALID_COMPONENT_ID rc;
    INVALID_PAGE_ID rc; INVALID_PICTURE_ID rc; INVALID_FONT_ID rc;
    INVALID_BAUD rc; INVALID_VARIABLE rc; INVALID_OPERATION rc;
    INVALID_ASSIGN rc; INVALID_EEPROM rc; INVALID_PARAMETER_QUANTITY rc;
    INVALID_IO rc; INVALID_ESC_CHAR rc; INVALID_VAR_NAME_TOO_LONG rc ].

(** [evt_typ.parse(msg)] for a class found in D_BYTE0_EVENT. *)
Definition parse_as (evt_typ : EventClass) (msg : bytes) : res event :=
  match evt_typ with
  | TouchEvent => TouchEvent_parse msg
  | CurrentPageIDHeadEvent => CurrentPageIDHeadEvent_parse msg
  | PositionHeadEvent => PositionHeadEvent_parse msg
  | SleepPositionHeadEvent => SleepPositionHeadEvent_parse msg
  | StringHeadEvent => StringHeadEvent_parse msg
  | NumberHeadEvent => NumberHeadEvent_parse msg
  | CommandSucceeded => CommandSucceeded_parse msg
  | EventLaunched => EventLaunched_parse msg
  | EventStartup | EmptyMessage => Raise AttributeError
  end.

Definition startup_frame : bytes := [x00; x00; x00; xff; xff; xff].

Definition MsgEvent_parse (msg : bytes) : res event :=
  match msg with
  | [] => Ret mkEmptyMessage
  | b :: _ =>
      let first_byte := Byte.to_N b in
      match D_BYTE0_EVENT_get first_byte with
      | Some evt_typ => parse_as evt_typ msg
      | None =>
          (code <- Return_Code first_byte ;;
           if (code =? INVALID_CMD rc)%N && bytes_eqb msg startup_frame
           then Ret mkEventStartup
           else if existsb (N.eqb code) NEX_EXCEPTIONS
           then Raise (NexMessageException code)
           else Raise NotImplementedError)%res
      end
  end.

End Events.

(** A table for evaluating the model on concrete frames: the return codes
    of the Nextion instruction set in a plain Enum, and mode 3 for "always
    respond". *)
Definition nextion : ReturnCodes := {|
  INVALID_CMD := 0x00; CMD_FINISHED := 0x01; EVENT_LAUNCHED := 0x88;
  EVENT_TOUCH_HEAD := 0x65; CURRENT_PAGE_ID_HEAD := 0x66;
  EVENT_POSITION_HEAD := 0x67; EVENT_SLEEP_POSITION_HEAD := 0x68;
  STRING_HEAD := 0x70; NUMBER_HEAD := 0x71;
  INVALID_COMPONENT_ID := 0x02; INVALID_PAGE_ID := 0x03;
  INVALID_PICTURE_ID := 0x04; INVALID_FONT_ID := 0x05;
  INVALID_BAUD := 0x11; INVALID_VARIABLE := 0x1A;
  INVALID_OPERATION := 0x1B; INVALID_ASSIGN := 0x1C;
  INVALID_EEPROM := 0x1D; INVALID_PARAMETER_QUANTITY := 0x1E;
  INVALID_IO := 0x1F; INVALID_ESC_CHAR := 0x20;
  INVALID_VAR_NAME_TOO_LONG := 0x23;
  other_codes := [0x12; 0x24; 0x86; 0x87; 0x89; 0xFD; 0xFE]%N;
  Code_is_int := false;
  Mode_ALWAYS := 3
|}.

(* ------------------------------------------------------------------ *)
(** ** commands.py *)

Inductive Status : Type := CREATED | SENT | SUCCESSFUL | ERROR.

Definition Status_eqb (a b : Status) : bool :=
  match a, b with
  | CREATED, CREATED | SENT, SENT
  | SUCCESSFUL, SUCCESSFUL | ERROR, ERROR => true
  | _, _ => false
  end.

Inductive CommandClass : Type :=
| Command
| SetPropertyCommand
| GetPropertyCommand
| SendmeCommand
| PageCommand.

(** [DATA_EVENT_CLASSES]; the [None] of the base class is the empty
    tuple, both being false in [if self.DATA_EVENT_CLASSES and ...]. *)
Definition DATA_EVENT_CLASSES (cls : CommandClass) : list EventClass :=
  match cls with
  | GetPropertyCommand => [StringHeadEvent; NumberHeadEvent]
  | SendmeCommand => [CurrentPageIDHeadEvent]
  | _ => []
  end.

(** A value given as a command parameter or as a property value. *)
Inductive value : Type :=
| VStr (s : str)
| VInt (z : Z)
| VBool (b : bool).

(** [str(v)] *)
Definition str_of (v : value) : str :=
  match v with
  | VStr s => s
  | VInt z => str_of_int z
  | VBool true => lit "True"
  | VBool false => lit "False"
  end.

(** [",".join(l)] *)
Fixpoint join (sep : str) (l : list str) : str :=
  match l with
  | [] => []
  | [s] => s
  | s :: l' => s ++ sep ++ join sep l'
  end.

Definition format_command (cmd : str) (params : list value) : res bytes :=
  match params with
  | _ :: _ =>
      let params_str := join (lit ",") (map str_of params) in
      latin1 (cmd ++ lit " " ++ params_str ++ [255; 255; 255]%N)
  | [] => latin1 (cmd ++ [255; 255; 255]%N)
  end.

(** The widget objects of widgets.py, which own the slots of commands:
    the classes of [WidgetFactory.D_FACTORY], and what [NexWidget.__init__]
    stores. *)
Inductive WidgetClass : Type :=
| NexButton | NexCheckbox | NexCrop | NexDualStateButton | NexGauge
| NexHotspot | NexNumber | NexPage | NexPicture | NexProgressBar
| NexQRcode | NexRadio | NexScrollText | NexSlider | NexText | NexWaveform.

Record NexWidget : Type := {
  w_class : WidgetClass;
  w_name : str;
  w_pid : option Z;
  w_cid : option Z
}.

(** The slots connected to the two signals of a command, named by the
    object they belong to.
    - [PageSlots]: the command went through [send_command] of a page of
      the device (given by its index in the store of pages), which
      connects [_on_command_failed] and [NexPage._on_command_successful].
    - [WidgetSlots]: the command was made by [_refresh_internal] of a
      widget of a page, which connects
      [_on_get_property_command_successful], and went through
      [send_command] of the widget, which connects [_on_command_failed]
      and [_on_command_successful].
    - [NoSlots]: nothing is connected. *)
Inductive Slots : Type :=
| NoSlots
| PageSlots (page : nat)
| WidgetSlots (page : nat) (widget : NexWidget).

Record CommandBase : Type := {
  cls : CommandClass;
  status : Status;
  command : bytes;
  data_event : option event;
  property_name : option str;
  new_value : option value;
  slots : Slots
}.

Definition set_status (c : CommandBase) (st : Status) : CommandBase :=
  {| cls := cls c; status := st; command := command c;
     data_event := data_event c; property_name := property_name c;
     new_value := new_value c; slots := slots c |}.

Definition set_data_event (c : CommandBase) (e : option event)
  : CommandBase :=
  {| cls := cls c; status := status c; command := command c;
     data_event := e; property_name := property_name c;
     new_value := new_value c; slots := slots c |}.

Definition connect (c : CommandBase) (s : Slots) : CommandBase :=
  {| cls := cls c; status := status c; command := command c;
     data_event := data_event c; property_name := property_name c;
     new_value := new_value c; slots := s |}.

(** [CommandBase.__init__] *)
Definition CommandBase_init (k : CommandClass) (cmd : str)
  (params : list value) : res CommandBase :=
  (data <- format_command cmd params ;;
   Ret {| cls := k; status := CREATED; command := data;
          data_event := None; property_name := None; new_value := None;
          slots := NoSlots |})%res.

Definition completed (c : CommandBase) : bool :=
  Status_eqb (status c) SUCCESSFUL || Status_eqb (status c) ERROR.

Definition reset (c : CommandBase) : CommandBase :=
  set_data_event (set_status c CREATED) None.

Definition new_Command (cmd : str) : res CommandBase :=
  CommandBase_init Command cmd [].

Definition new_SetPropertyCommand (oid name : str) (v : value)
  : res CommandBase :=
  let v := match v with
           | VBool true => VInt 1
           | VBool false => VInt 0
           | _ => v
           end in
  (c <- CommandBase_init SetPropertyCommand
          (oid ++ lit "." ++ name ++ lit "=" ++ str_of v) [] ;;
   Ret {| cls := cls c; status := status c; command := command c;
          data_event := data_event c; property_name := Some name;
          new_value := Some v; slots := slots c |})%res.

Definition new_GetPropertyCommand (oid name : str) : res CommandBase :=
  (c <- CommandBase_init GetPropertyCommand
          (lit "get " ++ oid ++ lit "." ++ name) [] ;;
   Ret {| cls := cls c; status := status c; command := command c;
          data_event := data_event c; property_name := Some name;
          new_value := None; slots := slots c |})%res.

Definition new_SendmeCommand : res CommandBase :=
  CommandBase_init SendmeCommand (lit "sendme") [].

Definition new_PageCommand (page_number : value) : res CommandBase :=
  CommandBase_init PageCommand (lit "page") [page_number].

(** The signal a final event makes the command emit. *)
Inductive Signal : Type := sig_successful | sig_failed.

(** [command.property_name]: an attribute that only the property
    commands have. *)
Definition get_property_name (c : CommandBase) : res str :=
  match property_name c with
  | Some nm => Ret nm
  | None => Raise AttributeError
  end.

(** [command.data_event.value] and [command.data_event.signed_value]:
    the data event may be [None]; of the events, StringHeadEvent and
    NumberHeadEvent have a [value] and NumberHeadEvent a [signed_value]. *)
Definition data_event_value (c : CommandBase) : res value :=
  match data_event c with
  | Some (mkStringHeadEvent _ v) => Ret (VStr v)
  | Some (mkNumberHeadEvent _ v _) => Ret (VInt (Z.of_N v))
  | _ => Raise AttributeError
  end.

Definition data_event_signed_value (c : CommandBase) : res value :=
  match data_event c with
  | Some (mkNumberHeadEvent _ _ sv) => Ret (VInt sv)
  | _ => Raise AttributeError
  end.

(** [a == b] and [bool(v)] on values. *)
Definition py_eq (a b : value) : bool :=
  match a, b with
  | VStr x, VStr y => str_eqb x y
  | VInt x, VInt y => Z.eqb x y
  | VBool x, VBool y => Bool.eqb x y
  | VInt x, VBool y | VBool y, VInt x => Z.eqb x (if y then 1 else 0)
  | _, _ => false
  end.

Definition truth (v : value) : bool :=
  match v with
  | VStr x => match x with [] => false | _ => true end
  | VInt z => negb (Z.eqb z 0)
  | VBool b => b
  end.

(** [CommandBase.event]: the command after the event, and the signal it
    emitted; no signal is the [return False] of a data event, a signal is
    [return True]. *)
Definition CommandBase_event (c : CommandBase) (e : event)
  : CommandBase * option Signal :=
  if isinstance e (DATA_EVENT_CLASSES (cls c))
  then (set_data_event c (Some e), None)
  else if isinstance e [CommandSucceeded]
  then (set_status c SUCCESSFUL, Some sig_successful)
  else (set_status c ERROR, Some sig_failed).

(* ------------------------------------------------------------------ *)
(** ** Dictionaries in insertion order *)

Section Dict.

Variables (K V : Type) (eqb : K -> K -> bool).

Definition dict := list (K * V).

Fixpoint dict_get (d : dict) (k : K) : option V :=
  match d with
  | [] => None
  | (k', v) :: d' => if eqb k' k then Some v else dict_get d' k
  end.

Definition dict_mem (d : dict) (k : K) : bool :=
  match dict_get d k with Some _ => true | None => false end.

(** [d[k] = v]: a present key keeps its place, a new key goes last. *)
Fixpoint dict_set (d : dict) (k : K) (v : V) : dict :=
  match d with
  | [] => [(k, v)]
  | (k', v') :: d' =>
      if eqb k' k then (k', v) :: d' else (k', v') :: dict_set d' k v
  end.

End Dict.

(* ------------------------------------------------------------------ *)
(** ** widgets.py and interfaces.py: widgets, pages and their registry *)

Definition D_FACTORY : dict str WidgetClass :=
  [ (lit "button", NexButton); (lit "checkbox", NexCheckbox);
    (lit "crop", NexCrop); (lit "dualstatebutton", NexDualStateButton);
    (lit "gauge", NexGauge); (lit "hotspot", NexHotspot);
    (lit "number", NexNumber); (lit "page", NexPage);
    (lit "picture", NexPicture); (lit "progressbar", NexProgressBar);
    (lit "qrcode", NexQRcode); (lit "radio", NexRadio);
    (lit "scrolltext", NexScrollText); (lit "slider", NexSlider);
    (lit "text", NexText); (lit "waveform", NexWaveform) ].

(** [typ.lower()], as far as it can produce a key of D_FACTORY: the
    letters A to Z, and the Kelvin sign whose lower case is [k]. *)
Definition lower_char (c : N) : N :=
  if in_range 65 90 c then (c + 32)%N
  else if (c =? 8490)%N then 107%N
  else c.

Definition lower (s : str) : str := map lower_char s.

Definition REFRESH_VARIABLES (k : WidgetClass) : list str := [].

Definition ONETIME_REFRESH_VARIABLES (k : WidgetClass) : list str :=
  match k with
  | NexButton | NexText => [lit "txt"]
  | NexProgressBar | NexSlider => [lit "val"]
  | _ => []
  end.

(** The classes that inherit [ITouchable], hence have the signals
    [pressed] and [released]. *)
Definition touchable (k : WidgetClass) : bool :=
  match k with
  | NexPage | NexPicture | NexQRcode => false
  | _ => true
  end.

(** [WidgetFactory.create] with [typ] a string; [NexPage.__init__] drops
    the [cid] it is given. *)
Definition WidgetFactory_create (typ name : str) (pid cid : option Z)
  : res NexWidget :=
  match dict_get str_eqb D_FACTORY (lower typ) with
  | Some k =>
      Ret {| w_class := k; w_name := name; w_pid := pid;
             w_cid := match k with NexPage => None | _ => cid end |}
  | None => Raise KeyError
  end.

Record Page : Type := {
  name : str;
  pid : option Z;
  D_WIDGETS_BY_NAME : dict str NexWidget;
  D_WIDGETS_BY_CID : dict Z NexWidget;
  _page_switch_in_progress : bool
}.

Definition set_switching (p : Page) (b : bool) : Page :=
  {| name := name p; pid := pid p;
     D_WIDGETS_BY_NAME := D_WIDGETS_BY_NAME p;
     D_WIDGETS_BY_CID := D_WIDGETS_BY_CID p;
     _page_switch_in_progress := b |}.

Definition set_widgets (p : Page) (by_name : dict str NexWidget)
  (by_cid : dict Z NexWidget) : Page :=
  {| name := name p; pid := pid p;
     D_WIDGETS_BY_NAME := by_name; D_WIDGETS_BY_CID := by_cid;
     _page_switch_in_progress := _page_switch_in_progress p |}.

(** [NexPage.__init__] *)
Definition NexPage_init (name : str) (pid : option Z) : Page :=
  {| name := name; pid := pid; D_WIDGETS_BY_NAME := [];
     D_WIDGETS_BY_CID := []; _page_switch_in_progress := false |}.

(** [k in d] for a key that may be [None]: no dictionary of the registry
    ever holds the key [None]. *)
Definition opt_mem {V} (d : dict Z V) (k : option Z) : bool :=
  match k with
  | Some z => dict_mem Z.eqb d z
  | None => false
  end.

(** [NexPage.hook_widget] *)
Definition hook_widget (widget_type name : str) (cid : option Z)
  : M Page NexWidget :=
  fun self =>
    if dict_mem str_eqb (D_WIDGETS_BY_NAME self) name
    then (Raise NexComponentNameException, self)
    else if opt_mem (D_WIDGETS_BY_CID self) cid
    then (Raise NexComponentIdException, self)
    else
      match WidgetFactory_create widget_type name (pid self) cid with
      | Ret widget =>
          let by_name := dict_set str_eqb (D_WIDGETS_BY_NAME self) name widget in
          let by_cid := match cid with
                        | Some c => dict_set Z.eqb (D_WIDGETS_BY_CID self) c widget
                        | None => D_WIDGETS_BY_CID self
                        end in
          (Ret widget, set_widgets self by_name by_cid)
      | Raise e => (Raise e, self)
      | Timeout => (Timeout, self)
      end.

(** [NexPage.widgets] *)
Definition widgets (p : Page) : list NexWidget :=
  map snd (D_WIDGETS_BY_NAME p).

(* ------------------------------------------------------------------ *)
(** ** device.py: the device session

    The transport is the serial link seen from [NexDevice]: [rx] holds the
    frames still to come, in bursts; [read_next] hands out the frames of
    the first burst one by one and answers with empty data at its end, so
    a burst is what one run of the reading loop of [poll] gets.  [stale] is
    the raw input that [read_all] returns, chunk by chunk.

    What the session does to the outside is recorded in [effects], in
    order of time: the data written to the transport, and the signals
    emitted ([successful] and [failed] of a command, named by its wire
    bytes; [page_changed]; [pressed], [released], [value_changed] and
    [command_failed] of a widget, the last one also of a page), and the
    exception that ends the process when a slot fails ([fatal]).

    The deque [_commands] is the list of its elements read from the right:
    the head is [_commands[-1]], the oldest command.

    The page objects live in [pages]; the two dictionaries of the device
    hold indices into it, as both refer to the same objects.  The
    dictionaries [_properties_cache] of the widget objects live in one
    store, under the page and the name of the widget; a widget that has no
    entry there has the empty cache it is created with.

    Left out: the "sendme" query ([get_current_page] and its two slots),
    the drawing primitives, and the deque [commands] of each widget.  That
    deque holds the commands of the widget that are in the queue of the
    device, in the same order; [_on_command_successful] and
    [_on_command_failed] pop it when the device is about to pop its own
    queue, and assert that what they popped is the sender. *)

Inductive Effect : Type :=
| Written (data : bytes)
| successful (cmd : bytes)
| failed (cmd : bytes)
| page_changed (page_id : Z)
| pressed (page : nat) (widget : str)
| released (page : nat) (widget : str)
| value_changed (page : nat) (widget : str) (v : value)
| command_failed (page : nat) (widget : option str) (cmd : bytes)
| fatal (e : exn).

Record Transport : Type := {
  rx : list (list bytes);
  stale : list bytes
}.

Record NexDevice : Type := {
  transport : Transport;
  _initialized : bool;
  _current_page : option nat;
  pages : list Page;
  _pages_by_name : dict str nat;
  _pages_by_id : dict Z nat;
  _commands : list CommandBase;
  _properties_cache : dict (nat * str) (dict str value);
  effects : list Effect
}.

Definition set_transport (d : NexDevice) (t : Transport) : NexDevice :=
  {| transport := t; _initialized := _initialized d;
     _current_page := _current_page d; pages := pages d;
     _pages_by_name := _pages_by_name d; _pages_by_id := _pages_by_id d;
     _commands := _commands d;
     _properties_cache := _properties_cache d; effects := effects d |}.

Definition set_initialized (d : NexDevice) (b : bool) : NexDevice :=
  {| transport := transport d; _initialized := b;
     _current_page := _current_page d; pages := pages d;
     _pages_by_name := _pages_by_name d; _pages_by_id := _pages_by_id d;
     _commands := _commands d;
     _properties_cache := _properties_cache d; effects := effects d |}.

Definition set_current_page (d : NexDevice) (p : option nat) : NexDevice :=
  {| transport := transport d; _initialized := _initialized d;
     _current_page := p; pages := pages d;
     _pages_by_name := _pages_by_name d; _pages_by_id := _pages_by_id d;
     _commands := _commands d;
     _properties_cache := _properties_cache d; effects := effects d |}.

Definition set_pages (d : NexDevice) (ps : list Page) : NexDevice :=
  {| transport := transport d; _initialized := _initialized d;
     _current_page := _current_page d; pages := ps;
     _pages_by_name := _pages_by_name d; _pages_by_id := _pages_by_id d;
     _commands := _commands d;
     _properties_cache := _properties_cache d; effects := effects d |}.

Definition set_pages_by_name (d : NexDevice) (m : dict str nat)
  : NexDevice :=
  {| transport := transport d; _initialized := _initialized d;
     _current_page := _current_page d; pages := pages d;
     _pages_by_name := m; _pages_by_id := _pages_by_id d;
     _commands := _commands d;
     _properties_cache := _properties_cache d; effects := effects d |}.

Definition set_pages_by_id (d : NexDevice) (m : dict Z nat) : NexDevice :=
  {| transport := transport d; _initialized := _initialized d;
     _current_page := _current_page d; pages := pages d;
     _pages_by_name := _pages_by_name d; _pages_by_id := m;
     _commands := _commands d;
     _properties_cache := _properties_cache d; effects := effects d |}.

Definition set_commands (d : NexDevice) (q : list CommandBase)
  : NexDevice :=
  {| transport := transport d; _initialized := _initialized d;
     _current_page := _current_page d; pages := pages d;
     _pages_by_name := _pages_by_name d; _pages_by_id := _pages_by_id d;
     _commands := q; _properties_cache := _properties_cache d;
     effects := effects d |}.

Definition set_effects (d : NexDevice) (l : list Effect) : NexDevice :=
  {| transport := transport d; _initialized := _initialized d;
     _current_page := _current_page d; pages := pages d;
     _pages_by_name := _pages_by_name d; _pages_by_id := _pages_by_id d;
     _commands := _commands d;
     _properties_cache := _properties_cache d; effects := l |}.

Definition set_properties_cache (d : NexDevice)
  (m : dict (nat * str) (dict str value)) : NexDevice :=
  {| transport := transport d; _initialized := _initialized d;
     _current_page := _current_page d; pages := pages d;
     _pages_by_name := _pages_by_name d; _pages_by_id := _pages_by_id d;
     _commands := _commands d; _properties_cache := m;
     effects := effects d |}.

(** [NexDevice.__init__] *)
Definition NexDevice_init (t : Transport) : NexDevice :=
  {| transport := t; _initialized := false; _current_page := None;
     pages := []; _pages_by_name := []; _pages_by_id := [];
     _commands := []; _properties_cache := []; effects := [] |}.

(** *** The deque *)

Definition appendleft (c : CommandBase) : M NexDevice unit :=
  modify (fun d => set_commands d (_commands d ++ [c])).

(** [extendleft(l)] appends the elements of [l] to the left one by one. *)
Definition extendleft (l : list CommandBase) : M NexDevice unit :=
  modify (fun d => set_commands d (_commands d ++ l)).

(** [rotate()]: the right end goes to the left end. *)
Definition rotate (q : list CommandBase) : list CommandBase :=
  match q with
  | [] => []
  | c :: older => older ++ [c]
  end.

(** [pop()] on a deque known not to be empty. *)
Definition pop : M NexDevice unit :=
  modify (fun d => set_commands d (tl (_commands d))).

(** *** Effects and the transport *)

Definition emit (e : Effect) : M NexDevice unit :=
  modify (fun d => set_effects d (effects d ++ [e])).

Definition write (data : bytes) : M NexDevice unit := emit (Written data).

Fixpoint for_each {St A} (f : A -> M St unit) (l : list A) : M St unit :=
  match l with
  | [] => ret tt
  | a :: l' => (f a ;;; for_each f l')%m
  end.

Definition is_nil {A} (l : list A) : bool :=
  match l with [] => true | _ => false end.

(** [transport.read_next()] *)
Definition read_next : M Transport bytes :=
  fun t =>
    match rx t with
    | [] => (Ret [], t)
    | [] :: more => (Ret [], {| rx := more; stale := stale t |})
    | (data :: burst) :: more =>
        (Ret data, {| rx := burst :: more; stale := stale t |})
    end.

(** The loop of [init] that discards stale input:
    [while True: if not self.transport.read_all(): break]. *)
Fixpoint flush_chunks (chunks : list bytes) : list bytes :=
  match chunks with
  | [] => []
  | data :: chunks' => if is_nil data then chunks' else flush_chunks chunks'
  end.

Definition flush : M NexDevice unit :=
  modify (fun d =>
    set_transport d {| rx := rx (transport d);
                       stale := flush_chunks (stale (transport d)) |}).

(** *** Pages of the device *)

Definition set_nth {A} (n : nat) (a : A) (l : list A) : list A :=
  firstn n l ++ match skipn n l with [] => [] | _ :: r => a :: r end.

(** Running a method of the page object number [ref]. *)
Definition on_page {A} (ref : nat) (m : M Page A) : M NexDevice A :=
  fun d =>
    match nth_error (pages d) ref with
    | Some p => let (r, p') := m p in (r, set_pages d (set_nth ref p' (pages d)))
    | None => (Raise KeyError, d)
    end.

(** A method of the page object number [ref] changing its own state. *)
Definition update_page (ref : nat) (f : Page -> Page) : M NexDevice unit :=
  modify (fun d =>
    match nth_error (pages d) ref with
    | Some p => set_pages d (set_nth ref (f p) (pages d))
    | None => d
    end).

(** Reading the page object number [ref]. *)
Definition read_page (ref : nat) : M NexDevice Page :=
  fun d =>
    match nth_error (pages d) ref with
    | Some p => (Ret p, d)
    | None => (Raise KeyError, d)
    end.

(** [NexDevice.hook_page]; the result is the new page object. *)
Definition hook_page (nm : str) (page_id : option Z) : M NexDevice nat :=
  fun d =>
    if dict_mem str_eqb (_pages_by_name d) nm
    then (Raise NexComponentNameException, d)
    else if opt_mem (_pages_by_id d) page_id
    then (Raise NexComponentIdException, d)
    else
      let page := length (pages d) in
      let d := set_pages d (pages d ++ [NexPage_init nm page_id]) in
      let d := match page_id with
               | Some i => set_pages_by_id d (dict_set Z.eqb (_pages_by_id d) i page)
               | None => d
               end in
      (Ret page, set_pages_by_name d (dict_set str_eqb (_pages_by_name d) nm page)).

(** [self._pages_by_name_or_id[key]], the chained lookup. *)
Definition get_page (d : NexDevice) (key : str + Z) : res nat :=
  match key with
  | inl nm =>
      match dict_get str_eqb (_pages_by_name d) nm with
      | Some p => Ret p
      | None => Raise KeyError
      end
  | inr i =>
      match dict_get Z.eqb (_pages_by_id d) i with
      | Some p => Ret p
      | None => Raise KeyError
      end
  end.

(** [NexWidget.send_command], for a page or a widget of a hooked page:
    the slots of the sender are connected and [enqueue_command] reaches
    [NexDevice._on_enqueue_command]. *)
Definition send_command (sender : Slots) (c : CommandBase)
  : M NexDevice unit :=
  appendleft (connect c sender).

(** [NexPage.show] *)
Definition show (page : nat) : M NexDevice unit :=
  (update_page page (fun p => set_switching p true) ;;;
   p <- read_page page ;;
   let target := match pid p with
                 | None => VStr (name p)
                 | Some i => VInt i
                 end in
   c <- lift (new_PageCommand target) ;;
   send_command (PageSlots page) c)%m.

(** [NexDevice.select_page], given a name or an ID.  [page_changed] is a
    signal of an [int]: emitting the ID [None] is a TypeError. *)
Definition select_page (key : str + Z) : M NexDevice nat :=
  (d <- get ;;
   page <- lift (get_page d key) ;;
   modify (fun d => set_current_page d (Some page)) ;;;
   show page ;;;
   p <- read_page page ;;
   match pid p with
   | Some i => emit (page_changed i)
   | None => raise TypeError
   end ;;;
   ret page)%m.

(** [NxInterface._refresh_internal] *)
Definition _refresh_internal (page : nat) (w : NexWidget)
  (property_name : str) : M NexDevice unit :=
  (c <- lift (new_GetPropertyCommand (w_name w) property_name) ;;
   send_command (WidgetSlots page w) c)%m.

(** [refresh] and [onetime_refresh] of a widget. *)
Definition widget_refresh (page : nat) (w : NexWidget) : M NexDevice unit :=
  for_each (_refresh_internal page w) (REFRESH_VARIABLES (w_class w)).

Definition widget_onetime_refresh (page : nat) (w : NexWidget)
  : M NexDevice unit :=
  for_each (_refresh_internal page w) (ONETIME_REFRESH_VARIABLES (w_class w)).

(** [NexPage.refresh] and [NexPage.onetime_refresh] *)
Definition page_refresh (page : nat) : M NexDevice unit :=
  (p <- read_page page ;;
   if _page_switch_in_progress p then ret tt
   else for_each (widget_refresh page) (widgets p))%m.

Definition page_onetime_refresh (page : nat) : M NexDevice unit :=
  (p <- read_page page ;;
   if _page_switch_in_progress p then ret tt
   else for_each (widget_onetime_refresh page) (widgets p))%m.

(** *** Signals and slots

    A slot called by [emit].  An exception that leaves a slot does not
    reach the caller of [emit], which is code of PyQt5: PyQt5 (from 5.5
    on) prints the traceback and calls [qFatal], which ends the process.
    The call of [emit] then does not come back, and neither does [poll]:
    the outcome is [Timeout], with the state that the slot left and the
    exception recorded as [fatal]. *)
Definition slot (m : M NexDevice unit) : M NexDevice unit :=
  fun d =>
    match m d with
    | (Ret tt, d') => (Ret tt, d')
    | (Raise e, d') => (Timeout, set_effects d' (effects d' ++ [fatal e]))
    | (Timeout, d') => (Timeout, d')
    end.

(** [self._properties_cache] of a widget of a page. *)
Definition widget_key_eqb (a b : nat * str) : bool :=
  Nat.eqb (fst a) (fst b) && str_eqb (snd a) (snd b).

Definition cache_of (d : NexDevice) (page : nat) (w : NexWidget)
  : dict str value :=
  match dict_get widget_key_eqb (_properties_cache d) (page, w_name w) with
  | Some cache => cache
  | None => []
  end.

(** [self._properties_cache[property_name] = v] *)
Definition cache_set (page : nat) (w : NexWidget) (property_name : str)
  (v : value) : M NexDevice unit :=
  modify (fun d =>
    set_properties_cache d
      (dict_set widget_key_eqb (_properties_cache d) (page, w_name w)
         (dict_set str_eqb (cache_of d page w) property_name v))).

(** The signal [value_changed] of a class: [pyqtSignal(int)] with
    INumericalUnsignedValued, [pyqtSignal(str)] with IStringValued. *)
Inductive ArgType : Type := arg_int | arg_str.

Definition value_changed_arg (k : WidgetClass) : option ArgType :=
  match k with
  | NexCheckbox | NexDualStateButton | NexGauge | NexNumber
  | NexProgressBar | NexRadio | NexSlider => Some arg_int
  | NexButton | NexQRcode | NexScrollText | NexText => Some arg_str
  | NexCrop | NexHotspot | NexPage | NexPicture | NexWaveform => None
  end.

(** [self.value_changed.emit(v)]: AttributeError in a class without the
    signal; PyQt converts the argument to the type of the signal, a C
    [int] or a string, and raises TypeError for a value of another type
    and OverflowError for an integer that a C [int] does not hold. *)
Definition emit_value_changed (page : nat) (w : NexWidget) (v : value)
  : M NexDevice unit :=
  match value_changed_arg (w_class w), v with
  | None, _ => raise AttributeError
  | Some arg_str, VStr _ => emit (value_changed page (w_name w) v)
  | Some arg_int, VInt z =>
      if ((- 2 ^ 31 <=? z) && (z <? 2 ^ 31))%Z
      then emit (value_changed page (w_name w) v)
      else raise OverflowError
  | Some arg_int, VBool b =>
      emit (value_changed page (w_name w) (VInt (if b then 1 else 0)))
  | Some _, _ => raise TypeError
  end.

(** [_on_get_property_command_successful], with [sender] the command that emits:
    the method of IBooleanValued for a checkbox, a dual-state button and a
    radio, that of INumericalSignedValued for a number, that of NxInterface
    for the other classes; a page has none of the interfaces. *)
Definition _on_get_property_command_successful (page : nat) (w : NexWidget)
  (sender : CommandBase) : M NexDevice unit :=
  match w_class w with
  | NexPage => raise AttributeError
  | NexCheckbox | NexDualStateButton | NexRadio =>
      (v <- lift (data_event_value sender) ;;
       property_name <- lift (get_property_name sender) ;;
       cache_set page w property_name (VBool (truth v)))%m
  | NexNumber =>
      (v <- lift (data_event_signed_value sender) ;;
       property_name <- lift (get_property_name sender) ;;
       cache_set page w property_name v)%m
  | _ =>
      (property_name <- lift (get_property_name sender) ;;
       d <- get ;;
       let previous := dict_get str_eqb (cache_of d page w) property_name in
       v <- lift (data_event_value sender) ;;
       cache_set page w property_name v ;;;
       if match previous with
          | Some u => negb (py_eq u v)
          | None => true
          end
       then emit_value_changed page w v
       else ret tt)%m
  end.

(** [NexWidget._on_command_successful]: the signals are disconnected
    and the deque of the widget is popped. *)
Definition _on_command_successful : M NexDevice unit := ret tt.

(** [NexPage._on_command_successful]: the same, and the end of a page
    switch. *)
Definition NexPage_on_command_successful (page : nat) (sender : CommandBase)
  : M NexDevice unit :=
  match cls sender with
  | PageCommand => update_page page (fun p => set_switching p false)
  | _ => ret tt
  end.

(** [NexWidget._on_command_failed] of a widget, or of the page itself
    when [w] is [None]: the command is relayed to [command_failed]. *)
Definition _on_command_failed (page : nat) (w : option NexWidget)
  (sender : CommandBase) : M NexDevice unit :=
  emit (command_failed page (option_map w_name w) (command sender)).

(** [signal.emit()] at the end of [CommandBase.event]: the emission, then
    the connected slots in the order in which they were connected. *)
Definition emit_signal (c : CommandBase) (s : Signal) : M NexDevice unit :=
  match s with
  | sig_successful =>
      (emit (successful (command c)) ;;;
       match slots c with
       | NoSlots => ret tt
       | PageSlots page => slot (NexPage_on_command_successful page c)
       | WidgetSlots page w =>
           (slot (_on_get_property_command_successful page w c) ;;;
            slot _on_command_successful)%m
       end)%m
  | sig_failed =>
      (emit (failed (command c)) ;;;
       match slots c with
       | NoSlots => ret tt
       | PageSlots page => slot (_on_command_failed page None c)
       | WidgetSlots page w => slot (_on_command_failed page (Some w) c)
       end)%m
  end.

Section Device.

Variable rc : ReturnCodes.

(** The reading loop of [poll], over the frames of the current burst:
    the events parsed, or the exception of the frame that does not parse,
    and what is left of the input. *)
Fixpoint read_loop (burst : list bytes) (more : list (list bytes))
  : res (list event) * list (list bytes) :=
  match burst with
  | [] => (Ret [], more)
  | data :: burst' =>
      if is_nil data then (Ret [], burst' :: more)
      else
        match MsgEvent_parse rc data with
        | Ret event =>
            let (r, rx') := read_loop burst' more in
            ((events <- r ;; Ret (event :: events))%res, rx')
        | Raise e => (Raise e, burst' :: more)
        | Timeout => (Timeout, burst' :: more)
        end
  end.

Definition read_events : M NexDevice (list event) :=
  fun d =>
    match rx (transport d) with
    | [] => (Ret [], d)
    | burst :: more =>
        let (r, rx') := read_loop burst more in
        (r, set_transport d {| rx := rx'; stale := stale (transport d) |})
    end.

(** The branch of [poll] for a touch event. *)
Definition dispatch_touch (page_id cid : N) (press_event : Touch)
  : M NexDevice unit :=
  fun d =>
    match get_page d (inr (Z.of_N page_id)) with
    | Ret page =>
        match nth_error (pages d) page with
        | Some p =>
            match dict_get Z.eqb (D_WIDGETS_BY_CID p) (Z.of_N cid) with
            | Some widget =>
                if touchable (w_class widget) then
                  match press_event with
                  | Press => emit (pressed page (w_name widget)) d
                  | Release => emit (released page (w_name widget)) d
                  end
                else (Raise AttributeError, d)
            | None => (Ret tt, d)
            end
        | None => (Ret tt, d)
        end
    | _ => (Ret tt, d)
    end.

(** The branch [command.status == SENT] of the scan: the event goes to
    the oldest command, which leaves the queue when it is completed. *)
Definition feed (c : CommandBase) (older : list CommandBase) (e : event)
  : M NexDevice unit :=
  let (c', s) := CommandBase_event c e in
  (modify (fun d => set_commands d (c' :: older)) ;;;
   match s with
   | Some s => (emit_signal c' s ;;; pop)%m
   | None => ret tt
   end)%m.

(** The scan [while self._commands: ...] for one event that is not a
    touch event.  One unit of fuel is one turn of the loop. *)
Fixpoint scan (fuel : nat) (e : event) : M NexDevice unit :=
  fun d =>
    match _commands d with
    | [] => (Ret tt, d)
    | c :: older =>
        match fuel with
        | O => (Timeout, d)
        | S fuel' =>
            match status c with
            | CREATED => scan fuel' e (set_commands d (rotate (_commands d)))
            | SENT => feed c older e d
            | _ => scan fuel' e (set_commands d (rotate (_commands d)))
            end
        end
    end.

Definition dispatch (fuel : nat) (e : event) : M NexDevice unit :=
  match e with
  | mkTouchEvent _ page_id cid press_event =>
      dispatch_touch page_id cid press_event
  | _ => scan fuel e
  end.

(** [CommandBase.send]: the command after it. *)
Definition send (c : CommandBase) : M NexDevice CommandBase :=
  (write (command c) ;;; ret (set_status c SENT))%m.

(** The third step of [poll]: the oldest command is sent if it is
    CREATED. *)
Definition transmit : M NexDevice unit :=
  fun d =>
    match _commands d with
    | c :: older =>
        match status c with
        | CREATED =>
            (c' <- send c ;;
             modify (fun d => set_commands d (c' :: older)))%m d
        | _ => (Ret tt, d)
        end
    | [] => (Ret tt, d)
    end.

(** The last step of [poll]; [NexDevice.refresh] does nothing. *)
Definition idle_refresh : M NexDevice unit :=
  fun d =>
    if _initialized d && is_nil (_commands d) then
      match _current_page d with
      | Some page => page_refresh page d
      | None => (Ret tt, d)
      end
    else (Ret tt, d).

(** [NexDevice.poll] *)
Definition poll (fuel : nat) : M NexDevice bool :=
  (events <- read_events ;;
   for_each (dispatch fuel) events ;;;
   transmit ;;;
   idle_refresh ;;;
   d <- get ;;
   ret (is_nil (_commands d)))%m.

(** [while self._commands: self.poll()] *)
Fixpoint drain (n fuel : nat) : M NexDevice unit :=
  fun d =>
    match _commands d with
    | [] => (Ret tt, d)
    | _ :: _ =>
        match n with
        | O => (Timeout, d)
        | S n' => (poll fuel ;;; drain n' fuel)%m d
        end
    end.

(** The body of the loop of [init] over [self._pages_by_id.items()]. *)
Definition init_page (fuel : nat) (item : Z * nat) : M NexDevice unit :=
  let (page_id, page) := item in
  (select_page (inr page_id) ;;;
   drain fuel fuel ;;;
   page_onetime_refresh page ;;;
   drain fuel fuel)%m.

(** [NexDevice.init] *)
Definition init (fuel : nat) : M NexDevice unit :=
  (flush ;;;
   c <- lift (new_Command (lit "bkcmd=" ++ str_of_int (Mode_ALWAYS rc))) ;;
   extendleft [c] ;;;
   drain fuel fuel ;;;
   d <- get ;;
   for_each (init_page fuel) (_pages_by_id d) ;;;
   select_page (inr 0%Z) ;;;
   drain fuel fuel ;;;
   modify (fun d => set_initialized d true))%m.

End Device.

(* ------------------------------------------------------------------ *)
(** ** widgets.py: looking widgets up, hooking several at once *)

(** [NexPage.widget]: the chained lookup, names first. *)
Definition widget (p : Page) (name_or_id : str + Z) : res NexWidget :=
  match name_or_id with
  | inl nm =>
      match dict_get str_eqb (D_WIDGETS_BY_NAME p) nm with
      | Some w => Ret w
      | None => Raise KeyError
      end
  | inr i =>
      match dict_get Z.eqb (D_WIDGETS_BY_CID p) i with
      | Some w => Ret w
      | None => Raise KeyError
      end
  end.

(** [NexPage.hook_widgets]: the list comprehension hooks the widgets one
    after the other and stops at the first that raises. *)
Fixpoint hook_widgets (widget_data : list (str * str * option Z))
  : M Page (list NexWidget) :=
  match widget_data with
  | [] => ret []
  | (widget_type, nm, cid) :: widget_data' =>
      (w <- hook_widget widget_type nm cid ;;
       ws <- hook_widgets widget_data' ;;
       ret (w :: ws))%m
  end.

(* ------------------------------------------------------------------ *)
(** ** hardware.py: the serial transport

    [sp] is the serial port, opened without a read timeout: [in_waiting]
    is the number of bytes received and not read yet, [read(n)] hands out
    [n] bytes and blocks until it has them.  [pending] holds the bytes
    received, [coming] those that the display sends later on; a [read]
    that waits for more bytes than the display ever sends does not come
    back.

    [_buffer] is the bytearray that [read_next] fills, and keeps from one
    call to the next; [_events_queue] is the deque of the frames split off
    and not handed out yet, as the list of its elements read from the
    right: the head is what [pop()] returns.  The lock of the port is
    left out. *)

Record SerialPort : Type := {
  pending : bytes;
  coming : bytes
}.

Definition in_waiting (port : SerialPort) : nat := length (pending port).

(** [sp.read(n)] *)
Definition sp_read (n : nat) : M SerialPort bytes :=
  fun port =>
    if (n <=? length (pending port))%nat then
      (Ret (firstn n (pending port)),
       {| pending := skipn n (pending port); coming := coming port |})
    else if (n <=? length (pending port ++ coming port))%nat then
      (Ret (firstn n (pending port ++ coming port)),
       {| pending := [];
          coming := skipn (n - length (pending port)) (coming port) |})
    else (Timeout, port).

Record AbstractSerialNex : Type := {
  sp : SerialPort;
  _buffer : bytes;
  _events_queue : list bytes
}.

Definition set_sp (self : AbstractSerialNex) (port : SerialPort)
  : AbstractSerialNex :=
  {| sp := port; _buffer := _buffer self;
     _events_queue := _events_queue self |}.

Definition set_buffer (self : AbstractSerialNex) (buf : bytes)
  : AbstractSerialNex :=
  {| sp := sp self; _buffer := buf; _events_queue := _events_queue self |}.

Definition set_events_queue (self : AbstractSerialNex) (q : list bytes)
  : AbstractSerialNex :=
  {| sp := sp self; _buffer := _buffer self; _events_queue := q |}.

Definition INCOMING_BUFFER_SIZE : nat := 1024.
Definition MIN_SIZE_READ : nat := length S_END_OF_CMD + 1.
Definition TERMINATOR_SIZE : nat := length S_END_OF_CMD.

(** [AbstractSerialNex.__init__] *)
Definition AbstractSerialNex_init (port : SerialPort) : AbstractSerialNex :=
  {| sp := port; _buffer := repeat x00 INCOMING_BUFFER_SIZE;
     _events_queue := [] |}.

(** [buf[i:j]] and [buf[i:j] = chunk], for indices that are not
    negative; [i <= j] in the assignment. *)
Definition slice (buf : bytes) (i j : nat) : bytes :=
  firstn (j - i) (skipn i buf).

Definition slice_assign (buf : bytes) (i j : nat) (chunk : bytes) : bytes :=
  firstn i buf ++ chunk ++ skipn j buf.

(** [buf.find(sub, start, end)] for indices that are not negative: the
    lowest index from [start] on at which [sub] lies within
    [buf[start:end]]; [None] stands for -1. *)
Fixpoint find_loop (buf sub : bytes) (pos n : nat) : option nat :=
  match n with
  | O => None
  | S n' =>
      if bytes_eqb (slice buf pos (pos + length sub)) sub then Some pos
      else find_loop buf sub (S pos) n'
  end.

Definition bytearray_find (buf sub : bytes) (start stop : nat) : option nat :=
  find_loop buf sub start
    (S (Nat.min stop (length buf)) - (start + length sub)).

(** A method of the port, run on the transport. *)
Definition on_sp {A} (m : M SerialPort A) : M AbstractSerialNex A :=
  fun self => let (r, port) := m (sp self) in (r, set_sp self port).

(** The loop [while self._buffer[buffer_size - 3:buffer_size] !=
    S_END_OF_CMD] that reads byte after byte; the result is the final
    [buffer_size].  One unit of fuel is one turn of the loop.  At this
    point [buffer_size] is 4 at least, so that the lower index is not
    negative. *)
Fixpoint trickle (fuel buffer_size : nat) : M AbstractSerialNex nat :=
  fun self =>
    if negb (bytes_eqb (slice (_buffer self) (buffer_size - TERMINATOR_SIZE)
                          buffer_size) S_END_OF_CMD)
    then
      match fuel with
      | O => (Timeout, self)
      | S fuel' =>
          (chunk <- on_sp (sp_read 1) ;;
           modify (fun self =>
             set_buffer self
               (slice_assign (_buffer self) buffer_size (buffer_size + 1)
                  chunk)) ;;;
           trickle fuel' (buffer_size + 1))%m self
      end
    else (Ret buffer_size, self).

(** The loop that splits the buffer into frames.  One unit of fuel is
    one turn of the loop. *)
Fixpoint split_events (fuel start buffer_size : nat)
  : M AbstractSerialNex unit :=
  fun self =>
    match bytearray_find (_buffer self) S_END_OF_CMD start buffer_size with
    | None => (Ret tt, self)
    | Some pos =>
        match fuel with
        | O => (Timeout, self)
        | S fuel' =>
            split_events fuel' (pos + TERMINATOR_SIZE) buffer_size
              (set_events_queue self
                 (_events_queue self
                  ++ [slice (_buffer self) start (pos + TERMINATOR_SIZE)]))
        end
    end.

(** [self._events_queue.pop()] *)
Definition events_pop : M AbstractSerialNex bytes :=
  fun self =>
    match _events_queue self with
    | [] => (Raise IndexError, self)
    | data :: q => (Ret data, set_events_queue self q)
    end.

(** [AbstractSerialNex.read_next].  The first loop takes a byte per
    turn: it is given a turn for every byte still to come and one more,
    in which [read] blocks.  The second loop moves on by three bytes at
    least per turn: it is given a turn for every byte of the buffer. *)
Definition AbstractSerialNex_read_next : M AbstractSerialNex bytes :=
  fun self =>
    if negb (is_nil (_events_queue self)) then events_pop self
    else if (in_waiting (sp self) <? MIN_SIZE_READ)%nat then (Ret [], self)
    else
      (chunk <- on_sp (sp_read (in_waiting (sp self))) ;;
       modify (fun self =>
         set_buffer self
           (slice_assign (_buffer self) 0 (0 + length chunk) chunk)) ;;;
       self' <- get ;;
       buffer_size <- trickle (S (length (coming (sp self')))) (length chunk) ;;
       split_events buffer_size 0 buffer_size ;;;
       events_pop)%m self.

(* ------------------------------------------------------------------ *)
(** ** Vocabulary of the properties *)

(** The classes whose frames have a fixed length. *)
Definition fixed_length (k : EventClass) : bool :=
  match k with
  | TouchEvent | CurrentPageIDHeadEvent | PositionHeadEvent
  | SleepPositionHeadEvent | NumberHeadEvent | CommandSucceeded
  | EventLaunched => true
  | _ => false
  end.

(** [command.event(e)] for the events of a list, one after the other: the
    command after them. *)
Definition feed_events (c : CommandBase) (es : list event) : CommandBase :=
  fold_left (fun c e => fst (CommandBase_event c e)) es c.

(** A StringValue or NumberValue event. *)
Definition is_data (e : event) : Prop :=
  isinstance e [StringHeadEvent; NumberHeadEvent] = true.


(** What the session does about commands, read off its effects: a command
    is written, a command is done (either signal). *)
Inductive token : Type :=
| W (cmd : bytes)
| D (cmd : bytes).

Definition token_of (e : Effect) : list token :=
  match e with
  | Written b => [W b]
  | successful b => [D b]
  | failed b => [D b]
  | _ => []
  end.

Definition tokens (l : list Effect) : list token := flat_map token_of l.

(** The tokens a queue still owes: every command is written, then done,
    the oldest first; one that is SENT has been written already. *)
Definition owed_by (c : CommandBase) : list token :=
  match status c with
  | SENT => [D (command c)]
  | _ => [W (command c); D (command c)]
  end.

Definition owed (q : list CommandBase) : list token := flat_map owed_by q.

Definition service (c : CommandBase) : list token :=
  [W (command c); D (command c)].

(** At most the oldest command is in flight: it is CREATED or SENT, and
    every younger one is CREATED. *)
Definition created (c : CommandBase) : Prop := status c = CREATED.

Definition one_in_flight (q : list CommandBase) : Prop :=
  match q with
  | [] => True
  | c :: younger =>
      (status c = CREATED \/ status c = SENT) /\ Forall created younger
  end.

(** A run of the session: commands handed to [_on_enqueue_command] and
    calls of [poll], in any order. *)
Inductive action : Type :=
| Enqueue (c : CommandBase)
| Poll (fuel : nat).

Definition perform (rc : ReturnCodes) (a : action) : M NexDevice unit :=
  match a with
  | Enqueue c => appendleft c
  | Poll fuel => (poll rc fuel ;;; ret tt)%m
  end.

Definition run (rc : ReturnCodes) (l : list action) : M NexDevice unit :=
  for_each (perform rc) l.

Fixpoint enqueued (l : list action) : list CommandBase :=
  match l with
  | [] => []
  | Enqueue c :: l' => c :: enqueued l'
  | Poll _ :: l' => enqueued l'
  end.

(** The text of a wire command. *)
Definition text (b : bytes) : str := map Byte.to_N b.

(** The schedule of a session: what it has done about commands so far,
    then what its queue owes. *)
Definition sched (d : NexDevice) : list token :=
  tokens (effects d) ++ owed (_commands d).

Definition served (l : list bytes) : list token :=
  flat_map (fun b => [W b; D b]) l.

(** What a call may change of the registry is the switching flag of a
    page; the layout is the rest, with the flag [_initialized]. *)
Definition layout (d : NexDevice)
  : list Page * dict str nat * dict Z nat * bool :=
  (map (fun p => set_switching p false) (pages d),
   _pages_by_name d, _pages_by_id d, _initialized d).

(** The frame of every operation but [hook_page] and the end of [init]:
    the layout stays and the effects grow. *)
Definition framed (d d' : NexDevice) : Prop :=
  layout d' = layout d /\ exists es, effects d' = effects d ++ es.

(** What [poll] keeps: the discipline of the queue and the schedule. *)
Definition steady (d d' : NexDevice) : Prop :=
  one_in_flight (_commands d) ->
  one_in_flight (_commands d') /\ sched d' = sched d.

(** A relation between the states before and after a computation;
    with [strict], only for the runs that the fuel does not cut. *)
Definition sat {A} (strict : bool) (R : NexDevice -> NexDevice -> Prop)
  (m : M NexDevice A) : Prop :=
  forall d r d', m d = (r, d') -> (strict = true -> r <> Timeout) -> R d d'.

(** The data written to the transport, read off the effects. *)
Definition writes (l : list Effect) : list bytes :=
  flat_map (fun e => match e with Written b => [b] | _ => [] end) l.

(** The effects grow, by nothing written. *)
Definition quiet (d d' : NexDevice) : Prop :=
  exists es, effects d' = effects d ++ es /\ writes es = [].

(** Both at once: what every step of [poll] but the sending does. *)
Definition calm (d d' : NexDevice) : Prop := framed d d' /\ quiet d d'.

(** The effect of a completion signal. *)
Definition signal_effect (s : Signal) (cmd : bytes) : Effect :=
  match s with
  | sig_successful => successful cmd
  | sig_failed => failed cmd
  end.

(** The dictionary of page IDs agrees with the page objects: an ID leads
    to one page, a page that exists and bears this ID. *)
Definition registry_ok (d : NexDevice) : Prop :=
  forall i ref,
    In (i, ref) (_pages_by_id d) ->
    dict_get Z.eqb (_pages_by_id d) i = Some ref
    /\ exists p, nth_error (pages d) ref = Some p /\ pid p = Some i.

(** *** The script of [init], after the words of the specification *)

(** The bytes of a text that latin1 encodes. *)
Definition wire (s : str) : bytes :=
  match latin1 s with
  | Ret b => b
  | _ => []
  end.

Definition wire_mode (rc : ReturnCodes) : bytes :=
  wire (lit "bkcmd=" ++ str_of_int (Mode_ALWAYS rc) ++ [255; 255; 255]%N).

Definition wire_page (i : Z) : bytes :=
  wire (lit "page " ++ str_of_int i ++ [255; 255; 255]%N).






(** A character of ASCII, a character that latin1 encodes. *)
Definition ascii_char (c : N) : Prop := (c < 128)%N.
Definition latin1_char (c : N) : Prop := (c < 256)%N.

(** The line that [format_command] puts before the terminator. *)
Definition command_line (cmd : str) (params : list value) : str :=
  match params with
  | [] => cmd
  | _ :: _ => cmd ++ lit " " ++ join (lit ",") (map str_of params)
  end.

(** Every widget of a page that has an ID is listed under its name. *)
Definition page_ok (p : Page) : Prop :=
  forall c w,
    dict_get Z.eqb (D_WIDGETS_BY_CID p) c = Some w ->
    dict_get str_eqb (D_WIDGETS_BY_NAME p) (w_name w) = Some w.

(** The shape of the registry: which IDs lead to which page objects, and
    the ID each page object bears. *)
Definition same_ids (d d' : NexDevice) : Prop :=
  _pages_by_id d' = _pages_by_id d
  /\ map pid (pages d') = map pid (pages d).

(** The current page, if any, is one of the page objects: in the source
    the attribute holds the object itself. *)
Definition current_page_ok (d : NexDevice) : Prop :=
  forall ref, _current_page d = Some ref ->
              exists p, nth_error (pages d) ref = Some p.

(** An event of the class TouchEvent. *)
Definition is_touch (e : event) : Prop := class_of e = TouchEvent.

(** What the session does for a command that the display answers with
    success: it writes it, then emits its signal [successful]. *)
Definition completion (c : CommandBase) : list Effect :=
  [Written (command c); successful (command c)].

(** The signals of widgets. *)
Definition touch_signal (e : Effect) : Prop :=
  match e with
  | pressed _ _ | released _ _ => True
  | _ => False
  end.

(** What a step leaves alone when all it does is emit signals of
    widgets. *)
Definition touched (d d' : NexDevice) : Prop :=
  _commands d' = _commands d /\ transport d' = transport d
  /\ pages d' = pages d /\ _pages_by_name d' = _pages_by_name d
  /\ _pages_by_id d' = _pages_by_id d
  /\ _initialized d' = _initialized d
  /\ _current_page d' = _current_page d
  /\ exists es, effects d' = effects d ++ es /\ Forall touch_signal es.

(** What the steps of [poll] on the queue leave alone. *)
Definition kept (d d' : NexDevice) : Prop :=
  transport d' = transport d /\ _current_page d' = _current_page d
  /\ _initialized d' = _initialized d
  /\ length (pages d') = length (pages d).

(** A run of bytes that holds no terminator, and a frame that holds one
    terminator, at its end. *)
Definition no_end (l : bytes) : Prop :=
  forall i, (i + 3 <= length l)%nat -> slice l i (i + 3) <> S_END_OF_CMD.

Definition ends_once (f : bytes) : Prop :=
  exists body,
    f = body ++ S_END_OF_CMD
    /\ forall i, (i < length body)%nat -> slice f i (i + 3) <> S_END_OF_CMD.

(** [n] calls of [read_next] in a row, and what they return. *)
Fixpoint read_many (n : nat) : M AbstractSerialNex (list bytes) :=
  match n with
  | O => ret []
  | S n' =>
      (data <- AbstractSerialNex_read_next ;;
       more <- read_many n' ;;
       ret (data :: more))%m
  end.

(** What slots add to the effects: signals of widgets and pages, and the
    exception of a slot that fails. *)
Definition slot_effect (e : Effect) : Prop :=
  match e with
  | value_changed _ _ _ | command_failed _ _ _ | fatal _ => True
  | _ => False
  end.

(** The pages after the slots of a command have run: a page command that
    succeeds ends the switch of its page. *)
Definition after_slots (c : CommandBase) (s : Signal) (ps : list Page)
  : list Page :=
  match s, slots c, cls c with
  | sig_successful, PageSlots ref, PageCommand =>
      match nth_error ps ref with
      | Some p => set_nth ref (set_switching p false) ps
      | None => ps
      end
  | _, _, _ => ps
  end.

(** A command whose slots cannot fail: it has none, or those of a page. *)
Definition sure (c : CommandBase) : Prop :=
  match slots c with
  | WidgetSlots _ _ => False
  | _ => True
  end.

(** What emitting the signal [s] of the command [c] changes: the pages as
    [after_slots] says, the property caches, and the effects, by the
    signal followed by signals of widgets and pages. *)
Definition signalled (c : CommandBase) (s : Signal) (d d' : NexDevice)
  : Prop :=
  transport d' = transport d
  /\ _initialized d' = _initialized d
  /\ _current_page d' = _current_page d
  /\ _pages_by_name d' = _pages_by_name d
  /\ _pages_by_id d' = _pages_by_id d
  /\ _commands d' = _commands d
  /\ pages d' = after_slots c s (pages d)
  /\ exists es,
       effects d' = effects d ++ signal_effect s (command c) :: es
       /\ Forall slot_effect es.

(** What a slot of a widget changes: the caches and the effects. *)
Definition cached (d d' : NexDevice) : Prop :=
  exists m es,
    d' = set_effects (set_properties_cache d m) (effects d ++ es)
    /\ Forall slot_effect es.

(** What the slot [_on_command_failed] emits for a command. *)
Definition failure_relay (c : CommandBase) : list Effect :=
  match slots c with
  | NoSlots => []
  | PageSlots page => [command_failed page None (command c)]
  | WidgetSlots page w =>
      [command_failed page (Some (w_name w)) (command c)]
  end.

(** The signal that a final event makes a command emit. *)
Definition final_signal (e : event) : Signal :=
  if isinstance e [CommandSucceeded] then sig_successful else sig_failed.

(** *** The script of [init] with the answers of the display *)

(** The answer to a command: its signal [successful] or [failed]. *)
Definition answer (cmd : bytes) (ok : bool) : Effect :=
  if ok then successful cmd else failed cmd.

(** An exchange: a command is written, then answered; a script of
    exchanges. *)
Definition exchange (x : bytes * bool) : list Effect :=
  [Written (fst x); answer (fst x) (snd x)].

Definition exchanges (l : list (bytes * bool)) : list Effect :=
  flat_map exchange l.

(** What the session did about commands: what it wrote and the signals of
    commands it emitted, in order. *)
Definition command_effect (e : Effect) : bool :=
  match e with
  | Written _ | successful _ | failed _ => true
  | _ => false
  end.

Definition record (l : list Effect) : list Effect := filter command_effect l.





(** The signal of an answer. *)
Definition answer_signal (ok : bool) : Signal :=
  if ok then sig_successful else sig_failed.


Fixpoint pages_after (q : list CommandBase) (oks : list bool)
  (ps : list Page) : list Page :=
  match q, oks with
  | c :: q', ok :: oks' =>
      pages_after q' oks' (after_slots c (answer_signal ok) ps)
  | _, _ => ps
  end.


(** A command that bears the slots of a widget. *)
Definition of_widget (c : CommandBase) : Prop :=
  match slots c with
  | WidgetSlots _ _ => True
  | _ => False
  end.

(** *** Sample data *)


Definition ascii_bytes (s : string) : bytes :=
  map byte_of_ascii (list_ascii_of_string s).

Definition frame_succeeded : bytes := [x01; xff; xff; xff].
Definition frame_launched : bytes := [x88; xff; xff; xff].
Definition frame_invalid_variable : bytes := [x1a; xff; xff; xff].

(** The four characters of the value ["Hi"] with its quotes. *)
Definition quoted_Hi : str := 34%N :: lit "Hi" ++ [34%N].

Definition sample_command (k : CommandClass) (st : Status) (s : string)
  : CommandBase :=
  {| cls := k; status := st; command := ascii_bytes s ++ S_END_OF_CMD;
     data_event := None; property_name := None; new_value := None;
     slots := NoSlots |}.

(** The slider n0 of the page of index 0, and its command "get n0.val"
    in flight. *)
Definition sample_n0 : NexWidget :=
  {| w_class := NexSlider; w_name := lit "n0"; w_pid := Some 0%Z;
     w_cid := Some 3%Z |}.

Definition sample_get_sent : CommandBase :=
  {| cls := GetPropertyCommand; status := SENT;
     command := ascii_bytes "get n0.val" ++ S_END_OF_CMD;
     data_event := None; property_name := Some (lit "val");
     new_value := None; slots := WidgetSlots 0 sample_n0 |}.

Definition number_1 : event := mkNumberHeadEvent 113 1 1.
Definition number_2 : event := mkNumberHeadEvent 113 2 2.

Definition sample_transport (frames : list bytes) : Transport :=
  {| rx := [frames]; stale := [] |}.

Definition sample_device (q : list CommandBase) (frames : list bytes)
  : NexDevice :=
  set_commands (NexDevice_init (sample_transport frames)) q.

Definition sample_button (nm : string) (c : Z) : NexWidget :=
  {| w_class := NexButton; w_name := lit nm; w_pid := Some 0%Z;
     w_cid := Some c |}.

(** A page that holds the button b0 with the ID 1. *)
Definition sample_page : Page :=
  {| name := lit "main"; pid := Some 0%Z;
     D_WIDGETS_BY_NAME := [(lit "b0", sample_button "b0" 1)];
     D_WIDGETS_BY_CID := [(1%Z, sample_button "b0" 1)];
     _page_switch_in_progress := false |}.

(** Three commands A, B, C, and a session that enqueues A, polls,
    enqueues B and C, and polls twice; the device answers A with
    "succeeded" between the first two polls. *)
Definition cmd_A : CommandBase := sample_command Command CREATED "A".
Definition cmd_B : CommandBase := sample_command Command CREATED "B".
Definition cmd_C : CommandBase := sample_command Command CREATED "C".

Definition sample_session : NexDevice :=
  NexDevice_init {| rx := [[]; [frame_succeeded]; []]; stale := [] |}.

Definition sample_actions : list action :=
  [Enqueue cmd_A; Poll 4; Enqueue cmd_B; Enqueue cmd_C; Poll 4; Poll 4].


(** A device with the pages "aux" (ID 1) and "main" (ID 0), hooked in
    this order, the text t0 on "main"; the device answers every command
    with "succeeded", and the "get" with a string first. *)
Definition sample_registry : NexDevice :=
  {| transport :=
       {| rx := [ []; [frame_succeeded]; []; [frame_succeeded]; [];
                  [frame_succeeded]; [];
                  [[x70; x41; xff; xff; xff]; frame_succeeded]; [];
                  [frame_succeeded] ];
          stale := [[x00]] |};
     _initialized := false; _current_page := None;
     pages :=
       [ {| name := lit "aux"; pid := Some 1%Z; D_WIDGETS_BY_NAME := [];
            D_WIDGETS_BY_CID := []; _page_switch_in_progress := false |};
         {| name := lit "main"; pid := Some 0%Z;
            D_WIDGETS_BY_NAME :=
              [(lit "t0", {| w_class := NexText; w_name := lit "t0";
                             w_pid := Some 0%Z; w_cid := Some 1%Z |})];
            D_WIDGETS_BY_CID :=
              [(1%Z, {| w_class := NexText; w_name := lit "t0";
                        w_pid := Some 0%Z; w_cid := Some 1%Z |})];
            _page_switch_in_progress := false |} ];
     _pages_by_name := [(lit "aux", 0%nat); (lit "main", 1%nat)];
     _pages_by_id := [(1%Z, 0%nat); (0%Z, 1%nat)];
     _commands := []; _properties_cache := []; effects := [] |}.

(** The same device when the display answers the first selection of the
    page "main" with "launched" instead of "succeeded". *)
Definition sample_registry_refused : NexDevice :=
  set_transport sample_registry
    {| rx := [ []; [frame_succeeded]; []; [frame_succeeded]; [];
               [frame_launched]; []; [frame_succeeded] ];
       stale := [] |}.

(** The same device without the page "main": no page has the ID 0. *)
Definition sample_registry_no_home : NexDevice :=
  {| transport :=
       {| rx := [ []; [frame_succeeded]; []; [frame_succeeded] ];
          stale := [] |};
     _initialized := false; _current_page := None;
     pages :=
       [ {| name := lit "aux"; pid := Some 1%Z; D_WIDGETS_BY_NAME := [];
            D_WIDGETS_BY_CID := []; _page_switch_in_progress := false |} ];
     _pages_by_name := [(lit "aux", 0%nat)];
     _pages_by_id := [(1%Z, 0%nat)];
     _commands := []; _properties_cache := []; effects := [] |}.


(** A device with the page "main" (ID 0) that holds the picture p0 with
    the ID 2; the display reports a press on p0, then answers a
    command. *)
Definition sample_picture : NexWidget :=
  {| w_class := NexPicture; w_name := lit "p0"; w_pid := Some 0%Z;
     w_cid := Some 2%Z |}.

Definition sample_gallery : NexDevice :=
  {| transport :=
       {| rx := [[[x65; x00; x02; x01; xff; xff; xff]; frame_succeeded]];
          stale := [] |};
     _initialized := true; _current_page := Some 0%nat;
     pages :=
       [ {| name := lit "main"; pid := Some 0%Z;
            D_WIDGETS_BY_NAME := [(lit "p0", sample_picture)];
            D_WIDGETS_BY_CID := [(2%Z, sample_picture)];
            _page_switch_in_progress := false |} ];
     _pages_by_name := [(lit "main", 0%nat)];
     _pages_by_id := [(0%Z, 0%nat)];
     _commands := [sample_command Command SENT "A"];
     _properties_cache := []; effects := [] |}.

(** The same device when the answer to the command comes before the
    press on p0. *)
Definition sample_gallery_answered : NexDevice :=
  set_transport sample_gallery
    {| rx := [[frame_succeeded; [x65; x00; x02; x01; xff; xff; xff]]];
       stale := [] |}.

(** A transport whose port has received a number frame and all but the
    last byte of a success frame; that byte and the start of a touch frame
    are still to come. *)
Definition sample_serial : AbstractSerialNex :=
  AbstractSerialNex_init
    {| pending := [x71; x2a; x00; x00; x00; xff; xff; xff; x01; xff; xff];
       coming := [xff; x65; x00] |}.

(* ================================================================== *)
(** * Properties *)

Unset Implicit Arguments.

(** ** Basic facts *)

Lemma list_eqb_eq {A} (eqb : A -> A -> bool)
  (eqb_ok : forall a b, eqb a b = true <-> a = b) :
  forall l1 l2, list_eqb eqb l1 l2 = true <-> l1 = l2.
Proof.
  induction l1 as [|a l1 IH]; destruct l2 as [|b l2]; simpl;
    try (split; congruence).
  rewrite andb_true_iff, eqb_ok, IH. split.
  - intros [-> ->]. reflexivity.
  - intros H. injection H. auto.
Qed.

Lemma bytes_eqb_eq (a b : bytes) : bytes_eqb a b = true <-> a = b.
Proof.
  apply list_eqb_eq. intros x y. split.
  - apply Byte.byte_dec_bl.
  - apply Byte.byte_dec_lb.
Qed.

Lemma str_eqb_eq (a b : str) : str_eqb a b = true <-> a = b.
Proof. apply list_eqb_eq. intros x y. apply N.eqb_eq. Qed.

Lemma res_bind_Ret {A B} (r : res A) (k : A -> res B) (b : B) :
  res_bind r k = Ret b -> exists a, r = Ret a /\ k a = Ret b.
Proof. destruct r; simpl; intros H; try discriminate. eauto. Qed.

(** latin1 is transparent: the bytes are the code points. *)
Lemma latin1_text (s : str) (b : bytes) : latin1 s = Ret b -> text b = s.
Proof.
  revert b. induction s as [|c s IH]; simpl; intros b H.
  - injection H as <-. reflexivity.
  - destruct (Byte.of_N c) as [x|] eqn:Hc; [|discriminate].
    apply res_bind_Ret in H. destruct H as (bs & Hbs & H).
    injection H as <-. simpl. rewrite (IH _ Hbs).
    f_equal. apply Byte.to_of_N. exact Hc.
Qed.

(** ** The frame parser *)

(** C8: parsing the empty byte string returns the Empty event, whose
    [isempty] is true and whose [issuccess] is false; nothing is raised. *)
Theorem parse_empty (rc : ReturnCodes) :
  MsgEvent_parse rc [] = Ret mkEmptyMessage
  /\ isempty mkEmptyMessage = true
  /\ issuccess mkEmptyMessage = false.
Proof. repeat split. Qed.

Lemma Return_Code_INVALID_CMD (rc : ReturnCodes) :
  Return_Code rc (INVALID_CMD rc) = Ret (INVALID_CMD rc).
Proof.
  unfold Return_Code, Code_values. simpl. rewrite N.eqb_refl. reflexivity.
Qed.

(** C7: the 6-byte frame 00 00 00 FF FF FF parses to Startup; any other
    frame that starts with the invalid-command code, this code not being a
    key of the dispatch table, raises the protocol error of that code. *)
Theorem startup_or_fault (rc : ReturnCodes)
  (Hzero : INVALID_CMD rc = 0%N)
  (Hkey : D_BYTE0_EVENT_get rc (INVALID_CMD rc) = None) :
  MsgEvent_parse rc startup_frame = Ret mkEventStartup
  /\ forall b rest,
       Byte.to_N b = INVALID_CMD rc ->
       b :: rest <> startup_frame ->
       MsgEvent_parse rc (b :: rest)
       = Raise (NexMessageException (INVALID_CMD rc)).
Proof.
  split.
  - unfold MsgEvent_parse, startup_frame. simpl Byte.to_N.
    rewrite <- Hzero, Hkey, Return_Code_INVALID_CMD. simpl.
    rewrite N.eqb_refl. reflexivity.
  - intros b rest Hb Hne. unfold MsgEvent_parse.
    rewrite Hb, Hkey, Return_Code_INVALID_CMD. simpl res_bind.
    rewrite N.eqb_refl.
    destruct (bytes_eqb (b :: rest) startup_frame) eqn:E.
    + apply bytes_eqb_eq in E. contradiction.
    + reflexivity.
Qed.

Lemma startup_or_fault_witness :
  MsgEvent_parse nextion startup_frame = Ret mkEventStartup
  /\ MsgEvent_parse nextion [x00; xff; xff; xff]
     = Raise (NexMessageException 0).
Proof.
  destruct (startup_or_fault nextion eq_refl eq_refl) as [H1 H2].
  split; [exact H1|].
  apply (H2 x00 [xff; xff; xff] eq_refl). discriminate.
Defined.

(** *** Frames of fixed length *)

Section FixedLength.

Variable rc : ReturnCodes.





Lemma ensure_has_expected_first_byte_Ret (k : EventClass) (code : N) :
  ensure_has_expected_first_byte rc k code = Ret tt ->
  FIRST_BYTE rc k = Some code.
Proof.
  unfold ensure_has_expected_first_byte.
  destruct (FIRST_BYTE rc k) as [f|].
  - destruct (N.eqb_spec code f) as [->|]; [reflexivity|].
    simpl. destruct (Code_is_int rc); discriminate.
  - discriminate.
Qed.

Lemma parse_head_Ret (k : EventClass) (msg : bytes) (code : N) :
  parse_head rc k msg = Ret code ->
  has_end msg = true
  /\ (forall n, EXPECTED_LENGTH k = Some n -> length msg = n)
  /\ (exists b rest, msg = b :: rest /\ code = Byte.to_N b)
  /\ FIRST_BYTE rc k = Some code.
Proof.
  unfold parse_head, ensure_has_end, ensure_has_expected_length.
  destruct (has_end msg); [simpl|discriminate].
  intros H. split; [reflexivity|].
  assert (Hrest : (b0 <- getitem msg 0 ;;
                   code <- Return_Code rc b0 ;;
                   _ <- ensure_has_expected_first_byte rc k code ;;
                   Ret code)%res = Ret code ->
                  (exists b rest, msg = b :: rest /\ code = Byte.to_N b)
                  /\ FIRST_BYTE rc k = Some code).
  { clear H. intros H. destruct msg as [|b rest]; [discriminate|].
    simpl in H. unfold Return_Code in H.
    destruct (existsb _ _); [simpl in H|discriminate].
    destruct (ensure_has_expected_first_byte rc k (Byte.to_N b))
      as [[]| |] eqn:Hf; try discriminate.
    simpl in H. injection H as <-.
    split; [eauto|]. apply ensure_has_expected_first_byte_Ret. exact Hf. }
  destruct (EXPECTED_LENGTH k) as [m|] eqn:Hm.
  - destruct (Nat.eqb_spec (length msg) m) as [Hl|]; [simpl in H|discriminate].
    split; [intros n Hn; congruence|]. apply Hrest. exact H.
  - simpl in H. split; [intros n Hn; discriminate|]. apply Hrest. exact H.
Qed.

(** Every [parse] classmethod is its head followed by the extraction of
    the fields, which yields an event of the class. *)
Lemma parse_as_head (k : EventClass) :
  fixed_length k = true ->
  exists body : bytes -> N -> res event,
    (forall msg, parse_as rc k msg
                 = res_bind (parse_head rc k msg) (body msg))
    /\ (forall msg code e, body msg code = Ret e -> class_of e = k).
Proof.
  destruct k; intros Hk; try discriminate.
  - exists (fun msg code =>
      (pid <- getitem msg 1 ;; cid <- getitem msg 2 ;;
       b3 <- getitem msg 3 ;; tevts <- Event_Touch b3 ;;
       Ret (mkTouchEvent code pid cid tevts))%res).
    split; [reflexivity|]. intros msg code e H.
    repeat (apply res_bind_Ret in H; destruct H as (? & _ & H)).
    injection H as <-. reflexivity.
  - exists (fun msg code =>
      (pid <- getitem msg 1 ;;
       Ret (mkCurrentPageIDHeadEvent code pid))%res).
    split; [reflexivity|]. intros msg code e H.
    repeat (apply res_bind_Ret in H; destruct H as (? & _ & H)).
    injection H as <-. reflexivity.
  - exists (fun msg code =>
      (b1 <- getitem msg 1 ;; b2 <- getitem msg 2 ;;
       b3 <- getitem msg 3 ;; b4 <- getitem msg 4 ;;
       b5 <- getitem msg 5 ;; tevts <- Event_Touch b5 ;;
       Ret (mkPositionHeadEvent code (N.shiftl b1 8 + b2)
              (N.shiftl b3 8 + b4) tevts))%res).
    split; [reflexivity|]. intros msg code e H.
    repeat (apply res_bind_Ret in H; destruct H as (? & _ & H)).
    injection H as <-. reflexivity.
  - exists (fun msg code =>
      (b1 <- getitem msg 1 ;; b2 <- getitem msg 2 ;;
       b3 <- getitem msg 3 ;; b4 <- getitem msg 4 ;;
       b5 <- getitem msg 5 ;; tevts <- Event_Touch b5 ;;
       Ret (mkSleepPositionHeadEvent code (N.shiftl b1 8 + b2)
              (N.shiftl b3 8 + b4) tevts))%res).
    split; [reflexivity|]. intros msg code e H.
    repeat (apply res_bind_Ret in H; destruct H as (? & _ & H)).
    injection H as <-. reflexivity.
  - exists (fun msg code =>
      (b1 <- getitem msg 1 ;; b2 <- getitem msg 2 ;;
       b3 <- getitem msg 3 ;; b4 <- getitem msg 4 ;;
       Ret (mkNumberHeadEvent code
              (b1 + N.shiftl b2 8 + N.shiftl b3 16 + N.shiftl b4 24)
              (c_int32 (Z.of_N
                 (b1 + N.shiftl b2 8 + N.shiftl b3 16 + N.shiftl b4 24)))))%res).
    split; [reflexivity|]. intros msg code e H.
    repeat (apply res_bind_Ret in H; destruct H as (? & _ & H)).
    injection H as <-. reflexivity.
  - exists (fun _ _ => Ret mkCommandSucceeded).
    split; [reflexivity|]. intros msg code e H.
    injection H as <-. reflexivity.
  - exists (fun _ _ => Ret mkEventLaunched).
    split; [reflexivity|]. intros msg code e H.
    injection H as <-. reflexivity.
Qed.


End FixedLength.



(** ** Commands *)

(** C4: the "set" command for object t0, property txt and the value
    ["Hi"], quotes included, is the text t0.txt="Hi" followed by
    FF FF FF, one byte per character. *)
Theorem set_txt_Hi :
  exists c,
    new_SetPropertyCommand (lit "t0") (lit "txt") (VStr quoted_Hi) = Ret c
    /\ command c
       = [x74; x30; x2e; x74; x78; x74; x3d; x22; x48; x69; x22;
          xff; xff; xff]
    /\ text (command c)
       = lit "t0.txt=" ++ quoted_Hi ++ [255; 255; 255]%N.
Proof. eexists. repeat split. Qed.

(** The quotes are characters of the value: the command adds none. *)
Lemma set_txt_adds_no_quotes :
  res_bind (new_SetPropertyCommand (lit "t0") (lit "txt") (VStr (lit "Hi")))
           (fun c => Ret (command c))
  = Ret [x74; x30; x2e; x74; x78; x74; x3d; x48; x69; xff; xff; xff].
Proof. reflexivity. Qed.

Lemma CommandBase_init_Ret (k : CommandClass) (cmd : str)
  (params : list value) (c : CommandBase) :
  CommandBase_init k cmd params = Ret c ->
  cls c = k /\ status c = CREATED /\ data_event c = None.
Proof.
  unfold CommandBase_init. intros H. apply res_bind_Ret in H.
  destruct H as (data & _ & H). injection H as <-. repeat split.
Qed.

Lemma new_GetPropertyCommand_Ret (oid nm : str) (c : CommandBase) :
  new_GetPropertyCommand oid nm = Ret c ->
  cls c = GetPropertyCommand /\ status c = CREATED /\ data_event c = None.
Proof.
  unfold new_GetPropertyCommand. intros H. apply res_bind_Ret in H.
  destruct H as (c0 & H0 & H). apply CommandBase_init_Ret in H0.
  injection H as <-. exact H0.
Qed.

Lemma feed_events_data (c : CommandBase) (es : list event) (e : event) :
  cls c = GetPropertyCommand -> Forall is_data (es ++ [e]) ->
  feed_events c (es ++ [e]) = set_data_event c (Some e).
Proof.
  intros Hk. revert c Hk. induction es as [|x es IH]; intros c Hk Hes.
  - inversion Hes as [|? ? He _]; subst. unfold feed_events. simpl.
    unfold CommandBase_event. rewrite Hk. cbn [DATA_EVENT_CLASSES].
    unfold is_data in He. rewrite He. reflexivity.
  - inversion Hes as [|? ? Hx Hrest]; subst.
    change (feed_events c ((x :: es) ++ [e]))
      with (feed_events (fst (CommandBase_event c x)) (es ++ [e])).
    assert (Hcx : fst (CommandBase_event c x) = set_data_event c (Some x)).
    { unfold CommandBase_event. rewrite Hk. cbn [DATA_EVENT_CLASSES].
      unfold is_data in Hx. rewrite Hx. reflexivity. }
    rewrite Hcx, IH; [reflexivity|exact Hk|exact Hrest].
Qed.

(** C3: a get-property command is CREATED when made and SENT after
    [send].  A get-property command that is SENT, whatever else it holds,
    and is fed StringValue or NumberValue events, one or more, stores each
    of them as its data event in turn, stays SENT and reports no
    completion; it then holds the last one.  After that CommandSucceeded
    makes it SUCCESSFUL, and an event that is neither CommandSucceeded nor
    a StringValue or NumberValue makes it ERROR; both are reported as
    completions and leave the last data event in place. *)
Theorem get_property_lifecycle (c : CommandBase) (es : list event)
  (e : event)
  (Hk : cls c = GetPropertyCommand)
  (Hs : status c = SENT)
  (Hes : Forall is_data (es ++ [e])) :
  (forall oid nm c0 d,
     new_GetPropertyCommand oid nm = Ret c0 ->
     cls c0 = GetPropertyCommand /\ status c0 = CREATED
     /\ data_event c0 = None
     /\ exists d', send c0 d = (Ret (set_status c0 SENT), d')
                   /\ cls (set_status c0 SENT) = GetPropertyCommand
                   /\ status (set_status c0 SENT) = SENT)
  /\ CommandBase_event (feed_events c es) e
     = (set_data_event c (Some e), None)
  /\ feed_events c (es ++ [e]) = set_data_event c (Some e)
  /\ status (set_data_event c (Some e)) = SENT
  /\ data_event (set_data_event c (Some e)) = Some e
  /\ completed (set_data_event c (Some e)) = false
  /\ (forall f,
        isinstance f [CommandSucceeded] = true ->
        let r := CommandBase_event (set_data_event c (Some e)) f in
        r = (set_status (set_data_event c (Some e)) SUCCESSFUL,
             Some sig_successful)
        /\ status (fst r) = SUCCESSFUL /\ data_event (fst r) = Some e
        /\ completed (fst r) = true)
  /\ (forall f,
        isinstance f [CommandSucceeded] = false ->
        isinstance f [StringHeadEvent; NumberHeadEvent] = false ->
        let r := CommandBase_event (set_data_event c (Some e)) f in
        r = (set_status (set_data_event c (Some e)) ERROR, Some sig_failed)
        /\ status (fst r) = ERROR /\ data_event (fst r) = Some e
        /\ completed (fst r) = true).
Proof.
  assert (He : is_data e).
  { apply Forall_app in Hes. destruct Hes as [_ He].
    inversion He; assumption. }
  assert (Hdata : forall f, isinstance f [CommandSucceeded] = true ->
            isinstance f [StringHeadEvent; NumberHeadEvent] = false).
  { intros f. destruct f; simpl; intros H; try discriminate; reflexivity. }
  split; [|split; [|split; [|split; [|split; [|split; [|split]]]]]].
  - intros oid nm c0 d Hnew.
    apply new_GetPropertyCommand_Ret in Hnew.
    destruct Hnew as (Hk0 & Hs0 & Hd0).
    split; [exact Hk0|]. split; [exact Hs0|]. split; [exact Hd0|].
    eexists. split; [reflexivity|]. split; [exact Hk0|reflexivity].
  - assert (Hc : exists x, feed_events c es = set_data_event c x).
    { destruct es as [|x es'] using rev_ind.
      - exists (data_event c). destruct c; reflexivity.
      - exists (Some x). apply feed_events_data; [exact Hk|].
        apply Forall_app in Hes. tauto. }
    destruct Hc as [x ->]. unfold CommandBase_event. simpl cls.
    rewrite Hk. cbn [DATA_EVENT_CLASSES]. unfold is_data in He.
    rewrite He. reflexivity.
  - apply feed_events_data; assumption.
  - exact Hs.
  - reflexivity.
  - unfold completed. simpl status. rewrite Hs. reflexivity.
  - intros f Hf. unfold CommandBase_event. simpl cls. rewrite Hk.
    cbn [DATA_EVENT_CLASSES]. rewrite (Hdata f Hf), Hf. repeat split.
  - intros f Hf Hg. unfold CommandBase_event. simpl cls. rewrite Hk.
    cbn [DATA_EVENT_CLASSES]. rewrite Hg, Hf. repeat split.
Qed.

Lemma get_property_lifecycle_witness :
  feed_events sample_get_sent [number_1; number_2]
  = set_data_event sample_get_sent (Some number_2)
  /\ status (set_data_event sample_get_sent (Some number_2)) = SENT
  /\ status (fst (CommandBase_event
                    (set_data_event sample_get_sent (Some number_2))
                    mkCommandSucceeded)) = SUCCESSFUL
  /\ status (fst (CommandBase_event
                    (set_data_event sample_get_sent (Some number_2))
                    mkEventLaunched)) = ERROR
  /\ data_event (fst (CommandBase_event
                        (set_data_event sample_get_sent (Some number_2))
                        mkEventLaunched)) = Some number_2.
Proof.
  assert (Hes : Forall is_data ([number_1] ++ [number_2]))
    by (repeat constructor).
  destruct (get_property_lifecycle sample_get_sent [number_1] number_2
              eq_refl eq_refl Hes)
    as (_ & _ & H3 & H4 & _ & _ & H7 & H8).
  split; [exact H3|]. split; [exact H4|].
  destruct (H7 mkCommandSucceeded eq_refl) as (_ & H7s & _).
  destruct (H8 mkEventLaunched eq_refl eq_refl) as (_ & H8s & H8d & _).
  split; [exact H7s|]. split; [exact H8s|exact H8d].
Defined.

(** ** The registry *)

Lemma set_nth_same {A} (l : list A) (n : nat) (a : A) :
  nth_error l n = Some a -> set_nth n a l = l.
Proof.
  revert n. induction l as [|x l IH]; intros [|n] H; simpl in *;
    try discriminate.
  - injection H as ->. reflexivity.
  - unfold set_nth in *. simpl. f_equal. apply IH. exact H.
Qed.

Lemma set_pages_same (d : NexDevice) : set_pages d (pages d) = d.
Proof. destruct d. reflexivity. Qed.

Lemma hook_widget_Raise (typ nm : str) (cid : option Z) (p : Page) (e : exn) :
  fst (hook_widget typ nm cid p) = Raise e ->
  hook_widget typ nm cid p = (Raise e, p).
Proof.
  unfold hook_widget.
  destruct (dict_mem str_eqb (D_WIDGETS_BY_NAME p) nm);
    [simpl; intros ->; reflexivity|].
  destruct (opt_mem (D_WIDGETS_BY_CID p) cid);
    [simpl; intros ->; reflexivity|].
  destruct (WidgetFactory_create typ nm (pid p) cid); simpl;
    intros H; try discriminate.
  rewrite H. reflexivity.
Qed.

(** C9, as the code has it: hooking a page whose name exists raises the
    name error; hooking a widget whose name exists on the page raises the
    name error, whatever its ID; hooking a widget with a new name and an ID
    that exists on the page raises the ID error; and whenever hooking
    raises, the page and the whole device are as before. *)
Theorem hook_uniqueness :
  (forall d nm page_id,
     dict_mem str_eqb (_pages_by_name d) nm = true ->
     hook_page nm page_id d = (Raise NexComponentNameException, d))
  /\ (forall p typ nm cid,
        dict_mem str_eqb (D_WIDGETS_BY_NAME p) nm = true ->
        hook_widget typ nm cid p = (Raise NexComponentNameException, p))
  /\ (forall p typ nm cid,
        dict_mem str_eqb (D_WIDGETS_BY_NAME p) nm = false ->
        dict_mem Z.eqb (D_WIDGETS_BY_CID p) cid = true ->
        hook_widget typ nm (Some cid) p = (Raise NexComponentIdException, p))
  /\ (forall d ref p typ nm cid e,
        nth_error (pages d) ref = Some p ->
        fst (hook_widget typ nm cid p) = Raise e ->
        on_page ref (hook_widget typ nm cid) d = (Raise e, d)).
Proof.
  repeat split.
  - intros d nm page_id H. unfold hook_page. rewrite H. reflexivity.
  - intros p typ nm cid H. unfold hook_widget. rewrite H. reflexivity.
  - intros p typ nm cid Hn Hc. unfold hook_widget. rewrite Hn.
    simpl opt_mem. rewrite Hc. reflexivity.
  - intros d ref p typ nm cid e Hp He. unfold on_page. rewrite Hp.
    rewrite (hook_widget_Raise _ _ _ _ _ He).
    rewrite (set_nth_same _ _ _ Hp), set_pages_same. reflexivity.
Qed.

Lemma hook_uniqueness_witness :
  hook_widget (lit "button") (lit "b1") (Some 1%Z) sample_page
  = (Raise NexComponentIdException, sample_page)
  /\ hook_widget (lit "button") (lit "b0") (Some 2%Z) sample_page
     = (Raise NexComponentNameException, sample_page).
Proof.
  destruct hook_uniqueness as (_ & Hname & Hid & _).
  split.
  - apply Hid; reflexivity.
  - apply Hname; reflexivity.
Defined.

(** C9, the claim as stated fails: a widget hooked with an ID that exists
    on the page, and with a name that exists too, raises the name error,
    not the ID error. *)
Lemma hook_uniqueness_counterexample :
  dict_mem Z.eqb (D_WIDGETS_BY_CID sample_page) 1%Z = true
  /\ fst (hook_widget (lit "button") (lit "b0") (Some 1%Z) sample_page)
     = Raise NexComponentNameException
  /\ fst (hook_widget (lit "button") (lit "b0") (Some 1%Z) sample_page)
     <> Raise NexComponentIdException.
Proof. repeat split. discriminate. Qed.

(** ** The scan of the queue *)

Section Scan.

Definition not_sent (c : CommandBase) : Prop := status c <> SENT.

(** With commands in the queue and none of them SENT, the scan turns the
    queue round and round: whatever the fuel, it is cut. *)
Lemma scan_starves (fuel : nat) (e : event) :
  forall d,
    _commands d <> [] -> Forall not_sent (_commands d) ->
    exists d', scan fuel e d = (Timeout, d').
Proof.
  induction fuel as [|fuel IH]; intros d Hne Hall.
  - destruct (_commands d) as [|c older] eqn:Hq; [congruence|].
    simpl. rewrite Hq. eauto.
  - destruct (_commands d) as [|c older] eqn:Hq; [congruence|].
    simpl. rewrite Hq.
    assert (Hrot : exists d1,
               scan fuel e (set_commands d (rotate (c :: older)))
               = (Timeout, d1)).
    { apply IH; simpl.
      - destruct older; discriminate.
      - inversion Hall; subst. apply Forall_app. split; auto. }
    inversion Hall as [|? ? Hc Hold]; subst.
    destruct (status c) eqn:Hs; try exact Hrot.
    exfalso. apply Hc. exact Hs.
Qed.

(** With a SENT command in the queue, the scan reaches the first one from
    the right after turning the queue once for every command before it, and
    feeds it the event: a turn of the loop for each command at most. *)
Lemma scan_finds_sent (e : event) (c : CommandBase)
  (younger : list CommandBase) :
  status c = SENT ->
  forall (before : list CommandBase) (fuel : nat) (d : NexDevice),
    Forall not_sent before ->
    _commands d = before ++ c :: younger ->
    (length before < fuel)%nat ->
    scan fuel e d
    = feed c (younger ++ before) e
        (set_commands d (c :: younger ++ before)).
Proof.
  intros Hc before. revert younger.
  induction before as [|b before IH]; intros younger fuel d Hall Hq Hf.
  - destruct fuel as [|fuel]; [inversion Hf|].
    simpl in Hq. simpl. rewrite Hq, Hc, app_nil_r.
    replace (set_commands d (c :: younger)) with d; [reflexivity|].
    destruct d; simpl in *; subst; reflexivity.
  - destruct fuel as [|fuel]; [inversion Hf|].
    simpl in Hq. simpl scan. rewrite Hq.
    inversion Hall as [|? ? Hb Hrest]; subst.
    assert (Hstep : scan fuel e
                      (set_commands d (rotate (b :: before ++ c :: younger)))
                    = feed c ((younger ++ [b]) ++ before) e
                        (set_commands d (c :: (younger ++ [b]) ++ before))).
    { rewrite (IH (younger ++ [b]) fuel
                 (set_commands d (rotate (b :: before ++ c :: younger)))
                 Hrest).
      - reflexivity.
      - simpl. rewrite <- app_assoc. reflexivity.
      - simpl in Hf. lia. }
    rewrite <- !app_assoc in Hstep. simpl in Hstep.
    destruct (status b) eqn:Hs; try exact Hstep.
    exfalso. apply Hb. exact Hs.
Qed.

End Scan.

(** C10: the claim names a single CREATED command and a stray response;
    there the scan of the code never ends, so neither does [poll]. *)
Theorem stray_response_never_leaves_scan :
  forall fuel,
    fst (poll nextion fuel
           (sample_device [sample_command Command CREATED "bkcmd=3"]
                          [frame_launched]))
    = Timeout.
Proof.
  intros fuel. unfold poll, bind.
  change (read_events nextion
            (sample_device [sample_command Command CREATED "bkcmd=3"]
                           [frame_launched]))
    with (Ret [mkEventLaunched],
          set_transport
            (sample_device [sample_command Command CREATED "bkcmd=3"]
                           [frame_launched])
            {| rx := []; stale := [] |}).
  cbv beta iota. unfold for_each, bind, dispatch.
  destruct (scan_starves fuel mkEventLaunched
              (set_transport
                 (sample_device [sample_command Command CREATED "bkcmd=3"]
                                [frame_launched])
                 {| rx := []; stale := [] |})) as [d' Hd'].
  - discriminate.
  - repeat constructor. discriminate.
  - rewrite Hd'. reflexivity.
Qed.

(** ** Fault frames *)

Lemma fault_code_known (rc : ReturnCodes) (c : N) :
  In c (NEX_EXCEPTIONS rc) -> Return_Code rc c = Ret c.
Proof.
  intros H. unfold Return_Code.
  assert (Hin : In c (Code_values rc)).
  { unfold Code_values. apply in_or_app. left.
    unfold NEX_EXCEPTIONS in H. simpl in H. simpl. tauto. }
  assert (Hex : existsb (N.eqb c) (Code_values rc) = true).
  { apply existsb_exists. exists c. split; [exact Hin|apply N.eqb_refl]. }
  rewrite Hex. reflexivity.
Qed.

(** A frame that starts with a fault code outside the dispatch table, and
    is not the startup frame, makes the parser raise. *)
Lemma fault_frame_raises (rc : ReturnCodes) (b : byte) (rest : bytes) :
  In (Byte.to_N b) (NEX_EXCEPTIONS rc) ->
  D_BYTE0_EVENT_get rc (Byte.to_N b) = None ->
  b :: rest <> startup_frame ->
  MsgEvent_parse rc (b :: rest) = Raise (NexMessageException (Byte.to_N b)).
Proof.
  intros Hin Hkey Hne. unfold MsgEvent_parse.
  rewrite Hkey, (fault_code_known rc _ Hin). cbn [res_bind].
  assert (Hs : bytes_eqb (b :: rest) startup_frame = false).
  { destruct (bytes_eqb (b :: rest) startup_frame) eqn:E; [|reflexivity].
    apply bytes_eqb_eq in E. contradiction. }
  rewrite Hs, andb_false_r.
  assert (Hex : existsb (N.eqb (Byte.to_N b)) (NEX_EXCEPTIONS rc) = true).
  { apply existsb_exists. exists (Byte.to_N b).
    split; [exact Hin|apply N.eqb_refl]. }
  rewrite Hex. reflexivity.
Qed.

(** C1: with a get-property command in flight, the frame 1A FF FF FF
    ("invalid variable") makes [poll] raise: the command stays SENT in the
    queue and no signal is emitted. *)
Theorem fault_frame_escapes_poll :
  forall fuel,
    poll nextion fuel (sample_device [sample_get_sent] [frame_invalid_variable])
    = (Raise (NexMessageException 26),
       sample_device [sample_get_sent] []).
Proof. intros fuel. reflexivity. Qed.

(** ** Relations between the states before and after a computation *)

Section Sat.

Variable strict : bool.
Variable R : NexDevice -> NexDevice -> Prop.
Hypothesis R_refl : forall d, R d d.
Hypothesis R_trans : forall d1 d2 d3, R d1 d2 -> R d2 d3 -> R d1 d3.

Lemma sat_ret {A} (a : A) : sat strict R (ret a).
Proof. intros d r d' H _. injection H as _ <-. apply R_refl. Qed.

Lemma sat_raise {A} (e : exn) : sat strict R (@raise NexDevice A e).
Proof. intros d r d' H _. injection H as _ <-. apply R_refl. Qed.

Lemma sat_lift {A} (x : res A) : sat strict R (lift x).
Proof. intros d r d' H _. injection H as _ <-. apply R_refl. Qed.

Lemma sat_get : sat strict R get.
Proof. intros d r d' H _. injection H as _ <-. apply R_refl. Qed.

Lemma sat_modify (f : NexDevice -> NexDevice) :
  (forall d, R d (f d)) -> sat strict R (modify f).
Proof. intros Hf d r d' H _. injection H as _ <-. apply Hf. Qed.

Lemma sat_bind {A B} (m : M NexDevice A) (k : A -> M NexDevice B) :
  sat strict R m -> (forall a, sat strict R (k a)) -> sat strict R (bind m k).
Proof.
  intros Hm Hk d r d' H Hr. unfold bind in H.
  destruct (m d) as [[a|e|] d1] eqn:Em.
  - apply R_trans with d1.
    + apply (Hm d (Ret a) d1 Em). discriminate.
    + apply (Hk a d1 r d' H Hr).
  - injection H as <- <-. apply (Hm d (Raise e) d1 Em). discriminate.
  - injection H as <- <-. apply (Hm d Timeout d1 Em).
    intros Hs Ht. apply (Hr Hs). reflexivity.
Qed.

Lemma sat_for_each {A} (f : A -> M NexDevice unit) (l : list A) :
  (forall a, sat strict R (f a)) -> sat strict R (for_each f l).
Proof.
  intros Hf. induction l as [|a l IH]; simpl.
  - apply sat_ret.
  - apply sat_bind; [apply Hf|intros _; exact IH].
Qed.

End Sat.

(** *** The three relations are preorders *)

Lemma framed_refl (d : NexDevice) : framed d d.
Proof. split; [reflexivity|]. exists []. rewrite app_nil_r. reflexivity. Qed.

Lemma framed_trans (d1 d2 d3 : NexDevice) :
  framed d1 d2 -> framed d2 d3 -> framed d1 d3.
Proof.
  intros [L1 [e1 E1]] [L2 [e2 E2]]. split; [congruence|].
  exists (e1 ++ e2). rewrite E2, E1, app_assoc. reflexivity.
Qed.

Lemma writes_app (a b : list Effect) : writes (a ++ b) = writes a ++ writes b.
Proof. apply flat_map_app. Qed.

Lemma tokens_app (a b : list Effect) : tokens (a ++ b) = tokens a ++ tokens b.
Proof. apply flat_map_app. Qed.

Lemma quiet_refl (d : NexDevice) : quiet d d.
Proof. exists []. rewrite app_nil_r. split; reflexivity. Qed.

Lemma quiet_trans (d1 d2 d3 : NexDevice) :
  quiet d1 d2 -> quiet d2 d3 -> quiet d1 d3.
Proof.
  intros [e1 [E1 W1]] [e2 [E2 W2]]. exists (e1 ++ e2). split.
  - rewrite E2, E1, app_assoc. reflexivity.
  - rewrite writes_app, W1, W2. reflexivity.
Qed.

Lemma steady_refl (d : NexDevice) : steady d d.
Proof. intros H. split; [exact H|reflexivity]. Qed.

Lemma steady_trans (d1 d2 d3 : NexDevice) :
  steady d1 d2 -> steady d2 d3 -> steady d1 d3.
Proof.
  intros H12 H23 H1. destruct (H12 H1) as [H2 E2].
  destruct (H23 H2) as [H3 E3]. split; [exact H3|congruence].
Qed.

(** A step that leaves the queue and the tokens alone is steady. *)
Lemma steady_same (d d' : NexDevice) :
  _commands d' = _commands d ->
  tokens (effects d') = tokens (effects d) ->
  steady d d'.
Proof.
  intros Hq Ht H. unfold sched. rewrite Hq, Ht. split; [exact H|reflexivity].
Qed.

Lemma map_set_nth {A B} (f : A -> B) (l : list A) (n : nat) (a a' : A) :
  nth_error l n = Some a -> f a' = f a -> map f (set_nth n a' l) = map f l.
Proof.
  revert n. induction l as [|x l IH]; intros [|n] H E; simpl in *;
    try discriminate.
  - injection H as ->. unfold set_nth. simpl. congruence.
  - unfold set_nth in *. simpl. f_equal. apply IH; assumption.
Qed.

(** *** What the small steps do *)

Lemma update_switching_layout (ref : nat) (b : bool) (d : NexDevice) :
  layout (match nth_error (pages d) ref with
          | Some p => set_pages d (set_nth ref (set_switching p b) (pages d))
          | None => d
          end) = layout d.
Proof.
  destruct (nth_error (pages d) ref) as [p|] eqn:Hp; [|reflexivity].
  unfold layout. simpl.
  rewrite (map_set_nth (fun p => set_switching p false) _ _ p _ Hp);
    reflexivity.
Qed.

Lemma update_switching_same (ref : nat) (b : bool) (d : NexDevice) :
  let d' := match nth_error (pages d) ref with
            | Some p => set_pages d (set_nth ref (set_switching p b) (pages d))
            | None => d
            end in
  _commands d' = _commands d /\ effects d' = effects d.
Proof. simpl. destruct (nth_error (pages d) ref); split; reflexivity. Qed.

Lemma calm_refl (d : NexDevice) : calm d d.
Proof. split; [apply framed_refl|apply quiet_refl]. Qed.

Lemma calm_trans (d1 d2 d3 : NexDevice) :
  calm d1 d2 -> calm d2 d3 -> calm d1 d3.
Proof.
  intros [F1 Q1] [F2 Q2]. split.
  - apply framed_trans with d2; assumption.
  - apply quiet_trans with d2; assumption.
Qed.

(** A step that changes neither the layout nor the effects is calm. *)
Lemma calm_same (d d' : NexDevice) :
  layout d' = layout d -> effects d' = effects d -> calm d d'.
Proof.
  intros HL HE. split.
  - split; [exact HL|]. exists []. rewrite app_nil_r. exact HE.
  - exists []. rewrite app_nil_r. split; [exact HE|reflexivity].
Qed.

Lemma for_each_skip {A} (f : A -> M NexDevice unit) (l : list A) :
  (forall a d, f a d = (Ret tt, d)) ->
  forall d, for_each f l d = (Ret tt, d).
Proof.
  intros Hf. induction l as [|a l IH]; intros d; simpl.
  - reflexivity.
  - unfold bind. rewrite Hf. apply IH.
Qed.

(** With no refresh variable in any class, refreshing a page enqueues
    nothing. *)
Lemma page_refresh_same (page : nat) (d : NexDevice) (r : res unit)
  (d' : NexDevice) :
  page_refresh page d = (r, d') -> d' = d.
Proof.
  unfold page_refresh, bind, read_page.
  destruct (nth_error (pages d) page) as [p|].
  - destruct (_page_switch_in_progress p).
    + intros H. injection H as _ <-. reflexivity.
    + rewrite for_each_skip.
      * intros H. injection H as _ <-. reflexivity.
      * intros w d0. reflexivity.
  - intros H. injection H as _ <-. reflexivity.
Qed.

Lemma idle_refresh_same (d : NexDevice) (r : res unit) (d' : NexDevice) :
  idle_refresh d = (r, d') -> d' = d.
Proof.
  unfold idle_refresh.
  destruct (_initialized d && is_nil (_commands d)).
  - destruct (_current_page d) as [page|].
    + apply page_refresh_same.
    + intros H. injection H as _ <-. reflexivity.
  - intros H. injection H as _ <-. reflexivity.
Qed.

Lemma read_events_same (rc : ReturnCodes) (d : NexDevice)
  (r : res (list event)) (d' : NexDevice) :
  read_events rc d = (r, d') -> exists t, d' = set_transport d t.
Proof.
  unfold read_events. destruct (rx (transport d)) as [|burst more].
  - intros H. injection H as _ <-. exists (transport d).
    destruct d. reflexivity.
  - destruct (read_loop rc burst more) as [r0 rx'].
    intros H. injection H as _ <-. eauto.
Qed.

(** A touch event emits at most one signal of a widget. *)
Lemma dispatch_touch_spec (page_id cid : N) (pe : Touch) (d : NexDevice)
  (r : res unit) (d' : NexDevice) :
  dispatch_touch page_id cid pe d = (r, d') ->
  d' = d \/ exists page w,
              d' = set_effects d (effects d ++ [pressed page w])
              \/ d' = set_effects d (effects d ++ [released page w]).
Proof.
  unfold dispatch_touch.
  destruct (get_page d (inr (Z.of_N page_id))) as [page| |];
    try (intros H; injection H as _ <-; left; reflexivity).
  destruct (nth_error (pages d) page) as [p|];
    try (intros H; injection H as _ <-; left; reflexivity).
  destruct (dict_get Z.eqb (D_WIDGETS_BY_CID p) (Z.of_N cid)) as [w|];
    try (intros H; injection H as _ <-; left; reflexivity).
  destruct (touchable (w_class w));
    try (intros H; injection H as _ <-; left; reflexivity).
  destruct pe; intros H; injection H as _ <-; right;
    exists page, (w_name w); [left|right]; reflexivity.
Qed.

Lemma slot_effects_quiet (es : list Effect) :
  Forall slot_effect es -> writes es = [] /\ tokens es = [].
Proof.
  induction 1 as [|e es He _ [IHw IHt]]; [split; reflexivity|].
  destruct e; try contradiction; simpl; auto.
Qed.

Lemma after_slots_layout (c : CommandBase) (s : Signal) (ps : list Page) :
  map (fun p => set_switching p false) (after_slots c s ps)
  = map (fun p => set_switching p false) ps
  /\ length (after_slots c s ps) = length ps
  /\ map pid (after_slots c s ps) = map pid ps.
Proof.
  unfold after_slots.
  destruct s; [|repeat split].
  destruct (slots c) as [|ref|ref w]; try (repeat split; fail).
  destruct (cls c); try (repeat split; fail).
  destruct (nth_error ps ref) as [p|] eqn:Hp; [|repeat split].
  split; [|split].
  - apply (map_set_nth _ _ _ p _ Hp). reflexivity.
  - rewrite <- (length_map (fun p => set_switching p false)).
    rewrite (map_set_nth (fun p => set_switching p false) _ _ p _ Hp) by reflexivity.
    apply length_map.
  - apply (map_set_nth _ _ _ p _ Hp). reflexivity.
Qed.

Lemma cached_refl (d : NexDevice) : cached d d.
Proof.
  exists (_properties_cache d), []. split; [|constructor].
  destruct d; simpl. rewrite app_nil_r. reflexivity.
Qed.

Lemma cached_cache (d : NexDevice) m : cached d (set_properties_cache d m).
Proof.
  exists m, []. split; [|constructor].
  destruct d; simpl. rewrite app_nil_r. reflexivity.
Qed.

Lemma cached_emit (d : NexDevice) m e :
  slot_effect e ->
  cached d (set_effects (set_properties_cache d m) (effects d ++ [e])).
Proof.
  intros He. exists m, [e]. split; [reflexivity|].
  constructor; [exact He|constructor].
Qed.

Ltac break_match :=
  match goal with
  | |- context [match ?x with _ => _ end] => destruct x
  end.

Lemma emit_value_changed_cached page w v d m r d' :
  emit_value_changed page w v (set_properties_cache d m) = (r, d') ->
  cached d d'.
Proof.
  unfold emit_value_changed, emit, modify, raise.
  repeat break_match; intros H; injection H as _ <-;
    first [apply cached_cache | apply (cached_emit d m); exact I].
Qed.

Lemma get_slot_cached page w c d r d' :
  _on_get_property_command_successful page w c d = (r, d') ->
  cached d d'.
Proof.
  unfold _on_get_property_command_successful, bind, lift, get, cache_set,
    modify, raise, ret.
  destruct (w_class w);
    destruct (get_property_name c) as [pn| |];
    destruct (data_event_value c) as [v| |];
    destruct (data_event_signed_value c) as [sv| |];
    try (intros H; injection H as _ <-;
         first [apply cached_refl | apply cached_cache]);
    try (break_match;
         first [apply emit_value_changed_cached
               |intros H; injection H as _ <-; apply cached_cache];
         fail).
  all: try (break_match;
            first [apply emit_value_changed_cached
                  |intros H; injection H as _ <-; apply cached_cache]).
Qed.

Lemma emit_signal_spec (c : CommandBase) (s : Signal) (d : NexDevice)
  (r : res unit) (d' : NexDevice) :
  emit_signal c s d = (r, d') ->
  (r = Ret tt \/ r = Timeout)
  /\ (sure c -> r = Ret tt)
  /\ (s = sig_failed -> r = Ret tt)
  /\ signalled c s d d'.
Proof.
  unfold emit_signal, signalled, sure, after_slots.
  destruct s; unfold bind, emit, modify; cbn [signal_effect].
  - destruct (slots c) as [|page|page w].
    + intros H. injection H as <- <-. split; [left; reflexivity|].
      split; [reflexivity|]. split; [reflexivity|].
      repeat split. exists []. split; [reflexivity|constructor].
    + unfold slot, NexPage_on_command_successful, update_page, modify, ret.
      destruct (cls c); intros H; injection H as <- <-;
        (split; [left; reflexivity|]); (split; [reflexivity|]);
        (split; [reflexivity|]); simpl;
        try (repeat split; exists []; split; [reflexivity|constructor]; fail).
      destruct (nth_error (pages d) page); simpl; repeat split;
        exists []; split; try reflexivity; constructor.
    + unfold slot at 1.
      match goal with
      | |- context [_on_get_property_command_successful page w c ?d0] =>
          destruct (_on_get_property_command_successful page w c d0)
            as [r1 d1] eqn:E1;
          pose proof (get_slot_cached _ _ _ _ _ _ E1) as (m & es & -> & Hes)
      end.
      destruct r1 as [[]|e1|]; unfold slot, _on_command_successful, ret;
        intros H; injection H as <- <-;
        (split; [auto|]); (split; [intros []|]); (split; [discriminate|]);
        simpl; repeat split.
      * exists es. rewrite <- app_assoc. split; [reflexivity|exact Hes].
      * exists (es ++ [fatal e1]). rewrite <- !app_assoc.
        split; [reflexivity|].
        apply Forall_app. split; [exact Hes|repeat constructor].
      * exists es. rewrite <- app_assoc. split; [reflexivity|exact Hes].
  - destruct (slots c) as [|page|page w]; unfold slot, _on_command_failed,
      emit, modify; intros H; injection H as <- <-;
      (split; [left; reflexivity|]); (split; [reflexivity|]);
      (split; [reflexivity|]); simpl; repeat split;
      eexists; (split; [try rewrite <- app_assoc; reflexivity|]);
      repeat constructor.
Qed.

(** Feeding an event to the oldest command: either the event is kept as
    data and the command stays, or a signal is emitted; the command then
    leaves the queue, unless a slot fails, in which case the call does not
    come back. *)
Lemma feed_spec (c : CommandBase) (older : list CommandBase) (e : event)
  (d : NexDevice) :
  exists r d',
    feed c older e d = (r, d')
    /\ layout d' = layout d
    /\ ((snd (CommandBase_event c e) = None /\ r = Ret tt
         /\ _commands d' = fst (CommandBase_event c e) :: older
         /\ effects d' = effects d /\ pages d' = pages d)
        \/ (exists s es,
              snd (CommandBase_event c e) = Some s
              /\ effects d' = effects d ++ signal_effect s (command c) :: es
              /\ Forall slot_effect es
              /\ pages d' = after_slots c s (pages d)
              /\ (sure c -> r = Ret tt)
              /\ ((r = Ret tt /\ _commands d' = older)
                  \/ (r = Timeout
                      /\ _commands d'
                         = fst (CommandBase_event c e) :: older)))).
Proof.
  unfold feed.
  destruct (CommandBase_event c e) as [c' s] eqn:Ev.
  assert (Hcmd : command c' = command c /\ slots c' = slots c
                 /\ cls c' = cls c).
  { unfold CommandBase_event in Ev.
    destruct (isinstance e (DATA_EVENT_CLASSES (cls c)));
      [|destruct (isinstance e [CommandSucceeded])];
      injection Ev as <- _; repeat split. }
  destruct Hcmd as (Hcmd & Hslots & Hcls).
  destruct s as [s|].
  - unfold bind at 1, modify at 1.
    unfold bind.
    destruct (emit_signal c' s (set_commands d (c' :: older)))
      as [r1 d1] eqn:E1.
    destruct (emit_signal_spec _ _ _ _ _ E1)
      as (Hr & Hsure & _ & Ht & Hi & Hcp & Hbn & Hbi & Hq & Hp & es & HE & Hes).
    simpl in Ht, Hi, Hcp, Hbn, Hbi, Hq, Hp, HE.
    assert (Hafter : after_slots c' s (pages d) = after_slots c s (pages d)).
    { unfold after_slots. rewrite Hslots, Hcls. reflexivity. }
    assert (HL : layout d1 = layout d).
    { unfold layout. rewrite Hp, Hbn, Hbi, Hi.
      rewrite (proj1 (after_slots_layout c' s (pages d))). reflexivity. }
    destruct Hr as [-> | ->].
    + eexists. eexists. split; [reflexivity|]. split.
      { unfold pop, modify. unfold layout in *. simpl. exact HL. }
      right. exists s, es. split; [reflexivity|].
      unfold pop, modify. simpl. rewrite HE, Hcmd, Hp, Hafter, Hq.
      repeat split; try assumption. left. split; reflexivity.
    + eexists. eexists. split; [reflexivity|]. split; [exact HL|].
      right. exists s, es. split; [reflexivity|].
      rewrite HE, Hcmd, Hp, Hafter, Hq. repeat split; try assumption.
      * intros Hs. unfold sure in Hs, Hsure. rewrite <- Hslots in Hs.
        apply Hsure. exact Hs.
      * right. split; reflexivity.
  - unfold bind, modify, ret. eexists. eexists. split; [reflexivity|].
    split; [reflexivity|]. left. repeat split.
Qed.

Lemma calm_rotate (d : NexDevice) (q : list CommandBase) :
  calm d (set_commands d q).
Proof. apply calm_same; reflexivity. Qed.

Lemma writes_signal (s : Signal) (cmd : bytes) :
  writes [signal_effect s cmd] = [].
Proof. destruct s; reflexivity. Qed.

Lemma tokens_signal (s : Signal) (cmd : bytes) :
  tokens [signal_effect s cmd] = [D cmd].
Proof. destruct s; reflexivity. Qed.

Lemma feed_calm (c : CommandBase) (older : list CommandBase) (e : event) :
  sat false calm (feed c older e).
Proof.
  intros d r d' H _.
  destruct (feed_spec c older e d) as (r1 & d1 & Hf & HL & Hcases).
  rewrite Hf in H. injection H as _ <-.
  destruct Hcases as [(_ & _ & _ & HE & _)|(s & es & _ & HE & Hes & _)].
  - apply calm_same; assumption.
  - split.
    + split; [exact HL|eauto].
    + eexists. split; [exact HE|].
      change (signal_effect s (command c) :: es)
        with ([signal_effect s (command c)] ++ es).
      rewrite writes_app, writes_signal.
      apply (proj1 (slot_effects_quiet es Hes)).
Qed.

Lemma scan_calm (fuel : nat) (e : event) : sat false calm (scan fuel e).
Proof.
  induction fuel as [|fuel IH]; intros d r d' H Hr.
  - simpl in H. destruct (_commands d); injection H as _ <-; apply calm_refl.
  - simpl in H. destruct (_commands d) as [|c older] eqn:Hq.
    + injection H as _ <-. apply calm_refl.
    + assert (Hrot : forall r d',
                 scan fuel e (set_commands d (rotate (c :: older))) = (r, d')
                 -> calm d d').
      { intros r0 d0 H0. apply calm_trans with
          (set_commands d (rotate (c :: older))).
        - apply calm_rotate.
        - apply (IH _ _ _ H0). discriminate. }
      destruct (status c).
      * apply (Hrot _ _ H).
      * apply (feed_calm c older e d r d' H). discriminate.
      * apply (Hrot _ _ H).
      * apply (Hrot _ _ H).
Qed.

Lemma dispatch_touch_calm (page_id cid : N) (pe : Touch) :
  sat false calm (dispatch_touch page_id cid pe).
Proof.
  intros d r d' H _. apply dispatch_touch_spec in H.
  destruct H as [->|(page & w & [->| ->])].
  - apply calm_refl.
  - split.
    + split; [reflexivity|]. exists [pressed page w]. reflexivity.
    + exists [pressed page w]. split; reflexivity.
  - split.
    + split; [reflexivity|]. exists [released page w]. reflexivity.
    + exists [released page w]. split; reflexivity.
Qed.

Lemma dispatch_calm (fuel : nat) (e : event) : sat false calm (dispatch fuel e).
Proof.
  destruct e; simpl; try apply scan_calm. apply dispatch_touch_calm.
Qed.

(** The sending step: it returns; it writes the oldest command and marks
    it SENT if that command is CREATED, and does nothing otherwise. *)
Lemma transmit_spec (d : NexDevice) :
  exists d',
    transmit d = (Ret tt, d')
    /\ layout d' = layout d
    /\ ((d' = d
         /\ match _commands d with
            | [] => True
            | c :: _ => status c <> CREATED
            end)
        \/ (exists c older,
              _commands d = c :: older
              /\ status c = CREATED
              /\ _commands d' = set_status c SENT :: older
              /\ effects d' = effects d ++ [Written (command c)])).
Proof.
  unfold transmit. destruct (_commands d) as [|c older] eqn:Hq.
  - exists d. repeat split. left. split; [reflexivity|exact I].
  - destruct (status c) eqn:Hs.
    + eexists. split; [reflexivity|]. split; [reflexivity|].
      right. exists c, older. repeat split. exact Hs.
    + exists d. repeat split. left. split; [reflexivity|discriminate].
    + exists d. repeat split. left. split; [reflexivity|discriminate].
    + exists d. repeat split. left. split; [reflexivity|discriminate].
Qed.

Lemma transmit_framed : sat false framed transmit.
Proof.
  intros d r d' H _. destruct (transmit_spec d) as (d1 & Ht & HL & Hc).
  rewrite Ht in H. injection H as _ <-.
  destruct Hc as [[-> _]|(c & older & _ & _ & _ & HE)].
  - apply framed_refl.
  - split; [exact HL|eauto].
Qed.

Lemma read_events_calm (rc : ReturnCodes) : sat false calm (read_events rc).
Proof.
  intros d r d' H _. apply read_events_same in H. destruct H as [t ->].
  apply calm_same; reflexivity.
Qed.

Lemma idle_refresh_calm : sat false calm idle_refresh.
Proof.
  intros d r d' H _. apply idle_refresh_same in H. subst. apply calm_refl.
Qed.

Lemma sat_weaken {A} (R R' : NexDevice -> NexDevice -> Prop)
  (m : M NexDevice A) :
  (forall d d', R d d' -> R' d d') -> sat false R m -> sat false R' m.
Proof. intros HR Hm d r d' H Hs. apply HR. apply (Hm d r d' H Hs). Qed.

Lemma sat_strict {A} (R : NexDevice -> NexDevice -> Prop)
  (m : M NexDevice A) :
  sat false R m -> sat true R m.
Proof. intros Hm d r d' H _. apply (Hm d r d' H). discriminate. Qed.

(** [poll] leaves the layout alone, whatever its outcome. *)
Lemma poll_framed (rc : ReturnCodes) (fuel : nat) :
  sat false framed (poll rc fuel).
Proof.
  unfold poll.
  apply (sat_bind false framed framed_trans).
  { apply (sat_weaken calm); [intros ? ? [F _]; exact F|].
    apply read_events_calm. }
  intros evs. apply (sat_bind false framed framed_trans).
  { apply (sat_weaken calm); [intros ? ? [F _]; exact F|].
    apply (sat_for_each false calm calm_refl calm_trans).
    apply dispatch_calm. }
  intros _. apply (sat_bind false framed framed_trans).
  { apply transmit_framed. }
  intros _. apply (sat_bind false framed framed_trans).
  { apply (sat_weaken calm); [intros ? ? [F _]; exact F|].
    apply idle_refresh_calm. }
  intros _. apply (sat_bind false framed framed_trans).
  { apply (sat_get false framed framed_refl). }
  intros d0. apply (sat_ret false framed framed_refl).
Qed.

(** One call of [poll] writes at most one command: the one that is the
    oldest of the queue afterwards, which was CREATED and is now SENT. *)
Lemma poll_writes (rc : ReturnCodes) (fuel : nat) (d : NexDevice)
  (r : res bool) (d' : NexDevice) :
  poll rc fuel d = (r, d') ->
  exists es,
    effects d' = effects d ++ es
    /\ (writes es = []
        \/ exists c older,
             _commands d' = set_status c SENT :: older
             /\ status c = CREATED
             /\ writes es = [command c]).
Proof.
  unfold poll, bind. intros H.
  destruct (read_events rc d) as [r0 d0] eqn:E0.
  assert (Q0 : quiet d d0).
  { apply (read_events_calm rc d r0 d0 E0). discriminate. }
  assert (Hquiet : forall d1, quiet d d1 ->
            exists es, effects d1 = effects d ++ es
                       /\ (writes es = []
                           \/ exists c older,
                                _commands d1 = set_status c SENT :: older
                                /\ status c = CREATED
                                /\ writes es = [command c])).
  { intros d1 (es & HE & HW). exists es. split; [exact HE|left; exact HW]. }
  destruct r0 as [evs|e0|]; try (injection H as _ <-; apply Hquiet; exact Q0).
  destruct (for_each (dispatch fuel) evs d0) as [r1 d1] eqn:E1.
  assert (Q1 : quiet d d1).
  { apply quiet_trans with d0; [exact Q0|].
    apply (sat_for_each false calm calm_refl calm_trans
             (dispatch fuel) evs (dispatch_calm fuel) d0 r1 d1 E1).
    discriminate. }
  destruct r1 as [[]|e1|]; try (injection H as _ <-; apply Hquiet; exact Q1).
  destruct (transmit_spec d1) as (d2 & Ht & _ & Hc). rewrite Ht in H.
  destruct (idle_refresh d2) as [r3 d3] eqn:E3.
  assert (d3 = d2) by (apply (idle_refresh_same d2 r3 d3 E3)). subst d3.
  assert (Hd : d' = d2).
  { destruct r3 as [[]|e3|]; injection H as _ <-; reflexivity. }
  subst d'.
  destruct Hc as [[-> _]|(c & older & _ & Hs & Hq & HE)].
  - apply Hquiet. exact Q1.
  - destruct Q1 as (es & HE1 & HW1).
    exists (es ++ [Written (command c)]). split.
    + rewrite HE, HE1, app_assoc. reflexivity.
    + right. exists c, older. repeat split; try assumption.
      rewrite writes_app, HW1. reflexivity.
Qed.

(** *** The discipline of the queue and the schedule *)

Lemma created_one_in_flight (q : list CommandBase) :
  Forall created q -> one_in_flight q.
Proof.
  intros H. destruct q as [|c q]; [exact I|].
  inversion H; subst. split; [left; assumption|assumption].
Qed.

Lemma created_not_sent (q : list CommandBase) :
  Forall created q -> Forall not_sent q.
Proof.
  apply Forall_impl. intros c Hc. unfold created, not_sent in *.
  rewrite Hc. discriminate.
Qed.

Lemma owed_app (a b : list CommandBase) : owed (a ++ b) = owed a ++ owed b.
Proof. apply flat_map_app. Qed.

Lemma owed_created (q : list CommandBase) :
  Forall created q -> owed q = flat_map service q.
Proof.
  induction 1 as [|c q Hc _ IH]; [reflexivity|].
  change (owed (c :: q)) with (owed_by c ++ owed q).
  change (flat_map service (c :: q)) with (service c ++ flat_map service q).
  rewrite IH. unfold owed_by, service.
  unfold created in Hc. rewrite Hc. reflexivity.
Qed.

Lemma owed_cons (c : CommandBase) (q : list CommandBase) :
  owed (c :: q) = owed_by c ++ owed q.
Proof. reflexivity. Qed.

Lemma owed_by_sent (c : CommandBase) :
  status c = SENT -> owed_by c = [D (command c)].
Proof. intros H. unfold owed_by. rewrite H. reflexivity. Qed.

Lemma owed_by_created (c : CommandBase) :
  status c = CREATED -> owed_by c = [W (command c); D (command c)].
Proof. intros H. unfold owed_by. rewrite H. reflexivity. Qed.

Lemma data_event_keeps (c c' : CommandBase) (e : event) :
  CommandBase_event c e = (c', None) ->
  status c' = status c /\ command c' = command c.
Proof.
  unfold CommandBase_event.
  destruct (isinstance e (DATA_EVENT_CLASSES (cls c))).
  - intros H. injection H as <-. split; reflexivity.
  - destruct (isinstance e [CommandSucceeded]); discriminate.
Qed.

Lemma scan_steady (fuel : nat) (e : event) : sat true steady (scan fuel e).
Proof.
  intros d r d' H Hr Hinv.
  destruct (_commands d) as [|c older] eqn:Hq.
  - assert (Hd : d' = d).
    { destruct fuel; simpl in H; rewrite Hq in H; injection H as _ <-;
        reflexivity. }
    subst d'. rewrite Hq. split; [exact I|reflexivity].
  - destruct Hinv as [[Hc|Hc] Hold].
    + exfalso.
      destruct (scan_starves fuel e d) as [d1 H1].
      * rewrite Hq. discriminate.
      * rewrite Hq. apply created_not_sent. constructor; assumption.
      * rewrite H1 in H. injection H as <- _. apply Hr; reflexivity.
    + destruct fuel as [|fuel].
      { simpl in H. rewrite Hq in H. injection H as <- _.
        exfalso. apply Hr; reflexivity. }
      simpl in H. rewrite Hq, Hc in H.
      destruct (feed_spec c older e d) as (r1 & d1 & Hf & _ & Hcases).
      rewrite Hf in H. injection H as <- <-.
      destruct Hcases as [(Hn & _ & Hq1 & HE & _)
                         |(s & es & _ & HE & Hes & _ & _ & Hout)].
      * destruct (CommandBase_event c e) as [c' s'] eqn:Ev.
        simpl in Hn, Hq1. subst s'.
        destruct (data_event_keeps c c' e Ev) as [Hst Hcmd].
        rewrite Hq1. split.
        -- split; [right; congruence|exact Hold].
        -- unfold sched. rewrite HE, Hq1, Hq, !owed_cons.
           rewrite !owed_by_sent by congruence. rewrite Hcmd. reflexivity.
      * destruct Hout as [[_ Hq1]|[-> _]];
          [|exfalso; apply Hr; reflexivity].
        rewrite Hq1. split; [apply created_one_in_flight; exact Hold|].
        unfold sched. rewrite HE, Hq1, Hq.
        change (signal_effect s (command c) :: es)
          with ([signal_effect s (command c)] ++ es).
        rewrite !tokens_app, tokens_signal.
        rewrite (proj2 (slot_effects_quiet es Hes)), app_nil_r.
        rewrite owed_cons, (owed_by_sent c Hc), <- app_assoc. reflexivity.
Qed.

Lemma dispatch_touch_steady (page_id cid : N) (pe : Touch) :
  sat true steady (dispatch_touch page_id cid pe).
Proof.
  intros d r d' H _. apply dispatch_touch_spec in H.
  destruct H as [->|(page & w & [->| ->])].
  - apply steady_refl.
  - apply steady_same; [reflexivity|].
    simpl. rewrite tokens_app. apply app_nil_r.
  - apply steady_same; [reflexivity|].
    simpl. rewrite tokens_app. apply app_nil_r.
Qed.

Lemma dispatch_steady (fuel : nat) (e : event) :
  sat true steady (dispatch fuel e).
Proof.
  destruct e; simpl; try apply scan_steady. apply dispatch_touch_steady.
Qed.

Lemma transmit_steady : sat true steady transmit.
Proof.
  intros d r d' H _ Hinv. destruct (transmit_spec d) as (d1 & Ht & _ & Hc).
  rewrite Ht in H. injection H as _ <-.
  destruct Hc as [[-> _]|(c & older & Hq & Hs & Hq1 & HE)].
  - split; [exact Hinv|reflexivity].
  - rewrite Hq in Hinv. destruct Hinv as [_ Hold]. rewrite Hq1. split.
    + split; [right; reflexivity|exact Hold].
    + unfold sched. rewrite HE, Hq1, Hq, tokens_app, !owed_cons.
      rewrite (owed_by_created c Hs), owed_by_sent by reflexivity.
      rewrite <- app_assoc. reflexivity.
Qed.

Lemma read_events_steady (rc : ReturnCodes) : sat true steady (read_events rc).
Proof.
  intros d r d' H _. apply read_events_same in H. destruct H as [t ->].
  apply steady_same; reflexivity.
Qed.

Lemma idle_refresh_steady : sat true steady idle_refresh.
Proof.
  intros d r d' H _. apply idle_refresh_same in H. subst. apply steady_refl.
Qed.

(** [poll] keeps the discipline of the queue and the schedule, whenever
    it comes back. *)
Lemma poll_steady (rc : ReturnCodes) (fuel : nat) :
  sat true steady (poll rc fuel).
Proof.
  unfold poll.
  apply (sat_bind true steady steady_trans); [apply read_events_steady|].
  intros evs. apply (sat_bind true steady steady_trans).
  { apply (sat_for_each true steady steady_refl steady_trans).
    apply dispatch_steady. }
  intros _. apply (sat_bind true steady steady_trans); [apply transmit_steady|].
  intros _. apply (sat_bind true steady steady_trans);
    [apply idle_refresh_steady|].
  intros _. apply (sat_bind true steady steady_trans).
  { apply (sat_get true steady steady_refl). }
  intros d0. apply (sat_ret true steady steady_refl).
Qed.

(** ** One command in flight *)

Lemma appendleft_created (c : CommandBase) (d : NexDevice) :
  created c -> one_in_flight (_commands d) ->
  one_in_flight (_commands d ++ [c])
  /\ owed (_commands d ++ [c]) = owed (_commands d) ++ service c.
Proof.
  intros Hc Hinv. split.
  - destruct (_commands d) as [|c0 q]; simpl.
    + split; [left; exact Hc|constructor].
    + destruct Hinv as [H0 Hq]. split; [exact H0|].
      apply Forall_app. split; [exact Hq|]. constructor; [exact Hc|constructor].
  - rewrite owed_app. f_equal. simpl. rewrite app_nil_r.
    apply owed_by_created. exact Hc.
Qed.

Lemma run_framed (rc : ReturnCodes) (l : list action) :
  sat false framed (run rc l).
Proof.
  apply (sat_for_each false framed framed_refl framed_trans).
  intros [c|fuel]; simpl.
  - apply sat_modify. intros d. split; [reflexivity|].
    exists []. simpl. rewrite app_nil_r. reflexivity.
  - apply (sat_bind false framed framed_trans); [apply poll_framed|].
    intros b. apply (sat_ret false framed framed_refl).
Qed.

(** Along a run, the queue keeps its discipline and the schedule only
    grows at its end, by the service of each command enqueued. *)
Lemma run_schedule (rc : ReturnCodes) (l : list action) :
  forall d r d',
    one_in_flight (_commands d) ->
    Forall created (enqueued l) ->
    run rc l d = (r, d') -> r <> Timeout ->
    one_in_flight (_commands d')
    /\ exists rest,
         sched d' ++ rest = sched d ++ flat_map service (enqueued l).
Proof.
  induction l as [|a l IH]; intros d r d' Hinv Hl H Hr.
  - injection H as _ <-. split; [exact Hinv|]. exists [].
    simpl. reflexivity.
  - destruct a as [c|fuel].
    + simpl in Hl. inversion Hl as [|? ? Hc Hl']; subst.
      unfold run in H. simpl in H. unfold bind, appendleft, modify in H.
      destruct (appendleft_created c d Hc Hinv) as [Hinv1 Howed].
      destruct (IH (set_commands d (_commands d ++ [c])) r d'
                  Hinv1 Hl' H Hr) as [Hinv' [rest Hrest]].
      split; [exact Hinv'|]. exists rest. rewrite Hrest.
      unfold sched. simpl _commands. simpl effects. rewrite Howed.
      simpl. rewrite <- !app_assoc. reflexivity.
    + unfold run in H. simpl in H. unfold bind in H. simpl in Hl.
      destruct (poll rc fuel d) as [r1 d1] eqn:Ep.
      destruct r1 as [b|e|].
      * destruct (poll_steady rc fuel d (Ret b) d1 Ep) as [Hinv1 Hs1];
          [discriminate|exact Hinv|].
        simpl in H.
        destruct (IH d1 r d' Hinv1 Hl H Hr) as [Hinv' [rest Hrest]].
        split; [exact Hinv'|]. exists rest. rewrite Hrest, Hs1. reflexivity.
      * injection H as _ <-.
        destruct (poll_steady rc fuel d (Raise e) d1 Ep) as [Hinv1 Hs1];
          [discriminate|exact Hinv|].
        split; [exact Hinv1|]. exists (flat_map service (enqueued l)).
        rewrite Hs1. reflexivity.
      * injection H as <- _. exfalso. apply Hr. reflexivity.
Qed.

(** C2: in every state that a session reaches from an empty queue by
    enqueuing CREATED commands and polling, at most the oldest command is
    SENT and all others are CREATED; what was written and completed so
    far is a beginning of "write A, A done, write B, B done, ..." in the
    order of enqueuing; a further call of [poll] writes at most one
    command, the oldest, which was CREATED, and it writes nothing before
    the command in flight is done; and in any state whatever, one call of
    [poll] writes at most the oldest command, and only if it is CREATED. *)
Theorem one_command_in_flight (rc : ReturnCodes) (l : list action)
  (d : NexDevice) (r : res unit) (d' : NexDevice)
  (Hq : _commands d = [])
  (Hl : Forall created (enqueued l))
  (Hrun : run rc l d = (r, d'))
  (Hr : r <> Timeout) :
  one_in_flight (_commands d')
  /\ (exists es rest,
        effects d' = effects d ++ es
        /\ tokens es ++ rest = flat_map service (enqueued l))
  /\ (forall fuel r1 d1,
        poll rc fuel d' = (r1, d1) ->
        exists es1,
          effects d1 = effects d' ++ es1
          /\ (writes es1 = []
              \/ exists c older,
                   _commands d1 = set_status c SENT :: older
                   /\ status c = CREATED
                   /\ writes es1 = [command c])
          /\ (r1 <> Timeout ->
              one_in_flight (_commands d1)
              /\ exists rest1, tokens es1 ++ rest1 = owed (_commands d')))
  /\ (forall d0 fuel r1 d1,
        poll rc fuel d0 = (r1, d1) ->
        exists es1,
          effects d1 = effects d0 ++ es1
          /\ (writes es1 = []
              \/ exists c older,
                   _commands d1 = set_status c SENT :: older
                   /\ status c = CREATED
                   /\ writes es1 = [command c])).
Proof.
  assert (Hinv : one_in_flight (_commands d)) by (rewrite Hq; exact I).
  destruct (run_schedule rc l d r d' Hinv Hl Hrun Hr) as [Hinv' [rest Hrest]].
  split; [exact Hinv'|]. split; [|split].
  - destruct (run_framed rc l d r d' Hrun) as [_ [es HE]]; [discriminate|].
    exists es, (owed (_commands d') ++ rest). split; [exact HE|].
    unfold sched in Hrest. rewrite HE, Hq, tokens_app in Hrest.
    simpl in Hrest. rewrite app_nil_r, <- !app_assoc in Hrest.
    apply app_inv_head in Hrest. exact Hrest.
  - intros fuel r1 d1 Hp.
    destruct (poll_writes rc fuel d' r1 d1 Hp) as (es1 & HE1 & HW).
    exists es1. split; [exact HE1|]. split; [exact HW|].
    intros Hr1.
    destruct (poll_steady rc fuel d' r1 d1 Hp) as [Hinv1 Hs1];
      [intros _; exact Hr1|exact Hinv'|].
    split; [exact Hinv1|]. exists (owed (_commands d1)).
    unfold sched in Hs1. rewrite HE1, tokens_app, <- app_assoc in Hs1.
    apply app_inv_head in Hs1. exact Hs1.
  - intros d0 fuel r1 d1 Hp. exact (poll_writes rc fuel d0 r1 d1 Hp).
Qed.

Lemma one_command_in_flight_witness :
  exists d',
    run nextion sample_actions sample_session = (Ret tt, d')
    /\ one_in_flight (_commands d')
    /\ tokens (effects d')
       = [W (command cmd_A); D (command cmd_A); W (command cmd_B)].
Proof.
  exists (snd (run nextion sample_actions sample_session)).
  assert (Hrun : run nextion sample_actions sample_session
                 = (Ret tt, snd (run nextion sample_actions sample_session)))
    by (vm_compute; reflexivity).
  assert (Hl : Forall created (enqueued sample_actions))
    by (repeat constructor).
  assert (Hr : Ret tt <> @Timeout unit) by discriminate.
  split; [exact Hrun|]. split.
  - exact (proj1 (one_command_in_flight nextion sample_actions sample_session
                    (Ret tt) _ eq_refl Hl Hrun Hr)).
  - vm_compute. reflexivity.
Defined.

(** ** Draining the queue *)

Lemma drain_framed (rc : ReturnCodes) (n fuel : nat) :
  sat false framed (drain rc n fuel).
Proof.
  induction n as [|n IH]; intros d r d' H Hs.
  - simpl in H. destruct (_commands d); injection H as _ <-;
      apply framed_refl.
  - simpl in H. destruct (_commands d).
    + injection H as _ <-. apply framed_refl.
    + revert d r d' H Hs.
      apply (sat_bind false framed framed_trans); [apply poll_framed|].
      intros _. exact IH.
Qed.


(** ** Selecting a page and refreshing it *)



Lemma framed_modify (f : NexDevice -> NexDevice) :
  (forall d, layout (f d) = layout d) ->
  (forall d, effects (f d) = effects d) ->
  sat false framed (modify f).
Proof.
  intros HL HE. apply sat_modify. intros d. split; [apply HL|].
  exists []. rewrite app_nil_r. apply HE.
Qed.

Lemma framed_emit (e : Effect) : sat false framed (emit e).
Proof.
  apply sat_modify. intros d. split; [reflexivity|]. exists [e]. reflexivity.
Qed.

Lemma framed_update_switching (page : nat) (b : bool) :
  sat false framed (update_page page (fun p => set_switching p b)).
Proof.
  apply framed_modify; intros d.
  - apply update_switching_layout.
  - apply (update_switching_same page b d).
Qed.

Lemma framed_read_page (page : nat) : sat false framed (read_page page).
Proof.
  intros d r d' H _. unfold read_page in H.
  destruct (nth_error (pages d) page); injection H as _ <-; apply framed_refl.
Qed.

Lemma framed_send_command (s : Slots) (c : CommandBase) :
  sat false framed (send_command s c).
Proof. apply framed_modify; reflexivity. Qed.

Lemma show_framed (page : nat) : sat false framed (show page).
Proof.
  unfold show.
  apply (sat_bind false framed framed_trans);
    [apply framed_update_switching|].
  intros _. apply (sat_bind false framed framed_trans);
    [apply framed_read_page|].
  intros p. apply (sat_bind false framed framed_trans);
    [apply (sat_lift false framed framed_refl)|].
  intros c. apply framed_send_command.
Qed.

Lemma select_page_framed (key : str + Z) : sat false framed (select_page key).
Proof.
  unfold select_page.
  apply (sat_bind false framed framed_trans);
    [apply (sat_get false framed framed_refl)|].
  intros d0. apply (sat_bind false framed framed_trans);
    [apply (sat_lift false framed framed_refl)|].
  intros page. apply (sat_bind false framed framed_trans);
    [apply framed_modify; reflexivity|].
  intros _. apply (sat_bind false framed framed_trans); [apply show_framed|].
  intros _. apply (sat_bind false framed framed_trans);
    [apply framed_read_page|].
  intros p. apply (sat_bind false framed framed_trans).
  { destruct (pid p); [apply framed_emit|].
    apply (sat_raise false framed framed_refl). }
  intros _. apply (sat_ret false framed framed_refl).
Qed.





Lemma page_onetime_refresh_framed (page : nat) :
  sat false framed (page_onetime_refresh page).
Proof.
  unfold page_onetime_refresh.
  apply (sat_bind false framed framed_trans); [apply framed_read_page|].
  intros p. destruct (_page_switch_in_progress p).
  - apply (sat_ret false framed framed_refl).
  - apply (sat_for_each false framed framed_refl framed_trans).
    intros w. unfold widget_onetime_refresh.
    apply (sat_for_each false framed framed_refl framed_trans).
    intros v. unfold _refresh_internal.
    apply (sat_bind false framed framed_trans);
      [apply (sat_lift false framed framed_refl)|].
    intros c. apply framed_send_command.
Qed.

(** The registry above is what hooking the two pages and the widget
    builds. *)
Lemma sample_registry_hooked :
  snd ((hook_page (lit "aux") (Some 1%Z) ;;;
        hook_page (lit "main") (Some 0%Z) ;;;
        on_page 1 (hook_widget (lit "text") (lit "t0") (Some 1%Z)))%m
         (NexDevice_init (transport sample_registry)))
  = sample_registry.
Proof. reflexivity. Qed.

(** ** The sequence of [init] *)

Lemma served_app (a b : list bytes) : served (a ++ b) = served a ++ served b.
Proof. apply flat_map_app. Qed.

Lemma service_served (cs : list CommandBase) :
  flat_map service cs = served (map command cs).
Proof.
  induction cs as [|c cs IH]; [reflexivity|].
  simpl. rewrite IH. reflexivity.
Qed.



Lemma layout_ids (d d' : NexDevice) :
  layout d' = layout d -> _pages_by_id d' = _pages_by_id d.
Proof. intros HL. unfold layout in HL. injection HL as _ _ H _. exact H. Qed.

Lemma layout_initialized (d d' : NexDevice) :
  layout d' = layout d -> _initialized d' = _initialized d.
Proof. intros HL. unfold layout in HL. injection HL as _ _ _ H. exact H. Qed.


Lemma init_page_framed (rc : ReturnCodes) (fuel : nat) (item : Z * nat) :
  sat false framed (init_page rc fuel item).
Proof.
  destruct item as [i ref]. unfold init_page.
  apply (sat_bind false framed framed_trans); [apply select_page_framed|].
  intros _. apply (sat_bind false framed framed_trans);
    [apply drain_framed|].
  intros _. apply (sat_bind false framed framed_trans);
    [apply page_onetime_refresh_framed|].
  intros _. apply drain_framed.
Qed.

Lemma bind_inv {A B} (m : M NexDevice A) (k : A -> M NexDevice B)
  (d : NexDevice) (r : res B) (d' : NexDevice) :
  bind m k d = (r, d') ->
  (exists a d1, m d = (Ret a, d1) /\ k a d1 = (r, d'))
  \/ (exists e, m d = (Raise e, d') /\ r = Raise e)
  \/ (m d = (Timeout, d') /\ r = Timeout).
Proof.
  unfold bind. destruct (m d) as [[a|e|] d1]; intros H.
  - left. eauto.
  - injection H as <- <-. right. left. eauto.
  - injection H as <- <-. right. right. auto.
Qed.


Lemma select_page_found (i : Z) (d : NexDevice) (page : nat)
  (d' : NexDevice) :
  select_page (inr i) d = (Ret page, d') ->
  exists ref, dict_get Z.eqb (_pages_by_id d) i = Some ref.
Proof.
  unfold select_page, bind, get, lift, get_page.
  destruct (dict_get Z.eqb (_pages_by_id d) i) as [ref|].
  - eauto.
  - discriminate.
Qed.


(** A step of [init] that fails leaves the flag [_initialized] as the
    steps before it left it. *)
Lemma failed_step {A} (m : M NexDevice A) (d0 d1 d' : NexDevice)
  (r : res A) :
  sat false framed m ->
  layout d1 = layout d0 ->
  m d1 = (r, d') ->
  _initialized d' = _initialized d0.
Proof.
  intros Hm HL H. destruct (Hm d1 r d' H) as [HL' _]; [discriminate|].
  apply layout_initialized. congruence.
Qed.

(** ** The answers of the display *)



Lemma record_touch_signals (es : list Effect) :
  Forall touch_signal es -> record es = [].
Proof.
  induction 1 as [|e es He _ IH]; [reflexivity|].
  destruct e; try contradiction; exact IH.
Qed.

















Lemma pages_after_widgets (cs : list CommandBase) :
  Forall of_widget cs ->
  forall gs ps, pages_after cs gs ps = ps.
Proof.
  induction 1 as [|c cs Hc _ IH]; intros gs ps; [reflexivity|].
  destruct gs as [|g gs]; [reflexivity|]. cbn [pages_after].
  rewrite IH. unfold after_slots, of_widget in *.
  destruct (answer_signal g); [|reflexivity].
  destruct (slots c); try contradiction. reflexivity.
Qed.















(** When the display answers the selection of a page with something
    else than success, here with "launched", the page stays marked as
    switching and [init] issues none of its one-time refresh commands. *)
Lemma init_skips_refresh :
  fst (init nextion 10 sample_registry_refused) = Ret tt
  /\ record (effects (snd (init nextion 10 sample_registry_refused)))
     = exchanges [ (wire_mode nextion, true); (wire_page 1, true);
                   (wire_page 0, false); (wire_page 0, true) ].
Proof. split; vm_compute; reflexivity. Qed.


(** Without a page of ID 0 the last selection raises KeyError, and the
    flag stays unset. *)
Lemma init_without_page_0 :
  fst (init nextion 10 sample_registry_no_home) = Raise KeyError
  /\ _initialized (snd (init nextion 10 sample_registry_no_home)) = false.
Proof. split; vm_compute; reflexivity. Qed.

(** ** More on the frame parser *)

Lemma Return_Code_head (rc : ReturnCodes) (k : EventClass) (code : N) :
  FIRST_BYTE rc k = Some code -> Return_Code rc code = Ret code.
Proof.
  intros H. unfold Return_Code.
  assert (Hex : existsb (N.eqb code) (Code_values rc) = true).
  { apply existsb_exists. exists code. split; [|apply N.eqb_refl].
    unfold Code_values. apply in_or_app. left.
    destruct k; simpl in H; try discriminate; injection H as <-;
      simpl; tauto. }
  rewrite Hex. reflexivity.
Qed.

Lemma D_BYTE0_EVENT_first_byte (rc : ReturnCodes) (b : N) (k : EventClass) :
  D_BYTE0_EVENT_get rc b = Some k ->
  FIRST_BYTE rc k = Some b /\ (fixed_length k = true \/ k = StringHeadEvent).
Proof.
  unfold D_BYTE0_EVENT_get, D_BYTE0_EVENT. simpl.
  repeat match goal with
         | |- context [N.eqb ?x ?y] => destruct (N.eqb_spec x y)
         end; simpl; intros H; try discriminate; injection H as <-; subst;
    simpl; auto.
Qed.

(** The head of a [parse] classmethod on a frame whose first byte is the
    code of the class: the end and the length are all it checks. *)
Lemma parse_head_of_class (rc : ReturnCodes) (k : EventClass) (b : byte)
  (rest : bytes) :
  FIRST_BYTE rc k = Some (Byte.to_N b) ->
  parse_head rc k (b :: rest)
  = if has_end (b :: rest)
    then match EXPECTED_LENGTH k with
         | Some n => if (length (b :: rest) =? n)%nat
                     then Ret (Byte.to_N b)
                     else Raise NexMessageLengthException
         | None => Ret (Byte.to_N b)
         end
    else Raise NexMessageEndException.
Proof.
  intros Hk. unfold parse_head, ensure_has_end.
  destruct (has_end (b :: rest)); [|reflexivity].
  cbn [res_bind]. unfold ensure_has_expected_length.
  assert (Htail : (b0 <- getitem (b :: rest) 0 ;;
                   code <- Return_Code rc b0 ;;
                   _ <- ensure_has_expected_first_byte rc k code ;;
                   Ret code)%res = Ret (Byte.to_N b)).
  { cbn [getitem nth_error res_bind].
    rewrite (Return_Code_head rc k _ Hk). cbn [res_bind].
    unfold ensure_has_expected_first_byte. rewrite Hk, N.eqb_refl.
    reflexivity. }
  destruct (EXPECTED_LENGTH k) as [n|].
  - destruct (length (b :: rest) =? n)%nat; [|reflexivity].
    cbn [negb res_bind]. exact Htail.
  - cbn [res_bind]. exact Htail.
Qed.

Ltac explicit_frame rest Hl :=
  repeat (destruct rest as [|? rest]; simpl in Hl; try lia).

Lemma Event_Touch_cases (v : N) :
  (v = 1%N /\ Event_Touch v = Ret Press)
  \/ (v = 0%N /\ Event_Touch v = Ret Release)
  \/ (v <> 1%N /\ v <> 0%N /\ Event_Touch v = Raise ValueError).
Proof.
  unfold Event_Touch.
  destruct (N.eqb_spec v 1); [auto|].
  destruct (N.eqb_spec v 0); auto.
Qed.


Ltac utf8_split :=
  repeat match goal with
         | |- context [if ?c then _ else _] => destruct c eqn:?
         | |- context [match ?l with [] => _ | _ :: _ => _ end] =>
             destruct l
         end.

(** The decoder raises nothing but UnicodeDecodeError. *)
Lemma utf8_decode_Raise (n : nat) :
  forall bs e, (length bs <= n)%nat ->
               utf8_decode bs = Raise e -> e = UnicodeDecodeError.
Proof.
  induction n as [|n IH]; intros bs e Hl.
  - destruct bs; [discriminate|simpl in Hl; lia].
  - destruct bs as [|b0 r0]; [discriminate|]. simpl in Hl.
    cbn [utf8_decode]. utf8_split; intros H; try congruence;
      match type of H with
      | res_bind (utf8_decode ?r) _ = _ =>
          destruct (utf8_decode r) eqn:E; cbn [res_bind] in H;
          try discriminate; injection H as <-;
          apply (IH r); [simpl in Hl |- *; lia|exact E]
      end.
Qed.

Lemma parse_as_errors (rc : ReturnCodes) (k : EventClass) (b : byte)
  (rest : bytes) (e : exn) :
  FIRST_BYTE rc k = Some (Byte.to_N b) ->
  parse_as rc k (b :: rest) = Raise e ->
  e = NexMessageEndException \/ e = NexMessageLengthException
  \/ e = ValueError \/ e = UnicodeDecodeError.
Proof.
  intros Hk.
  destruct k; try discriminate; unfold parse_as, TouchEvent_parse,
    CurrentPageIDHeadEvent_parse, PositionHeadEvent_parse,
    SleepPositionHeadEvent_parse, StringHeadEvent_parse,
    NumberHeadEvent_parse, CommandSucceeded_parse, EventLaunched_parse;
    rewrite (parse_head_of_class rc _ b rest Hk);
    (destruct (has_end (b :: rest)); [|intros H; injection H as <-; auto]);
    cbn [EXPECTED_LENGTH];
    try (match goal with
         | |- context [(?a =? ?n)%nat] =>
             destruct (Nat.eqb_spec a n) as [Hl|Hl]
         end;
         [|intros H; injection H as <-; auto];
         simpl in Hl; explicit_frame rest Hl; clear Hl);
    cbn [res_bind getitem nth_error];
    try match goal with
        | |- context [Event_Touch ?v] =>
            destruct (Event_Touch_cases v)
              as [[_ ->]|[[_ ->]|(_ & _ & ->)]]; cbn [res_bind]
        end;
    intros H; try discriminate; try (injection H as <-; auto).
  destruct (utf8_decode (map Byte.to_N (payload (b :: rest)))) eqn:E;
    cbn [res_bind] in H; try discriminate. injection H as <-.
  right. right. right. apply (utf8_decode_Raise _ _ _ (le_n _) E).
Qed.

(** X2: A frame that parses is never cut short by the fuel: the parser has
    no loop of its own.  What it raises: the end and length errors of the
    class that the first byte selects, ValueError (a byte that is no return
    code, or a touch state other than 0 and 1), UnicodeDecodeError, the
    protocol error of a fault code, NotImplementedError for a return code
    it has no class for; the first-byte error never, since the class is
    chosen by the first byte. *)
Theorem MsgEvent_parse_raises (rc : ReturnCodes) (msg : bytes) (e : exn) :
  MsgEvent_parse rc msg = Raise e ->
  e = NexMessageEndException \/ e = NexMessageLengthException
  \/ e = ValueError \/ e = UnicodeDecodeError \/ e = NotImplementedError
  \/ exists b rest,
       msg = b :: rest /\ e = NexMessageException (Byte.to_N b)
       /\ In (Byte.to_N b) (NEX_EXCEPTIONS rc)
       /\ D_BYTE0_EVENT_get rc (Byte.to_N b) = None.
Proof.
  unfold MsgEvent_parse. destruct msg as [|b rest]; [discriminate|].
  destruct (D_BYTE0_EVENT_get rc (Byte.to_N b)) as [k|] eqn:Hk.
  - apply D_BYTE0_EVENT_first_byte in Hk. destruct Hk as [Hk _].
    intros H. apply (parse_as_errors rc k b rest e Hk) in H. tauto.
  - unfold Return_Code.
    destruct (existsb (N.eqb (Byte.to_N b)) (Code_values rc));
      cbn [res_bind]; [|intros H; injection H as <-; auto].
    destruct ((Byte.to_N b =? INVALID_CMD rc)%N
              && bytes_eqb (b :: rest) startup_frame); [discriminate|].
    destruct (existsb (N.eqb (Byte.to_N b)) (NEX_EXCEPTIONS rc)) eqn:Hx;
      intros H; injection H as <-; [|auto 10].
    do 5 right. exists b, rest.
    split; [reflexivity|]. split; [reflexivity|]. split; [|exact Hk].
    apply existsb_exists in Hx. destruct Hx as (c & Hin & Hc).
    apply N.eqb_eq in Hc. subst. exact Hin.
Qed.

Lemma MsgEvent_parse_raises_witness :
  MsgEvent_parse nextion [x65; x01; x02; x05; xff; xff; xff] = Raise ValueError
  /\ (ValueError = NexMessageEndException
      \/ ValueError = NexMessageLengthException
      \/ ValueError = ValueError \/ ValueError = UnicodeDecodeError
      \/ ValueError = NotImplementedError
      \/ exists b rest,
           [x65; x01; x02; x05; xff; xff; xff] = b :: rest
           /\ ValueError = NexMessageException (Byte.to_N b)
           /\ In (Byte.to_N b) (NEX_EXCEPTIONS nextion)
           /\ D_BYTE0_EVENT_get nextion (Byte.to_N b) = None).
Proof.
  split; [reflexivity|].
  apply (MsgEvent_parse_raises nextion [x65; x01; x02; x05; xff; xff; xff]).
  reflexivity.
Defined.

Lemma parse_as_Ret (rc : ReturnCodes) (k : EventClass) (msg : bytes)
  (e : event) :
  parse_as rc k msg = Ret e ->
  has_end msg = true /\ class_of e = k
  /\ (forall n, EXPECTED_LENGTH k = Some n -> length msg = n)
  /\ exists b rest, msg = b :: rest /\ FIRST_BYTE rc k = Some (Byte.to_N b).
Proof.
  intros H. destruct (fixed_length k) eqn:Hf.
  - destruct (parse_as_head rc k Hf) as (body & Hp & Hbody).
    rewrite Hp in H. apply res_bind_Ret in H. destruct H as (code & Hh & Hb).
    apply parse_head_Ret in Hh.
    destruct Hh as (He & Hl & (b & rest & -> & ->) & Hc).
    split; [exact He|]. split; [eapply Hbody; exact Hb|].
    split; [exact Hl|]. eauto.
  - destruct k; try discriminate. simpl in H.
    unfold StringHeadEvent_parse in H.
    apply res_bind_Ret in H. destruct H as (code & Hh & Hb).
    apply res_bind_Ret in Hb. destruct Hb as (v & _ & Hb).
    injection Hb as <-. apply parse_head_Ret in Hh.
    destruct Hh as (He & Hl & (b & rest & -> & ->) & Hc).
    split; [exact He|]. split; [reflexivity|]. split; [exact Hl|]. eauto.
Qed.

(** X3: What the parser returns: the empty event for no input at all, the
    startup event for the startup frame, and otherwise an event of the
    class that the dispatch table gives for the first byte, from a frame
    that ends in the terminator and has the length of the class. *)
Theorem MsgEvent_parse_returns (rc : ReturnCodes) (msg : bytes) (e : event) :
  MsgEvent_parse rc msg = Ret e ->
  (msg = [] /\ e = mkEmptyMessage)
  \/ (msg = startup_frame /\ e = mkEventStartup)
  \/ exists b rest,
       msg = b :: rest /\ has_end msg = true
       /\ D_BYTE0_EVENT_get rc (Byte.to_N b) = Some (class_of e)
       /\ FIRST_BYTE rc (class_of e) = Some (Byte.to_N b)
       /\ forall n, EXPECTED_LENGTH (class_of e) = Some n -> length msg = n.
Proof.
  unfold MsgEvent_parse. destruct msg as [|b rest].
  - intros H. injection H as <-. auto.
  - destruct (D_BYTE0_EVENT_get rc (Byte.to_N b)) as [k|] eqn:Hk.
    + intros H. apply parse_as_Ret in H.
      destruct H as (He & <- & Hl & (b' & rest' & Hm & Hf)).
      injection Hm as <- <-. right. right. exists b, rest. auto.
    + intros H. apply res_bind_Ret in H. destruct H as (code & _ & H).
      destruct ((code =? INVALID_CMD rc)%N
                && bytes_eqb (b :: rest) startup_frame) eqn:Hs.
      * injection H as <-. apply andb_true_iff in Hs.
        destruct Hs as [_ Hs]. apply bytes_eqb_eq in Hs. auto.
      * destruct (existsb (N.eqb code) (NEX_EXCEPTIONS rc)); discriminate.
Qed.

Lemma MsgEvent_parse_returns_witness :
  exists b rest,
    [x66; x02; xff; xff; xff] = b :: rest
    /\ has_end [x66; x02; xff; xff; xff] = true
    /\ D_BYTE0_EVENT_get nextion (Byte.to_N b)
       = Some (class_of (mkCurrentPageIDHeadEvent 102 2))
    /\ FIRST_BYTE nextion (class_of (mkCurrentPageIDHeadEvent 102 2))
       = Some (Byte.to_N b)
    /\ forall n,
         EXPECTED_LENGTH (class_of (mkCurrentPageIDHeadEvent 102 2)) = Some n ->
         length [x66; x02; xff; xff; xff] = n.
Proof.
  destruct (MsgEvent_parse_returns nextion [x66; x02; xff; xff; xff]
              (mkCurrentPageIDHeadEvent 102 2) eq_refl)
    as [[H _]|[[H _]|H]]; [discriminate H|discriminate H|exact H].
Defined.

(** *** The frames of each class *)

Lemma has_end_tail (body : bytes) (x y z : byte) :
  has_end (body ++ [x; y; z]) = true -> x = xff /\ y = xff /\ z = xff.
Proof.
  unfold has_end, last3. rewrite andb_true_iff, bytes_eqb_eq.
  intros [_ H]. rewrite length_app in H. simpl in H.
  replace (length body + 3 - 3)%nat with (length body + 0)%nat in H by lia.
  rewrite skipn_app, Nat.add_0_r, skipn_all in H.
  replace (length body - length body)%nat with 0%nat in H by lia.
  simpl in H. injection H as -> -> ->. auto.
Qed.

Lemma c_int32_spec (v : Z) :
  (0 <= v < 4294967296)%Z ->
  c_int32 v = if (v <? 2147483648)%Z then v else (v - 4294967296)%Z.
Proof.
  intros Hv. unfold c_int32.
  change (2 ^ 31)%Z with 2147483648%Z. change (2 ^ 32)%Z with 4294967296%Z.
  destruct (Z.ltb_spec v 2147483648).
  - rewrite Z.mod_small by lia. lia.
  - replace (v + 2147483648)%Z
      with ((v - 2147483648) + 1 * 4294967296)%Z by lia.
    rewrite Z.mod_add by lia. rewrite Z.mod_small by lia. lia.
Qed.

Lemma shiftl_8 (b : N) : N.shiftl b 8 = (256 * b)%N.
Proof. rewrite N.shiftl_mul_pow2. change (2 ^ 8)%N with 256%N. lia. Qed.

Lemma shiftl_16 (b : N) : N.shiftl b 16 = (65536 * b)%N.
Proof. rewrite N.shiftl_mul_pow2. change (2 ^ 16)%N with 65536%N. lia. Qed.

Lemma shiftl_24 (b : N) : N.shiftl b 24 = (16777216 * b)%N.
Proof. rewrite N.shiftl_mul_pow2. change (2 ^ 24)%N with 16777216%N. lia. Qed.

(** Opening a parse that returned: the frame in full, the first byte. *)
Ltac open_frame H rc k :=
  let code := fresh "code" in
  let Hh := fresh "Hh" in
  let He := fresh "He" in
  let Hl := fresh "Hl" in
  let Hc := fresh "Hc" in
  let b := fresh "b" in
  let rest := fresh "rest" in
  apply res_bind_Ret in H; destruct H as (code & Hh & H);
  apply parse_head_Ret in Hh;
  destruct Hh as (He & Hl & (b & rest & -> & ->) & Hc);
  specialize (Hl _ eq_refl); simpl in Hl; explicit_frame rest Hl; clear Hl;
  simpl in Hc; injection Hc as Hc.

Lemma byte_of_value (b : byte) (v : N) (x : byte) :
  Byte.to_N b = v -> Byte.of_N v = Some x -> b = x.
Proof.
  intros Hv Hx. rewrite <- Hv, Byte.of_to_N in Hx. congruence.
Qed.

(** X4: TouchEvent.parse: the frames it accepts are the 7-byte frames
    [head, page, component, state, FF, FF, FF] with state 1 (press) or
    0 (release); any other state byte raises ValueError. *)
Theorem touch_frame (rc : ReturnCodes) :
  (forall msg e,
     TouchEvent_parse rc msg = Ret e
     <-> exists b0 p c s,
           msg = [b0; p; c; s; xff; xff; xff]
           /\ Byte.to_N b0 = EVENT_TOUCH_HEAD rc
           /\ ((s = x01
                /\ e = mkTouchEvent (EVENT_TOUCH_HEAD rc) (Byte.to_N p)
                         (Byte.to_N c) Press)
               \/ (s = x00
                   /\ e = mkTouchEvent (EVENT_TOUCH_HEAD rc) (Byte.to_N p)
                            (Byte.to_N c) Release)))
  /\ (forall b0 p c s,
        Byte.to_N b0 = EVENT_TOUCH_HEAD rc -> s <> x01 -> s <> x00 ->
        TouchEvent_parse rc [b0; p; c; s; xff; xff; xff] = Raise ValueError).
Proof.
  split; [intros msg e; split|].
  - intros H. unfold TouchEvent_parse in H. open_frame H rc TouchEvent.
    change [b; b0; b1; b2; b3; b4; b5]
      with ([b; b0; b1; b2] ++ [b3; b4; b5]) in He.
    apply has_end_tail in He. destruct He as (-> & -> & ->).
    cbn [res_bind getitem nth_error] in H.
    exists b, b0, b1, b2. split; [reflexivity|]. split; [congruence|].
    destruct (Event_Touch_cases (Byte.to_N b2))
      as [[Hv Ht]|[[Hv Ht]|(_ & _ & Ht)]]; rewrite Ht in H;
      cbn [res_bind] in H; try discriminate; injection H as <-.
    + left. split; [|congruence].
      apply (byte_of_value b2 1 x01 Hv). reflexivity.
    + right. split; [|congruence].
      apply (byte_of_value b2 0 x00 Hv). reflexivity.
  - intros (b0 & p & c & s & -> & Hb & Hs). unfold TouchEvent_parse.
    rewrite parse_head_of_class by (simpl; congruence).
    change (has_end [b0; p; c; s; xff; xff; xff]) with true.
    cbn [EXPECTED_LENGTH length Nat.eqb res_bind getitem nth_error].
    destruct Hs as [[-> ->]|[-> ->]]; rewrite Hb; reflexivity.
  - intros b0 p c s Hb H1 H0. unfold TouchEvent_parse.
    rewrite parse_head_of_class by (simpl; congruence).
    change (has_end [b0; p; c; s; xff; xff; xff]) with true.
    cbn [EXPECTED_LENGTH length Nat.eqb res_bind getitem nth_error].
    destruct (Event_Touch_cases (Byte.to_N s))
      as [[Hv _]|[[Hv _]|(_ & _ & ->)]]; [| |reflexivity]; exfalso.
    + apply H1. apply (byte_of_value s 1 x01 Hv). reflexivity.
    + apply H0. apply (byte_of_value s 0 x00 Hv). reflexivity.
Qed.

Lemma touch_frame_witness :
  TouchEvent_parse nextion [x65; x00; x03; x02; xff; xff; xff]
  = Raise ValueError.
Proof.
  destruct (touch_frame nextion) as [_ H].
  apply (H x65 x00 x03 x02); [reflexivity|discriminate|discriminate].
Defined.

(** X5: NumberHeadEvent.parse: the frames it accepts are the 8-byte frames
    [head, b1, b2, b3, b4, FF, FF, FF]; the value is the four bytes read
    least significant first, and the signed value is the value read as a
    two's complement 32-bit number. *)
Theorem number_frame (rc : ReturnCodes) (msg : bytes) (e : event) :
  NumberHeadEvent_parse rc msg = Ret e
  <-> exists b0 b1 b2 b3 b4,
        msg = [b0; b1; b2; b3; b4; xff; xff; xff]
        /\ Byte.to_N b0 = NUMBER_HEAD rc
        /\ exists v,
             v = (Byte.to_N b1 + 256 * Byte.to_N b2 + 65536 * Byte.to_N b3
                  + 16777216 * Byte.to_N b4)%N
             /\ (v < 4294967296)%N
             /\ e = mkNumberHeadEvent (NUMBER_HEAD rc) v
                      (if (v <? 2147483648)%N then Z.of_N v
                       else (Z.of_N v - 4294967296)%Z).
Proof.
  assert (Hval : forall b1 b2 b3 b4 : byte,
             let v := (Byte.to_N b1 + 256 * Byte.to_N b2
                       + 65536 * Byte.to_N b3 + 16777216 * Byte.to_N b4)%N in
             (v < 4294967296)%N
             /\ c_int32 (Z.of_N v)
                = if (v <? 2147483648)%N then Z.of_N v
                  else (Z.of_N v - 4294967296)%Z).
  { intros b1 b2 b3 b4 v.
    pose proof (Byte.to_N_bounded b1). pose proof (Byte.to_N_bounded b2).
    pose proof (Byte.to_N_bounded b3). pose proof (Byte.to_N_bounded b4).
    assert (Hv : (v < 4294967296)%N) by (unfold v; lia).
    split; [exact Hv|]. rewrite c_int32_spec by lia.
    destruct (N.ltb_spec v 2147483648); destruct (Z.ltb_spec (Z.of_N v) 2147483648);
      try reflexivity; lia. }
  split.
  - intros H. unfold NumberHeadEvent_parse in H.
    open_frame H rc NumberHeadEvent.
    change [b; b0; b1; b2; b3; b4; b5; b6]
      with ([b; b0; b1; b2; b3] ++ [b4; b5; b6]) in He.
    apply has_end_tail in He. destruct He as (-> & -> & ->).
    cbn [res_bind getitem nth_error] in H. injection H as <-.
    exists b, b0, b1, b2, b3. split; [reflexivity|]. split; [congruence|].
    rewrite shiftl_8, shiftl_16, shiftl_24.
    destruct (Hval b0 b1 b2 b3) as [Hv Hs].
    eexists. split; [reflexivity|]. split; [exact Hv|].
    rewrite Hs, Hc. reflexivity.
  - intros (b0 & b1 & b2 & b3 & b4 & -> & Hb & v & -> & _ & ->).
    unfold NumberHeadEvent_parse.
    rewrite parse_head_of_class by (simpl; congruence).
    change (has_end [b0; b1; b2; b3; b4; xff; xff; xff]) with true.
    cbn [EXPECTED_LENGTH length Nat.eqb res_bind getitem nth_error].
    rewrite shiftl_8, shiftl_16, shiftl_24.
    destruct (Hval b1 b2 b3 b4) as [_ Hs]. rewrite Hs, Hb. reflexivity.
Qed.

Lemma position_fields (b1 b2 : byte) :
  (N.shiftl (Byte.to_N b1) 8 + Byte.to_N b2
   = 256 * Byte.to_N b1 + Byte.to_N b2
   /\ 256 * Byte.to_N b1 + Byte.to_N b2 < 65536)%N.
Proof.
  rewrite shiftl_8.
  pose proof (Byte.to_N_bounded b1). pose proof (Byte.to_N_bounded b2).
  split; [reflexivity|lia].
Qed.

(** X6: PositionHeadEvent.parse and SleepPositionHeadEvent.parse: the frames
    they accept are the 9-byte frames [head, x1, x2, y1, y2, state, FF, FF,
    FF] with state 0 or 1; each coordinate is its two bytes read most
    significant first, hence below 65536. *)
Theorem position_frame (rc : ReturnCodes) (msg : bytes) (e : event) :
  (PositionHeadEvent_parse rc msg = Ret e
   <-> exists b0 x1 x2 y1 y2 s t x y,
         msg = [b0; x1; x2; y1; y2; s; xff; xff; xff]
         /\ Byte.to_N b0 = EVENT_POSITION_HEAD rc
         /\ Event_Touch (Byte.to_N s) = Ret t
         /\ (x = 256 * Byte.to_N x1 + Byte.to_N x2 /\ x < 65536)%N
         /\ (y = 256 * Byte.to_N y1 + Byte.to_N y2 /\ y < 65536)%N
         /\ e = mkPositionHeadEvent (EVENT_POSITION_HEAD rc) x y t)
  /\ (SleepPositionHeadEvent_parse rc msg = Ret e
      <-> exists b0 x1 x2 y1 y2 s t x y,
            msg = [b0; x1; x2; y1; y2; s; xff; xff; xff]
            /\ Byte.to_N b0 = EVENT_SLEEP_POSITION_HEAD rc
            /\ Event_Touch (Byte.to_N s) = Ret t
            /\ (x = 256 * Byte.to_N x1 + Byte.to_N x2 /\ x < 65536)%N
            /\ (y = 256 * Byte.to_N y1 + Byte.to_N y2 /\ y < 65536)%N
            /\ e = mkSleepPositionHeadEvent (EVENT_SLEEP_POSITION_HEAD rc)
                     x y t).
Proof.
  split; split.
  - intros H. unfold PositionHeadEvent_parse in H.
    open_frame H rc PositionHeadEvent.
    change [b; b0; b1; b2; b3; b4; b5; b6; b7]
      with ([b; b0; b1; b2; b3; b4] ++ [b5; b6; b7]) in He.
    apply has_end_tail in He. destruct He as (-> & -> & ->).
    cbn [res_bind getitem nth_error] in H.
    destruct (Event_Touch (Byte.to_N b4)) as [t| |] eqn:Ht;
      cbn [res_bind] in H; try discriminate. injection H as <-.
    destruct (position_fields b0 b1) as [-> Hx].
    destruct (position_fields b2 b3) as [-> Hy].
    exists b, b0, b1, b2, b3, b4, t. do 2 eexists.
    rewrite Hc. repeat split; assumption.
  - intros (b0 & x1 & x2 & y1 & y2 & s & t & x & y & -> & Hb & Ht
            & [-> _] & [-> _] & ->).
    unfold PositionHeadEvent_parse.
    rewrite parse_head_of_class by (simpl; congruence).
    change (has_end [b0; x1; x2; y1; y2; s; xff; xff; xff]) with true.
    cbn [EXPECTED_LENGTH length Nat.eqb res_bind getitem nth_error].
    rewrite Ht, !shiftl_8, Hb. reflexivity.
  - intros H. unfold SleepPositionHeadEvent_parse in H.
    open_frame H rc SleepPositionHeadEvent.
    change [b; b0; b1; b2; b3; b4; b5; b6; b7]
      with ([b; b0; b1; b2; b3; b4] ++ [b5; b6; b7]) in He.
    apply has_end_tail in He. destruct He as (-> & -> & ->).
    cbn [res_bind getitem nth_error] in H.
    destruct (Event_Touch (Byte.to_N b4)) as [t| |] eqn:Ht;
      cbn [res_bind] in H; try discriminate. injection H as <-.
    destruct (position_fields b0 b1) as [-> Hx].
    destruct (position_fields b2 b3) as [-> Hy].
    exists b, b0, b1, b2, b3, b4, t. do 2 eexists.
    rewrite Hc. repeat split; assumption.
  - intros (b0 & x1 & x2 & y1 & y2 & s & t & x & y & -> & Hb & Ht
            & [-> _] & [-> _] & ->).
    unfold SleepPositionHeadEvent_parse.
    rewrite parse_head_of_class by (simpl; congruence).
    change (has_end [b0; x1; x2; y1; y2; s; xff; xff; xff]) with true.
    cbn [EXPECTED_LENGTH length Nat.eqb res_bind getitem nth_error].
    rewrite Ht, !shiftl_8, Hb. reflexivity.
Qed.

Lemma has_end_split (msg : bytes) :
  has_end msg = true ->
  exists body, body <> [] /\ msg = body ++ S_END_OF_CMD.
Proof.
  unfold has_end, last3. rewrite andb_true_iff, Nat.ltb_lt, bytes_eqb_eq.
  intros [Hl Hs]. exists (firstn (length msg - 3) msg). split.
  - intros E. apply (f_equal (@length _)) in E.
    rewrite length_firstn in E. simpl in E. lia.
  - rewrite <- Hs. symmetry. apply firstn_skipn.
Qed.

Lemma has_end_app (body : bytes) :
  body <> [] -> has_end (body ++ S_END_OF_CMD) = true.
Proof.
  intros Hb. unfold has_end, last3.
  rewrite andb_true_iff, Nat.ltb_lt, bytes_eqb_eq, length_app. simpl. split.
  - destruct body; [congruence|simpl; lia].
  - replace (length body + 3 - 3)%nat with (length body + 0)%nat by lia.
    rewrite skipn_app, Nat.add_0_r, skipn_all.
    replace (length body - length body)%nat with 0%nat by lia.
    reflexivity.
Qed.

(** X1: has_end: a frame ends in the terminator when it is a body that is
    not empty followed by FF FF FF; the bare terminator does not count. *)
Theorem has_end_iff (msg : bytes) :
  has_end msg = true
  <-> exists body, body <> [] /\ msg = body ++ S_END_OF_CMD.
Proof.
  split.
  - apply has_end_split.
  - intros (body & Hb & ->). apply has_end_app. exact Hb.
Qed.

Lemma payload_frame (b0 : byte) (body : bytes) :
  payload (b0 :: body ++ S_END_OF_CMD) = body.
Proof.
  unfold payload.
  assert (E : (length (b0 :: body ++ S_END_OF_CMD) - 3 - 1
               = length body + 0)%nat).
  { simpl. rewrite length_app. simpl. lia. }
  rewrite E. cbn [skipn]. rewrite firstn_app_2. simpl. apply app_nil_r.
Qed.

(** X7: StringHeadEvent.parse: the frames it accepts are [head], a payload
    that is valid UTF-8 (possibly empty), FF FF FF; the value is the
    payload decoded. *)
Theorem string_frame (rc : ReturnCodes) (msg : bytes) (e : event) :
  StringHeadEvent_parse rc msg = Ret e
  <-> exists b0 body v,
        msg = b0 :: body ++ S_END_OF_CMD
        /\ Byte.to_N b0 = STRING_HEAD rc
        /\ utf8_decode (map Byte.to_N body) = Ret v
        /\ e = mkStringHeadEvent (STRING_HEAD rc) v.
Proof.
  split.
  - intros H. unfold StringHeadEvent_parse in H.
    apply res_bind_Ret in H. destruct H as (code & Hh & H).
    apply parse_head_Ret in Hh.
    destruct Hh as (He & _ & (b & rest & -> & ->) & Hc).
    simpl in Hc. injection Hc as Hc.
    apply has_end_split in He. destruct He as (body & Hb & Hm).
    destruct body as [|b' body]; [congruence|]. injection Hm as <- ->.
    rewrite payload_frame in H.
    apply res_bind_Ret in H. destruct H as (v & Hv & H). injection H as <-.
    exists b, body, v. rewrite Hc. auto.
  - intros (b0 & body & v & -> & Hb & Hv & ->). unfold StringHeadEvent_parse.
    rewrite parse_head_of_class by (simpl; congruence).
    change (b0 :: body ++ S_END_OF_CMD) with ((b0 :: body) ++ S_END_OF_CMD).
    rewrite has_end_app by discriminate.
    cbn [EXPECTED_LENGTH res_bind].
    change ((b0 :: body) ++ S_END_OF_CMD) with (b0 :: body ++ S_END_OF_CMD).
    rewrite payload_frame, Hv, Hb. reflexivity.
Qed.

Lemma utf8_decode_ascii (bs : list N) :
  Forall ascii_char bs -> utf8_decode bs = Ret bs.
Proof.
  induction 1 as [|c bs Hc _ IH]; [reflexivity|].
  cbn [utf8_decode]. apply N.ltb_lt in Hc. rewrite Hc, IH. reflexivity.
Qed.

(** Decoding never lengthens, and keeps the length only of ASCII. *)
Lemma utf8_decode_length (n : nat) :
  forall bs s, (length bs <= n)%nat -> utf8_decode bs = Ret s ->
               (length s <= length bs)%nat
               /\ (length s = length bs -> Forall ascii_char bs).
Proof.
  induction n as [|n IH]; intros bs s Hl.
  - destruct bs; [|simpl in Hl; lia]. intros H. injection H as <-.
    split; [reflexivity|constructor].
  - destruct bs as [|b0 r0].
    { intros H. injection H as <-. split; [reflexivity|constructor]. }
    simpl in Hl. cbn [utf8_decode]. utf8_split; intros H; try discriminate;
      match type of H with
      | res_bind (utf8_decode ?r) _ = _ =>
          destruct (utf8_decode r) as [a| |] eqn:E; cbn [res_bind] in H;
          try discriminate; injection H as <-;
          destruct (IH r a) as [Hle Heq];
          [simpl in Hl |- *; lia|exact E|]
      end; simpl in *; (split; [lia|]); intros Hlen; try lia.
    constructor.
    + apply N.ltb_lt. assumption.
    + apply Heq. lia.
Qed.

(** X8: Commands are encoded in latin1 and string values decoded as UTF-8:
    the two agree on ASCII text and on nothing else.  A string frame whose
    payload is the latin1 encoding of [s] gives back [s] exactly when
    every character of [s] is below 128. *)
Theorem text_round_trip (rc : ReturnCodes) (b0 : byte) (s : str) (b : bytes)
  (Hhead : Byte.to_N b0 = STRING_HEAD rc) (Henc : latin1 s = Ret b) :
  StringHeadEvent_parse rc (b0 :: b ++ S_END_OF_CMD)
  = Ret (mkStringHeadEvent (STRING_HEAD rc) s)
  <-> Forall ascii_char s.
Proof.
  pose proof (latin1_text s b Henc) as Ht. unfold text in Ht.
  unfold StringHeadEvent_parse.
  rewrite parse_head_of_class by (simpl; congruence).
  change (b0 :: b ++ S_END_OF_CMD) with ((b0 :: b) ++ S_END_OF_CMD).
  rewrite has_end_app by discriminate.
  cbn [EXPECTED_LENGTH res_bind].
  change ((b0 :: b) ++ S_END_OF_CMD) with (b0 :: b ++ S_END_OF_CMD).
  rewrite payload_frame, Ht, Hhead. split.
  - intros H. destruct (utf8_decode s) as [v| |] eqn:E; cbn [res_bind] in H;
      try discriminate.
    injection H as ->.
    destruct (utf8_decode_length (length s) s s (le_n _) E) as [_ Hs].
    apply Hs. reflexivity.
  - intros Hs. rewrite (utf8_decode_ascii s Hs). reflexivity.
Qed.

Lemma text_round_trip_witness :
  StringHeadEvent_parse nextion ([x70; x48; x69] ++ S_END_OF_CMD)
  = Ret (mkStringHeadEvent 112 (lit "Hi"))
  /\ StringHeadEvent_parse nextion ([x70; xe9] ++ S_END_OF_CMD)
     <> Ret (mkStringHeadEvent 112 [233%N]).
Proof.
  split.
  - apply (text_round_trip nextion x70 (lit "Hi") [x48; x69] eq_refl eq_refl).
    repeat constructor.
  - intros H.
    apply (text_round_trip nextion x70 [233%N] [xe9] eq_refl eq_refl) in H.
    inversion H as [|c l Hc Hl]. unfold ascii_char in Hc. lia.
Defined.

(** ** More on commands *)

Lemma latin1_app (a b : str) :
  latin1 (a ++ b)
  = (x <- latin1 a ;; y <- latin1 b ;; Ret (x ++ y))%res.
Proof.
  induction a as [|c a IH]; simpl.
  - destruct (latin1 b); reflexivity.
  - destruct (Byte.of_N c); [|reflexivity]. rewrite IH.
    destruct (latin1 a); [|reflexivity|reflexivity]. simpl.
    destruct (latin1 b); reflexivity.
Qed.

Lemma latin1_cases (s : str) :
  (Forall latin1_char s /\ exists b, latin1 s = Ret b)
  \/ (~ Forall latin1_char s /\ latin1 s = Raise UnicodeEncodeError).
Proof.
  induction s as [|c s IH]; simpl.
  - left. split; [constructor|eauto].
  - destruct (Byte.of_N c) as [x|] eqn:Hc.
    + assert (Hlt : latin1_char c).
      { unfold latin1_char. apply Byte.to_of_N in Hc.
        pose proof (Byte.to_N_bounded x). lia. }
      destruct IH as [[Hs [b Hb]]|[Hs Hb]]; rewrite Hb; simpl.
      * left. split; [constructor; assumption|eauto].
      * right. split; [|reflexivity]. intros H. inversion H. auto.
    + right. split; [|reflexivity]. intros H. inversion H as [|? ? Hlt _].
      apply Byte.of_N_None_iff in Hc. unfold latin1_char in Hlt. lia.
Qed.

(** X9: format_command: a line of characters below 256 becomes one byte per
    character followed by FF FF FF; with any other character the
    constructor of the command raises UnicodeEncodeError. *)
Theorem format_command_latin1 (cmd : str) (params : list value) :
  (Forall latin1_char (command_line cmd params) ->
   exists body,
     format_command cmd params = Ret (body ++ S_END_OF_CMD)
     /\ text body = command_line cmd params)
  /\ (~ Forall latin1_char (command_line cmd params) ->
      format_command cmd params = Raise UnicodeEncodeError).
Proof.
  assert (E : format_command cmd params
              = latin1 (command_line cmd params ++ [255; 255; 255]%N)).
  { unfold format_command, command_line. destruct params; [reflexivity|].
    rewrite <- !app_assoc. reflexivity. }
  rewrite E, latin1_app.
  destruct (latin1_cases (command_line cmd params)) as [[Hs [b Hb]]|[Hs Hb]];
    rewrite Hb; split; intros H; try contradiction.
  - exists b. split; [reflexivity|]. apply latin1_text. exact Hb.
  - reflexivity.
Qed.

Lemma format_command_latin1_witness :
  (exists body,
     format_command (lit "page") [VInt 1] = Ret (body ++ S_END_OF_CMD)
     /\ text body = lit "page 1")
  /\ format_command [8364%N] [] = Raise UnicodeEncodeError.
Proof.
  split.
  - apply (format_command_latin1 (lit "page") [VInt 1]).
    repeat constructor.
  - apply (format_command_latin1 [8364%N] []).
    intros H. inversion H as [|c l Hc Hl]. unfold latin1_char in Hc. lia.
Defined.

(** ** More on the registry *)

Section DictFacts.

Variables (K V : Type) (eqb : K -> K -> bool).
Hypothesis eqb_ok : forall a b, eqb a b = true <-> a = b.

Lemma eqb_same (k : K) : eqb k k = true.
Proof. apply eqb_ok. reflexivity. Qed.

Lemma eqb_other (a b : K) : a <> b -> eqb a b = false.
Proof.
  intros H. destruct (eqb a b) eqn:E; [|reflexivity].
  apply eqb_ok in E. contradiction.
Qed.

Lemma dict_get_set_same (d : dict K V) (k : K) (v : V) :
  dict_get eqb (dict_set eqb d k v) k = Some v.
Proof.
  induction d as [|[k' v'] d IH]; simpl.
  - rewrite eqb_same. reflexivity.
  - destruct (eqb k' k) eqn:E; simpl; rewrite E; [reflexivity|exact IH].
Qed.

Lemma dict_get_set_other (d : dict K V) (k k0 : K) (v : V) :
  k0 <> k -> dict_get eqb (dict_set eqb d k v) k0 = dict_get eqb d k0.
Proof.
  intros Hne. induction d as [|[k' v'] d IH]; simpl.
  - rewrite eqb_other by congruence. reflexivity.
  - destruct (eqb k' k) eqn:E; simpl.
    + apply eqb_ok in E. subst k'. rewrite eqb_other by congruence.
      reflexivity.
    + rewrite IH. reflexivity.
Qed.

Lemma dict_set_new (d : dict K V) (k : K) (v : V) :
  dict_mem eqb d k = false -> dict_set eqb d k v = d ++ [(k, v)].
Proof.
  unfold dict_mem. induction d as [|[k' v'] d IH]; simpl; [reflexivity|].
  destruct (eqb k' k); [discriminate|]. intros H. rewrite IH by exact H.
  reflexivity.
Qed.

Lemma dict_get_app_new (d : dict K V) (k k0 : K) (v : V) :
  dict_get eqb d k0 = None ->
  dict_get eqb (d ++ [(k, v)]) k0 = if eqb k k0 then Some v else None.
Proof.
  induction d as [|[k' v'] d IH]; simpl; [reflexivity|].
  destruct (eqb k' k0); [discriminate|]. exact IH.
Qed.

Lemma dict_get_In_pair (d : dict K V) (k : K) (v : V) :
  dict_get eqb d k = Some v -> In (k, v) d.
Proof.
  induction d as [|[k' v'] d IH]; simpl; [discriminate|].
  destruct (eqb k' k) eqn:E.
  - intros H. injection H as ->. apply eqb_ok in E. subst. auto.
  - auto.
Qed.

End DictFacts.

Lemma Z_eqb_ok (a b : Z) : Z.eqb a b = true <-> a = b.
Proof. apply Z.eqb_eq. Qed.

Lemma dict_mem_false {K V} (eqb : K -> K -> bool) (d : dict K V) (k : K) :
  dict_mem eqb d k = false -> dict_get eqb d k = None.
Proof. unfold dict_mem. destruct (dict_get eqb d k); [discriminate|auto]. Qed.

Lemma opt_mem_false {V} (d : dict Z V) (z : Z) :
  opt_mem d (Some z) = false -> dict_get Z.eqb d z = None.
Proof. simpl. apply dict_mem_false. Qed.

Lemma hook_page_Ret (nm : str) (i : option Z) (d : NexDevice) (ref : nat)
  (d' : NexDevice) :
  hook_page nm i d = (Ret ref, d') ->
  dict_mem str_eqb (_pages_by_name d) nm = false
  /\ opt_mem (_pages_by_id d) i = false
  /\ ref = length (pages d)
  /\ pages d' = pages d ++ [NexPage_init nm i]
  /\ _pages_by_name d' = _pages_by_name d ++ [(nm, ref)]
  /\ _pages_by_id d'
     = match i with
       | Some z => _pages_by_id d ++ [(z, ref)]
       | None => _pages_by_id d
       end
  /\ _commands d' = _commands d /\ effects d' = effects d
  /\ transport d' = transport d /\ _initialized d' = _initialized d
  /\ _current_page d' = _current_page d.
Proof.
  unfold hook_page.
  destruct (dict_mem str_eqb (_pages_by_name d) nm) eqn:Hn; [discriminate|].
  destruct (opt_mem (_pages_by_id d) i) eqn:Hi; [discriminate|].
  intros H. injection H as <- <-.
  split; [reflexivity|]. split; [reflexivity|]. split; [reflexivity|].
  destruct i as [z|]; simpl.
  - rewrite (dict_set_new _ _ _ _ _ _ Hn).
    simpl in Hi. rewrite (dict_set_new _ _ _ _ _ _ Hi). repeat split.
  - rewrite (dict_set_new _ _ _ _ _ _ Hn). repeat split.
Qed.

(** X10: hook_page, when it returns: the new page is found under its name and
    under its ID, as a fresh page without widgets; what was found under
    another key is found as before; the pages hooked earlier are as they
    were, and so are the queue and what the session has done. *)
Theorem hook_page_lookup (nm : str) (i : option Z) (d : NexDevice)
  (ref : nat) (d' : NexDevice)
  (Hhook : hook_page nm i d = (Ret ref, d')) :
  nth_error (pages d') ref = Some (NexPage_init nm i)
  /\ get_page d' (inl nm) = Ret ref
  /\ (forall z, i = Some z -> get_page d' (inr z) = Ret ref)
  /\ (forall key,
        key <> inl nm -> (forall z, i = Some z -> key <> inr z) ->
        get_page d' key = get_page d key)
  /\ (forall r p, nth_error (pages d) r = Some p ->
                  nth_error (pages d') r = Some p)
  /\ _commands d' = _commands d /\ effects d' = effects d.
Proof.
  apply hook_page_Ret in Hhook.
  destruct Hhook as (Hn & Hi & -> & Hp & Hbn & Hbi & Hq & He & _).
  split.
  { rewrite Hp, nth_error_app2 by lia. rewrite Nat.sub_diag. reflexivity. }
  split.
  { unfold get_page. rewrite Hbn.
    rewrite (dict_get_app_new _ _ _ _ _ _ _ (dict_mem_false _ _ _ Hn)).
    rewrite (eqb_same _ _ str_eqb_eq). reflexivity. }
  split.
  { intros z ->. unfold get_page. rewrite Hbi.
    rewrite (dict_get_app_new _ _ _ _ _ _ _ (opt_mem_false _ _ Hi)).
    rewrite Z.eqb_refl. reflexivity. }
  split.
  { intros [nm0|z0] Hk1 Hk2; unfold get_page.
    - rewrite Hbn. rewrite <- (dict_set_new _ _ _ _ _ _ Hn).
      rewrite (dict_get_set_other _ _ _ str_eqb_eq); [reflexivity|congruence].
    - rewrite Hbi. destruct i as [z|]; [|reflexivity].
      simpl in Hi. rewrite <- (dict_set_new _ _ _ _ _ _ Hi).
      rewrite (dict_get_set_other _ _ _ Z_eqb_ok); [reflexivity|].
      intros ->. apply (Hk2 z); reflexivity. }
  split.
  { intros r p Hr. rewrite Hp. rewrite nth_error_app1; [exact Hr|].
    apply nth_error_Some. congruence. }
  split; assumption.
Qed.

Lemma hook_page_lookup_witness :
  get_page (snd (hook_page (lit "menu") (Some 2%Z) sample_registry))
    (inr 2%Z) = Ret 2%nat
  /\ get_page (snd (hook_page (lit "menu") (Some 2%Z) sample_registry))
       (inl (lit "main")) = Ret 1%nat.
Proof.
  destruct (hook_page_lookup (lit "menu") (Some 2%Z) sample_registry 2
              (snd (hook_page (lit "menu") (Some 2%Z) sample_registry))
              eq_refl) as (_ & _ & Hid & Hother & _).
  split.
  - apply (Hid 2%Z). reflexivity.
  - rewrite (Hother (inl (lit "main"))); [reflexivity|discriminate|].
    intros z _. discriminate.
Defined.

Lemma same_ids_refl (d : NexDevice) : same_ids d d.
Proof. split; reflexivity. Qed.

Lemma same_ids_trans (d1 d2 d3 : NexDevice) :
  same_ids d1 d2 -> same_ids d2 d3 -> same_ids d1 d3.
Proof. intros [A1 B1] [A2 B2]. split; congruence. Qed.

Lemma framed_same_ids (d d' : NexDevice) : framed d d' -> same_ids d d'.
Proof.
  intros [HL _]. unfold layout in HL. injection HL as Hm _ Hi _.
  split; [exact Hi|].
  apply (f_equal (map pid)) in Hm. rewrite !map_map in Hm. exact Hm.
Qed.

Lemma registry_ok_same_ids (d d' : NexDevice) :
  same_ids d d' -> registry_ok d -> registry_ok d'.
Proof.
  intros [Hi Hp] H i ref Hin. rewrite Hi in *.
  destruct (H i ref Hin) as (Hget & p & Hn & Hpid). split; [exact Hget|].
  assert (Hm : nth_error (map pid (pages d')) ref = Some (Some i)).
  { rewrite Hp, nth_error_map, Hn. simpl. congruence. }
  rewrite nth_error_map in Hm.
  destruct (nth_error (pages d') ref) as [p'|]; [|discriminate].
  simpl in Hm. injection Hm as Hm. eauto.
Qed.

Lemma map_pid_set_nth (l : list Page) (n : nat) (p p' : Page) :
  nth_error l n = Some p -> pid p' = pid p ->
  map pid (set_nth n p' l) = map pid l.
Proof. intros Hn Hp. apply (map_set_nth pid l n p p' Hn Hp). Qed.

Lemma hook_widget_pid (typ nm : str) (cid : option Z) (p : Page)
  (r : res NexWidget) (p' : Page) :
  hook_widget typ nm cid p = (r, p') ->
  pid p' = pid p /\ name p' = name p
  /\ _page_switch_in_progress p' = _page_switch_in_progress p.
Proof.
  unfold hook_widget.
  destruct (dict_mem str_eqb (D_WIDGETS_BY_NAME p) nm);
    [intros H; injection H as _ <-; auto|].
  destruct (opt_mem (D_WIDGETS_BY_CID p) cid);
    [intros H; injection H as _ <-; auto|].
  destruct (WidgetFactory_create typ nm (pid p) cid);
    intros H; injection H as _ <-; auto.
Qed.

Lemma dict_get_app_old {K V} (eqb : K -> K -> bool) (d l : dict K V)
  (k : K) (v : V) :
  dict_get eqb d k = Some v -> dict_get eqb (d ++ l) k = Some v.
Proof.
  induction d as [|[k' v'] d IH]; simpl; [discriminate|].
  destruct (eqb k' k); auto.
Qed.

Lemma init_same_ids (rc : ReturnCodes) (fuel : nat) :
  sat false same_ids (init rc fuel).
Proof.
  assert (W : forall A (m : M NexDevice A),
             sat false framed m -> sat false same_ids m).
  { intros A m. apply sat_weaken. exact framed_same_ids. }
  unfold init.
  apply (sat_bind false same_ids same_ids_trans).
  { apply W. apply framed_modify; reflexivity. }
  intros _. apply (sat_bind false same_ids same_ids_trans).
  { apply (sat_lift false same_ids same_ids_refl). }
  intros c. apply (sat_bind false same_ids same_ids_trans).
  { apply W. apply framed_modify; reflexivity. }
  intros _. apply (sat_bind false same_ids same_ids_trans).
  { apply W. apply drain_framed. }
  intros _. apply (sat_bind false same_ids same_ids_trans).
  { apply (sat_get false same_ids same_ids_refl). }
  intros d0. apply (sat_bind false same_ids same_ids_trans).
  { apply W. apply (sat_for_each false framed framed_refl framed_trans).
    apply init_page_framed. }
  intros _. apply (sat_bind false same_ids same_ids_trans).
  { apply W. apply select_page_framed. }
  intros _. apply (sat_bind false same_ids same_ids_trans).
  { apply W. apply drain_framed. }
  intros _. apply sat_modify. intros d. split; reflexivity.
Qed.

(** X11: The registry of page IDs is consistent from the start and stays so:
    a fresh device has a consistent registry, and hooking a page, hooking
    a widget on a page, selecting a page, polling and initialising keep it
    consistent, whether they return or raise. *)
Theorem registry_kept :
  (forall t, registry_ok (NexDevice_init t))
  /\ (forall nm i d r d',
        registry_ok d -> hook_page nm i d = (r, d') -> registry_ok d')
  /\ (forall ref typ nm cid d r d',
        registry_ok d ->
        on_page ref (hook_widget typ nm cid) d = (r, d') -> registry_ok d')
  /\ (forall key d r d',
        registry_ok d -> select_page key d = (r, d') -> registry_ok d')
  /\ (forall rc fuel d r d',
        registry_ok d -> poll rc fuel d = (r, d') -> registry_ok d')
  /\ (forall rc fuel d r d',
        registry_ok d -> init rc fuel d = (r, d') -> registry_ok d').
Proof.
  split; [intros t i ref []|].
  split.
  { intros nm i d r d' Hok H. destruct r as [ref|e|].
    - apply hook_page_Ret in H.
      destruct H as (_ & Hi & -> & Hp & _ & Hbi & _).
      intros i0 r0 Hin. rewrite Hbi in *. rewrite Hp.
      assert (Hold : forall i0 r0, In (i0, r0) (_pages_by_id d) ->
                forall l l',
                  dict_get Z.eqb (_pages_by_id d ++ l) i0 = Some r0
                  /\ exists p, nth_error (pages d ++ l') r0 = Some p
                               /\ pid p = Some i0).
      { intros i1 r1 Hin1 l l'. destruct (Hok i1 r1 Hin1) as (Hg & p & Hn & Hpid).
        split; [apply dict_get_app_old; exact Hg|].
        exists p. split; [|exact Hpid].
        rewrite nth_error_app1; [exact Hn|].
        apply nth_error_Some. congruence. }
      destruct i as [z|].
      + apply in_app_or in Hin. destruct Hin as [Hin|[Hin|[]]].
        * apply (Hold i0 r0 Hin).
        * injection Hin as <- <-. split.
          -- rewrite (dict_get_app_new _ _ _ _ _ _ _ (opt_mem_false _ _ Hi)).
             rewrite Z.eqb_refl. reflexivity.
          -- exists (NexPage_init nm (Some z)). split; [|reflexivity].
             rewrite nth_error_app2 by lia. rewrite Nat.sub_diag. reflexivity.
      + destruct (Hold i0 r0 Hin [] [NexPage_init nm None]) as [Hg Hp'].
        rewrite app_nil_r in Hg. auto.
    - unfold hook_page in H.
      destruct (dict_mem str_eqb (_pages_by_name d) nm);
        [injection H as _ <-; exact Hok|].
      destruct (opt_mem (_pages_by_id d) i);
        [injection H as _ <-; exact Hok|discriminate].
    - unfold hook_page in H.
      destruct (dict_mem str_eqb (_pages_by_name d) nm); [discriminate|].
      destruct (opt_mem (_pages_by_id d) i); discriminate. }
  split.
  { intros ref typ nm cid d r d' Hok H. unfold on_page in H.
    destruct (nth_error (pages d) ref) as [p|] eqn:Hp;
      [|injection H as _ <-; exact Hok].
    destruct (hook_widget typ nm cid p) as [r0 p'] eqn:Hw.
    injection H as _ <-. apply hook_widget_pid in Hw.
    destruct Hw as (Hpid & _).
    apply (registry_ok_same_ids d); [|exact Hok].
    split; [reflexivity|]. simpl. apply (map_pid_set_nth _ _ p p' Hp Hpid). }
  split.
  { intros key d r d' Hok H.
    apply (registry_ok_same_ids d); [|exact Hok]. apply framed_same_ids.
    apply (select_page_framed key d r d' H). discriminate. }
  split.
  { intros rc fuel d r d' Hok H.
    apply (registry_ok_same_ids d); [|exact Hok]. apply framed_same_ids.
    apply (poll_framed rc fuel d r d' H). discriminate. }
  intros rc fuel d r d' Hok H.
  apply (registry_ok_same_ids d); [|exact Hok].
  apply (init_same_ids rc fuel d r d' H). discriminate.
Qed.

Lemma registry_kept_witness :
  registry_ok (snd (hook_page (lit "menu") (Some 2%Z)
                      (NexDevice_init (sample_transport [])))).
Proof.
  destruct registry_kept as (Hinit & Hhook & _).
  apply (Hhook (lit "menu") (Some 2%Z) (NexDevice_init (sample_transport []))
           (Ret 0%nat)
           (snd (hook_page (lit "menu") (Some 2%Z)
                   (NexDevice_init (sample_transport []))))).
  - apply Hinit.
  - reflexivity.
Defined.

Lemma hook_widget_Ret (typ nm : str) (cid : option Z) (p : Page)
  (w : NexWidget) (p' : Page) :
  hook_widget typ nm cid p = (Ret w, p') ->
  dict_mem str_eqb (D_WIDGETS_BY_NAME p) nm = false
  /\ opt_mem (D_WIDGETS_BY_CID p) cid = false
  /\ WidgetFactory_create typ nm (pid p) cid = Ret w
  /\ D_WIDGETS_BY_NAME p' = D_WIDGETS_BY_NAME p ++ [(nm, w)]
  /\ D_WIDGETS_BY_CID p'
     = match cid with
       | Some c => D_WIDGETS_BY_CID p ++ [(c, w)]
       | None => D_WIDGETS_BY_CID p
       end.
Proof.
  unfold hook_widget.
  destruct (dict_mem str_eqb (D_WIDGETS_BY_NAME p) nm) eqn:Hn; [discriminate|].
  destruct (opt_mem (D_WIDGETS_BY_CID p) cid) eqn:Hc; [discriminate|].
  destruct (WidgetFactory_create typ nm (pid p) cid) as [w0| |];
    try discriminate.
  intros H. injection H as <- <-.
  split; [reflexivity|]. split; [reflexivity|]. split; [reflexivity|].
  simpl. rewrite (dict_set_new _ _ _ _ _ _ Hn). split; [reflexivity|].
  destruct cid as [c|]; [|reflexivity].
  simpl in Hc. rewrite (dict_set_new _ _ _ _ _ _ Hc). reflexivity.
Qed.

Lemma WidgetFactory_create_Ret (typ nm : str) (i cid : option Z)
  (w : NexWidget) :
  WidgetFactory_create typ nm i cid = Ret w ->
  w_name w = nm /\ w_pid w = i
  /\ dict_get str_eqb D_FACTORY (lower typ) = Some (w_class w).
Proof.
  unfold WidgetFactory_create.
  destruct (dict_get str_eqb D_FACTORY (lower typ)) as [k|]; [|discriminate].
  intros H. injection H as <-. auto.
Qed.

(** X12: hook_widget, when it returns: the widget bears the name given and the
    ID of the page, and is of the class that the factory has for the type,
    whatever the case of its letters; it is found under its name and
    under its ID, and comes last among the widgets of the page; what was
    found under another key is found as before. *)
Theorem hook_widget_lookup (typ nm : str) (cid : option Z) (p : Page)
  (w : NexWidget) (p' : Page)
  (Hhook : hook_widget typ nm cid p = (Ret w, p')) :
  w_name w = nm /\ w_pid w = pid p
  /\ dict_get str_eqb D_FACTORY (lower typ) = Some (w_class w)
  /\ widget p' (inl nm) = Ret w
  /\ (forall c, cid = Some c -> widget p' (inr c) = Ret w)
  /\ (forall key,
        key <> inl nm -> (forall c, cid = Some c -> key <> inr c) ->
        widget p' key = widget p key)
  /\ widgets p' = widgets p ++ [w].
Proof.
  apply hook_widget_Ret in Hhook.
  destruct Hhook as (Hn & Hc & Hw & Hbn & Hbc).
  apply WidgetFactory_create_Ret in Hw. destruct Hw as (Hname & Hpid & Hk).
  split; [exact Hname|]. split; [exact Hpid|]. split; [exact Hk|].
  split.
  { unfold widget. rewrite Hbn.
    rewrite (dict_get_app_new _ _ _ _ _ _ _ (dict_mem_false _ _ _ Hn)).
    rewrite (eqb_same _ _ str_eqb_eq). reflexivity. }
  split.
  { intros c ->. unfold widget. rewrite Hbc.
    rewrite (dict_get_app_new _ _ _ _ _ _ _ (opt_mem_false _ _ Hc)).
    rewrite Z.eqb_refl. reflexivity. }
  split.
  { intros [nm0|c0] Hk1 Hk2; unfold widget.
    - rewrite Hbn. rewrite <- (dict_set_new _ _ _ _ _ w Hn).
      rewrite (dict_get_set_other _ _ _ str_eqb_eq); [reflexivity|congruence].
    - rewrite Hbc. destruct cid as [c|]; [|reflexivity].
      simpl in Hc. rewrite <- (dict_set_new _ _ _ _ _ w Hc).
      rewrite (dict_get_set_other _ _ _ Z_eqb_ok); [reflexivity|].
      intros ->. apply (Hk2 c); reflexivity. }
  unfold widgets. rewrite Hbn, map_app. reflexivity.
Qed.

Lemma hook_widget_lookup_witness :
  widget (snd (hook_widget (lit "Slider") (lit "h0") (Some 4%Z) sample_page))
    (inr 4%Z)
  = Ret {| w_class := NexSlider; w_name := lit "h0"; w_pid := Some 0%Z;
           w_cid := Some 4%Z |}
  /\ widget (snd (hook_widget (lit "Slider") (lit "h0") (Some 4%Z)
                    sample_page)) (inr 1%Z)
     = Ret (sample_button "b0" 1).
Proof.
  destruct (hook_widget_lookup (lit "Slider") (lit "h0") (Some 4%Z)
              sample_page
              {| w_class := NexSlider; w_name := lit "h0";
                 w_pid := Some 0%Z; w_cid := Some 4%Z |}
              (snd (hook_widget (lit "Slider") (lit "h0") (Some 4%Z)
                      sample_page)) eq_refl)
    as (_ & _ & _ & _ & Hid & Hother & _).
  split.
  - apply (Hid 4%Z). reflexivity.
  - rewrite (Hother (inr 1%Z)); [reflexivity|discriminate|].
    intros c Hc. injection Hc as <-. discriminate.
Defined.

Lemma hook_widget_widgets (typ nm : str) (cid : option Z) (p : Page)
  (w : NexWidget) (p' : Page) :
  hook_widget typ nm cid p = (Ret w, p') -> widgets p' = widgets p ++ [w].
Proof.
  intros H. apply hook_widget_Ret in H. destruct H as (_ & _ & _ & Hbn & _).
  unfold widgets. rewrite Hbn, map_app. reflexivity.
Qed.

(** X13: hook_widgets hooks its widgets in order and is not undone by a
    failure: when it returns, the widgets of the page are those it had
    followed by the new ones, in the order given; when it raises, the
    widgets given before the one that failed are hooked and stay hooked. *)
Theorem hook_widgets_in_order (widget_data : list (str * str * option Z)) :
  forall p r p',
    hook_widgets widget_data p = (r, p') ->
    match r with
    | Ret ws =>
        widgets p' = widgets p ++ ws
        /\ map w_name ws = map (fun x => snd (fst x)) widget_data
    | Raise e =>
        exists done x rest ws,
          widget_data = done ++ x :: rest
          /\ hook_widgets done p = (Ret ws, p')
          /\ widgets p' = widgets p ++ ws
          /\ hook_widget (fst (fst x)) (snd (fst x)) (snd x) p'
             = (Raise e, p')
    | Timeout => False
    end.
Proof.
  induction widget_data as [|[[typ nm] cid] l IH]; intros p r p' H.
  - injection H as <- <-. rewrite app_nil_r. auto.
  - cbn [hook_widgets] in H. unfold bind in H.
    destruct (hook_widget typ nm cid p) as [[w|e|] p1] eqn:Hw.
    + destruct (hook_widgets l p1) as [[ws|e|] p2] eqn:Hl.
      * injection H as <- <-. specialize (IH p1 _ _ Hl). simpl in IH.
        destruct IH as [Hws Hnames].
        pose proof (hook_widget_widgets _ _ _ _ _ _ Hw) as Hp1.
        apply hook_widget_Ret in Hw.
        destruct Hw as (_ & _ & Hc & _).
        apply WidgetFactory_create_Ret in Hc. destruct Hc as (Hname & _).
        split.
        -- rewrite Hws, Hp1, <- app_assoc. reflexivity.
        -- simpl. rewrite Hname, Hnames. reflexivity.
      * injection H as <- <-. specialize (IH p1 _ _ Hl). simpl in IH.
        destruct IH as (done & x & rest & ws & -> & Hdone & Hws & Hx).
        exists ((typ, nm, cid) :: done), x, rest, (w :: ws).
        split; [reflexivity|]. split.
        -- cbn [hook_widgets]. unfold bind. rewrite Hw, Hdone. reflexivity.
        -- split; [|exact Hx].
           rewrite Hws, (hook_widget_widgets _ _ _ _ _ _ Hw), <- app_assoc.
           reflexivity.
      * injection H as <- <-. apply (IH p1 _ _ Hl).
    + injection H as <- <-.
      pose proof (hook_widget_Raise typ nm cid p e) as Hr.
      rewrite Hw in Hr. specialize (Hr eq_refl).
      injection Hr as ->.
      exists [], (typ, nm, cid), l, []. simpl. rewrite app_nil_r.
      repeat split. exact Hw.
    + injection H as <- <-. unfold hook_widget in Hw.
      destruct (dict_mem str_eqb (D_WIDGETS_BY_NAME p) nm); [discriminate|].
      destruct (opt_mem (D_WIDGETS_BY_CID p) cid); [discriminate|].
      unfold WidgetFactory_create in Hw.
      destruct (dict_get str_eqb D_FACTORY (lower typ)); discriminate.
Qed.

Lemma hook_widgets_in_order_witness :
  exists done x rest ws,
    [(lit "text", lit "t1", Some 2%Z); (lit "text", lit "b0", Some 3%Z);
     (lit "text", lit "t2", Some 4%Z)] = done ++ x :: rest
    /\ hook_widgets done sample_page
       = (Ret ws,
          snd (hook_widgets
                 [(lit "text", lit "t1", Some 2%Z);
                  (lit "text", lit "b0", Some 3%Z);
                  (lit "text", lit "t2", Some 4%Z)] sample_page))
    /\ widgets (snd (hook_widgets
                       [(lit "text", lit "t1", Some 2%Z);
                        (lit "text", lit "b0", Some 3%Z);
                        (lit "text", lit "t2", Some 4%Z)] sample_page))
       = widgets sample_page ++ ws
    /\ hook_widget (fst (fst x)) (snd (fst x)) (snd x)
         (snd (hook_widgets
                 [(lit "text", lit "t1", Some 2%Z);
                  (lit "text", lit "b0", Some 3%Z);
                  (lit "text", lit "t2", Some 4%Z)] sample_page))
       = (Raise NexComponentNameException,
          snd (hook_widgets
                 [(lit "text", lit "t1", Some 2%Z);
                  (lit "text", lit "b0", Some 3%Z);
                  (lit "text", lit "t2", Some 4%Z)] sample_page)).
Proof.
  apply (hook_widgets_in_order
           [(lit "text", lit "t1", Some 2%Z); (lit "text", lit "b0", Some 3%Z);
            (lit "text", lit "t2", Some 4%Z)] sample_page
           (Raise NexComponentNameException)).
  reflexivity.
Defined.

Lemma dict_get_In_values {K V} (eqb : K -> K -> bool) (d : dict K V) (k : K)
  (v : V) :
  dict_get eqb d k = Some v -> In v (map snd d).
Proof.
  induction d as [|[k' v'] d IH]; simpl; [discriminate|].
  destruct (eqb k' k).
  - intros H. injection H as ->. auto.
  - auto.
Qed.

(** X14: A widget that a page finds under an ID is one of the widgets it
    lists, and is found under its name too: this holds of a new page, and
    hooking a widget keeps it, so a touch event can only reach a widget
    that [widgets] enumerates. *)
Theorem widgets_by_id_listed :
  (forall nm i, page_ok (NexPage_init nm i))
  /\ (forall typ nm cid p r p',
        page_ok p -> hook_widget typ nm cid p = (r, p') -> page_ok p')
  /\ (forall p c w,
        page_ok p -> widget p (inr c) = Ret w ->
        widget p (inl (w_name w)) = Ret w /\ In w (widgets p)).
Proof.
  split; [intros nm i c w H; discriminate|].
  split.
  - intros typ nm cid p r p' Hok H. destruct r as [w|e|].
    + apply hook_widget_Ret in H.
      destruct H as (Hn & Hc & Hw & Hbn & Hbc).
      apply WidgetFactory_create_Ret in Hw. destruct Hw as (Hname & _).
      intros c0 w0 Hget. rewrite Hbn.
      assert (Hold : forall c1 w1,
                dict_get Z.eqb (D_WIDGETS_BY_CID p) c1 = Some w1 ->
                dict_get str_eqb (D_WIDGETS_BY_NAME p ++ [(nm, w)]) (w_name w1)
                = Some w1).
      { intros c1 w1 H1. apply dict_get_app_old. apply (Hok c1 w1 H1). }
      rewrite Hbc in Hget. destruct cid as [c|]; [|apply (Hold c0 w0 Hget)].
      destruct (dict_get Z.eqb (D_WIDGETS_BY_CID p) c0) as [w1|] eqn:H1.
      * rewrite (dict_get_app_old _ _ _ _ _ H1) in Hget.
        injection Hget as <-. apply (Hold c0 w1 H1).
      * rewrite (dict_get_app_new _ _ _ _ _ _ _ H1) in Hget.
        destruct (Z.eqb c c0); [|discriminate]. injection Hget as <-.
        rewrite Hname.
        rewrite (dict_get_app_new _ _ _ _ _ _ _ (dict_mem_false _ _ _ Hn)).
        rewrite (eqb_same _ _ str_eqb_eq). reflexivity.
    + pose proof (hook_widget_Raise typ nm cid p e) as Hr.
      rewrite H in Hr. specialize (Hr eq_refl). injection Hr as ->.
      exact Hok.
    + pose proof (hook_widget_pid _ _ _ _ _ _ H) as _.
      unfold hook_widget in H.
      destruct (dict_mem str_eqb (D_WIDGETS_BY_NAME p) nm); [discriminate|].
      destruct (opt_mem (D_WIDGETS_BY_CID p) cid); [discriminate|].
      unfold WidgetFactory_create in H.
      destruct (dict_get str_eqb D_FACTORY (lower typ)); discriminate.
  - intros p c w Hok H. unfold widget in H.
    destruct (dict_get Z.eqb (D_WIDGETS_BY_CID p) c) as [w0|] eqn:Hc;
      [|discriminate].
    injection H as ->. specialize (Hok c w Hc). split.
    + unfold widget. rewrite Hok. reflexivity.
    + unfold widgets. apply (dict_get_In_values _ _ _ _ Hok).
Qed.

Lemma widgets_by_id_listed_witness :
  In (sample_button "b0" 1) (widgets sample_page).
Proof.
  destruct widgets_by_id_listed as (Hnew & Hhook & Hfind).
  apply (Hfind sample_page 1%Z (sample_button "b0" 1)); [|reflexivity].
  apply (Hhook (lit "button") (lit "b0") (Some 1%Z)
           (NexPage_init (lit "main") (Some 0%Z)) (Ret (sample_button "b0" 1))
           sample_page).
  - apply Hnew.
  - reflexivity.
Defined.

(** ** More on [poll] *)

Lemma res_bind_returns {A B} (r : res A) (k : A -> res B) :
  r <> Timeout -> (forall a, k a <> Timeout) -> res_bind r k <> Timeout.
Proof.
  destruct r; simpl; intros H1 H2; [apply H2|discriminate|].
  exfalso. apply H1. reflexivity.
Qed.

Lemma utf8_decode_total (n : nat) :
  forall bs, (length bs <= n)%nat -> utf8_decode bs <> Timeout.
Proof.
  induction n as [|n IH]; intros bs Hl.
  - destruct bs; [discriminate|simpl in Hl; lia].
  - destruct bs as [|b0 r0]; [discriminate|]. simpl in Hl.
    cbn [utf8_decode]. utf8_split; try discriminate;
      (apply res_bind_returns; [apply IH; simpl in Hl |- *; lia|discriminate]).
Qed.

Ltac no_timeout :=
  repeat (apply res_bind_returns; [|intros ?]);
  try discriminate;
  try (unfold getitem; match goal with
       | |- context [nth_error ?l ?n] => destruct (nth_error l n)
       end; discriminate).

Lemma parse_head_total (rc : ReturnCodes) (k : EventClass) (msg : bytes) :
  parse_head rc k msg <> Timeout.
Proof.
  unfold parse_head. no_timeout.
  - unfold ensure_has_end. destruct (has_end msg); discriminate.
  - unfold ensure_has_expected_length.
    destruct (EXPECTED_LENGTH k); [|discriminate].
    destruct (negb _); discriminate.
  - unfold Return_Code. destruct (existsb _ _); discriminate.
  - unfold ensure_has_expected_first_byte, format_d.
    destruct (FIRST_BYTE rc k); [destruct (negb _)|];
      destruct (Code_is_int rc); discriminate.
Qed.

Lemma Event_Touch_total (v : N) : Event_Touch v <> Timeout.
Proof.
  unfold Event_Touch. destruct (v =? 1)%N; [discriminate|].
  destruct (v =? 0)%N; discriminate.
Qed.

(** The parser has no loop: it returns or raises. *)
Lemma MsgEvent_parse_total (rc : ReturnCodes) (msg : bytes) :
  MsgEvent_parse rc msg <> Timeout.
Proof.
  unfold MsgEvent_parse. destruct msg as [|b rest]; [discriminate|].
  destruct (D_BYTE0_EVENT_get rc (Byte.to_N b)) as [k|].
  - destruct k; simpl; try discriminate;
      unfold TouchEvent_parse, CurrentPageIDHeadEvent_parse,
        PositionHeadEvent_parse, SleepPositionHeadEvent_parse,
        StringHeadEvent_parse, NumberHeadEvent_parse,
        CommandSucceeded_parse, EventLaunched_parse;
      (apply res_bind_returns; [apply parse_head_total|intros ?]);
      no_timeout; try apply Event_Touch_total.
    apply (utf8_decode_total _ _ (le_n _)).
  - apply res_bind_returns.
    + unfold Return_Code. destruct (existsb _ _); discriminate.
    + intros code. destruct (_ && _); [discriminate|].
      destruct (existsb _ _); discriminate.
Qed.

Lemma read_loop_total (rc : ReturnCodes) (burst : list bytes)
  (more : list (list bytes)) :
  fst (read_loop rc burst more) <> Timeout.
Proof.
  induction burst as [|data burst IH]; simpl; [discriminate|].
  destruct (is_nil data); [discriminate|].
  pose proof (MsgEvent_parse_total rc data) as Hp.
  destruct (MsgEvent_parse rc data) as [e| |]; try discriminate.
  - destruct (read_loop rc burst more) as [r rx']. simpl in *.
    destruct r; simpl; congruence.
  - congruence.
Qed.

Lemma read_events_total (rc : ReturnCodes) (d : NexDevice) :
  fst (read_events rc d) <> Timeout.
Proof.
  unfold read_events. destruct (rx (transport d)) as [|burst more];
    [discriminate|].
  pose proof (read_loop_total rc burst more) as H.
  destruct (read_loop rc burst more). exact H.
Qed.

Lemma touched_refl (d : NexDevice) : touched d d.
Proof.
  repeat split. exists []. rewrite app_nil_r. split; [reflexivity|constructor].
Qed.

Lemma touched_trans (d1 d2 d3 : NexDevice) :
  touched d1 d2 -> touched d2 d3 -> touched d1 d3.
Proof.
  intros (A1 & B1 & C1 & D1 & E1 & F1 & G1 & es1 & H1 & T1)
         (A2 & B2 & C2 & D2 & E2 & F2 & G2 & es2 & H2 & T2).
  repeat split; try congruence.
  exists (es1 ++ es2). split.
  - rewrite H2, H1, app_assoc. reflexivity.
  - apply Forall_app. auto.
Qed.

Lemma dispatch_touch_touched (page_id cid : N) (pe : Touch) :
  sat false touched (dispatch_touch page_id cid pe).
Proof.
  intros d r d' H _. apply dispatch_touch_spec in H.
  destruct H as [->|(page & w & [->| ->])].
  - apply touched_refl.
  - repeat split. exists [pressed page w]. split; [reflexivity|].
    repeat constructor.
  - repeat split. exists [released page w]. split; [reflexivity|].
    repeat constructor.
Qed.

Lemma dispatch_touch_total (page_id cid : N) (pe : Touch) (d : NexDevice) :
  fst (dispatch_touch page_id cid pe d) <> Timeout.
Proof.
  unfold dispatch_touch.
  destruct (get_page d (inr (Z.of_N page_id))) as [page| |];
    try discriminate.
  destruct (nth_error (pages d) page) as [p|]; try discriminate.
  destruct (dict_get Z.eqb (D_WIDGETS_BY_CID p) (Z.of_N cid)) as [w|];
    try discriminate.
  destruct (touchable (w_class w)); try discriminate.
  destruct pe; discriminate.
Qed.

Lemma scan_empty (fuel : nat) (e : event) (d : NexDevice) :
  _commands d = [] -> scan fuel e d = (Ret tt, d).
Proof. intros H. destruct fuel; simpl; rewrite H; reflexivity. Qed.

(** With an empty queue every event is dealt with at once. *)
Lemma dispatch_idle (fuel : nat) (e : event) (d : NexDevice) (r : res unit)
  (d' : NexDevice) :
  _commands d = [] -> dispatch fuel e d = (r, d') ->
  r <> Timeout /\ touched d d'.
Proof.
  intros Hq H.
  assert (Hscan : scan fuel e d = (r, d') -> r <> Timeout /\ touched d d').
  { rewrite (scan_empty fuel e d Hq). intros E. injection E as <- <-.
    split; [discriminate|apply touched_refl]. }
  destruct e; simpl in H; try (apply Hscan; exact H).
  match type of H with
  | dispatch_touch ?pg ?c ?pe _ = _ =>
      split;
      [pose proof (dispatch_touch_total pg c pe d) as Ht;
       rewrite H in Ht; exact Ht
      |apply (dispatch_touch_touched pg c pe d r d' H); discriminate]
  end.
Qed.

Lemma for_each_dispatch_idle (fuel : nat) (evs : list event) :
  forall d r d',
    _commands d = [] -> for_each (dispatch fuel) evs d = (r, d') ->
    r <> Timeout /\ touched d d'.
Proof.
  induction evs as [|e evs IH]; intros d r d' Hq H.
  - injection H as <- <-. split; [discriminate|apply touched_refl].
  - cbn [for_each] in H. unfold bind in H.
    destruct (dispatch fuel e d) as [r1 d1] eqn:E1.
    destruct (dispatch_idle fuel e d r1 d1 Hq E1) as [Hr1 Ht1].
    destruct r1 as [[]|e1|].
    + destruct (IH d1 r d') as [Hr Ht]; [|exact H|].
      * destruct Ht1 as [-> _]. exact Hq.
      * split; [exact Hr|]. apply touched_trans with d1; assumption.
    + injection H as <- <-. split; [discriminate|exact Ht1].
    + exfalso. apply Hr1. reflexivity.
Qed.

(** X15: poll with nothing in the queue: it comes back (the scan that may run
    for ever is never entered), whatever the input; it writes nothing and
    emits no signal of a command, and the queue is still empty, even on an
    initialised device, where the refresh of the current page enqueues
    nothing since no widget class names a variable to refresh.  Frames
    that are no touch events are dropped. *)
Theorem poll_idle (rc : ReturnCodes) (fuel : nat) (d : NexDevice)
  (r : res bool) (d' : NexDevice)
  (Hq : _commands d = []) (Hpoll : poll rc fuel d = (r, d')) :
  (r = Ret true \/ exists e, r = Raise e)
  /\ _commands d' = []
  /\ pages d' = pages d
  /\ exists es, effects d' = effects d ++ es /\ Forall touch_signal es.
Proof.
  unfold poll, bind in Hpoll.
  destruct (read_events rc d) as [r0 d0] eqn:E0.
  pose proof (read_events_total rc d) as Hr0. rewrite E0 in Hr0.
  destruct (read_events_same rc d r0 d0 E0) as [t ->].
  assert (Hsame : forall d1, touched (set_transport d t) d1 ->
            _commands d1 = [] /\ pages d1 = pages d
            /\ exists es, effects d1 = effects d ++ es
                          /\ Forall touch_signal es).
  { intros d1 (A & _ & C & _ & _ & _ & _ & es & HE & HT).
    split; [rewrite A; exact Hq|]. split; [exact C|]. exists es. auto. }
  destruct r0 as [evs|e0|].
  - destruct (for_each (dispatch fuel) evs (set_transport d t))
      as [r1 d1] eqn:E1.
    destruct (for_each_dispatch_idle fuel evs (set_transport d t) r1 d1
                Hq E1) as [Hr1 Ht1].
    destruct (Hsame d1 Ht1) as (Hq1 & Hp1 & Hes1).
    destruct r1 as [[]|e1|].
    + unfold transmit in Hpoll. rewrite Hq1 in Hpoll.
      destruct (idle_refresh d1) as [r3 d3] eqn:E3.
      assert (d3 = d1) by (apply (idle_refresh_same d1 r3 d3 E3)). subst d3.
      destruct r3 as [[]|e3|].
      * unfold get, ret in Hpoll. injection Hpoll as <- <-.
        rewrite Hq1. split; [left; reflexivity|auto].
      * injection Hpoll as <- <-. split; [right; eauto|auto].
      * exfalso. unfold idle_refresh in E3.
        destruct (_initialized d1 && is_nil (_commands d1));
          [|discriminate].
        destruct (_current_page d1) as [page|]; [|discriminate].
        unfold page_refresh, bind, read_page in E3.
        destruct (nth_error (pages d1) page) as [p|]; [|discriminate].
        destruct (_page_switch_in_progress p); [discriminate|].
        rewrite for_each_skip in E3; [discriminate|].
        intros w d2. reflexivity.
    + injection Hpoll as <- <-. split; [right; eauto|auto].
    + exfalso. apply Hr1. reflexivity.
  - injection Hpoll as <- <-. split; [right; eauto|].
    apply Hsame. apply touched_refl.
  - exfalso. apply Hr0. reflexivity.
Qed.

Lemma poll_idle_witness :
  (fst (poll nextion 0 (sample_device [] [frame_launched; frame_succeeded]))
   = Ret true
   \/ exists e,
        fst (poll nextion 0
               (sample_device [] [frame_launched; frame_succeeded]))
        = Raise e)
  /\ _commands (snd (poll nextion 0
                       (sample_device [] [frame_launched; frame_succeeded])))
     = [].
Proof.
  destruct (poll_idle nextion 0
              (sample_device [] [frame_launched; frame_succeeded])
              (fst (poll nextion 0
                      (sample_device [] [frame_launched; frame_succeeded])))
              (snd (poll nextion 0
                      (sample_device [] [frame_launched; frame_succeeded])))
              eq_refl eq_refl) as (Hr & Hq & _).
  split; [exact Hr|exact Hq].
Defined.

Lemma dispatch_touch_only (fuel : nat) (e : event) :
  is_touch e -> sat false touched (dispatch fuel e).
Proof.
  intros He. destruct e; try discriminate He. simpl.
  apply dispatch_touch_touched.
Qed.

(** X16: Touch events never reach the queue of commands: whatever the queue
    holds, and with no fuel at all, a run of touch events comes back; the
    queue, the transport and the registry are as before, and the session
    has emitted nothing but signals of widgets. *)
Theorem touch_events_bypass_queue (fuel : nat) (evs : list event) :
  Forall is_touch evs ->
  forall d r d',
    for_each (dispatch fuel) evs d = (r, d') ->
    r <> Timeout
    /\ _commands d' = _commands d /\ transport d' = transport d
    /\ pages d' = pages d
    /\ exists es, effects d' = effects d ++ es /\ Forall touch_signal es.
Proof.
  induction 1 as [|e evs He _ IH]; intros d r d' H.
  - injection H as <- <-. split; [discriminate|].
    repeat split. exists []. rewrite app_nil_r. auto.
  - cbn [for_each] in H. unfold bind in H.
    destruct (dispatch fuel e d) as [r1 d1] eqn:E1.
    assert (T1 : touched d d1).
    { apply (dispatch_touch_only fuel e He d r1 d1 E1). discriminate. }
    assert (Hr1 : r1 <> Timeout).
    { destruct e; try discriminate He. simpl in E1.
      match type of E1 with
      | dispatch_touch ?pg ?c ?pe _ = _ =>
          pose proof (dispatch_touch_total pg c pe d) as Ht
      end.
      rewrite E1 in Ht. exact Ht. }
    destruct T1 as (A1 & B1 & C1 & _ & _ & _ & _ & es1 & HE1 & HT1).
    destruct r1 as [[]|e1|].
    + destruct (IH d1 r d' H) as (Hr & A & B & C & es & HE & HT).
      split; [exact Hr|]. repeat split; try congruence.
      exists (es1 ++ es). split.
      * rewrite HE, HE1, app_assoc. reflexivity.
      * apply Forall_app. auto.
    + injection H as <- <-. split; [discriminate|].
      repeat split; try assumption. eauto.
    + exfalso. apply Hr1. reflexivity.
Qed.

Lemma touch_events_bypass_queue_witness :
  _commands
    (snd (for_each (dispatch 0)
            [mkTouchEvent 101 0 1 Press; mkTouchEvent 101 0 1 Release]
            (sample_device [cmd_A; cmd_B] [])))
  = [cmd_A; cmd_B].
Proof.
  destruct (touch_events_bypass_queue 0
              [mkTouchEvent 101 0 1 Press; mkTouchEvent 101 0 1 Release])
    with (d := sample_device [cmd_A; cmd_B] [])
         (r := fst (for_each (dispatch 0)
                      [mkTouchEvent 101 0 1 Press;
                       mkTouchEvent 101 0 1 Release]
                      (sample_device [cmd_A; cmd_B] [])))
         (d' := snd (for_each (dispatch 0)
                       [mkTouchEvent 101 0 1 Press;
                        mkTouchEvent 101 0 1 Release]
                       (sample_device [cmd_A; cmd_B] [])))
    as (_ & Hq & _).
  - repeat constructor.
  - reflexivity.
  - exact Hq.
Defined.

Lemma for_each_app {A} (f : A -> M NexDevice unit) (a b : list A)
  (d : NexDevice) :
  for_each f (a ++ b) d = (for_each f a ;;; for_each f b)%m d.
Proof.
  revert d. induction a as [|x a IH]; intros d; simpl.
  - reflexivity.
  - unfold bind. destruct (f x d) as [[[]|e|] d1]; try reflexivity.
    rewrite IH. reflexivity.
Qed.

Lemma layout_page_cid (d d' : NexDevice) (ref : nat) (p : Page) :
  layout d' = layout d ->
  nth_error (pages d) ref = Some p ->
  exists p',
    nth_error (pages d') ref = Some p'
    /\ D_WIDGETS_BY_CID p' = D_WIDGETS_BY_CID p.
Proof.
  intros HL Hp. unfold layout in HL. injection HL as Hm _ _ _.
  assert (H : nth_error (map (fun p => set_switching p false) (pages d')) ref
              = Some (set_switching p false)).
  { rewrite Hm, nth_error_map, Hp. reflexivity. }
  rewrite nth_error_map in H.
  destruct (nth_error (pages d') ref) as [p'|]; [|discriminate].
  simpl in H. injection H as H. exists p'. split; [reflexivity|].
  destruct p, p'. unfold set_switching in H. simpl in *. congruence.
Qed.

Lemma dispatch_touch_outcome (page_id cid : N) (pe : Touch) (d : NexDevice) :
  fst (dispatch_touch page_id cid pe d) = Ret tt
  \/ fst (dispatch_touch page_id cid pe d) = Raise AttributeError.
Proof.
  unfold dispatch_touch.
  destruct (get_page d (inr (Z.of_N page_id))) as [page| |]; auto.
  destruct (nth_error (pages d) page) as [p|]; auto.
  destruct (dict_get Z.eqb (D_WIDGETS_BY_CID p) (Z.of_N cid)) as [w|]; auto.
  destruct (touchable (w_class w)); auto.
  destruct pe; auto.
Qed.

(** A run of touch events returns or raises AttributeError, and leaves
    alone what touch events leave alone. *)
Lemma touch_run (fuel : nat) (evs : list event) :
  Forall is_touch evs ->
  forall d r d',
    for_each (dispatch fuel) evs d = (r, d') ->
    (r = Ret tt \/ r = Raise AttributeError) /\ touched d d'.
Proof.
  induction 1 as [|e evs He _ IH]; intros d r d' H.
  - injection H as <- <-. split; [auto|apply touched_refl].
  - cbn [for_each] in H. unfold bind in H.
    destruct (dispatch fuel e d) as [r1 d1] eqn:E1.
    assert (T1 : touched d d1).
    { apply (dispatch_touch_only fuel e He d r1 d1 E1). discriminate. }
    assert (Hr1 : r1 = Ret tt \/ r1 = Raise AttributeError).
    { destruct e; try discriminate He. simpl in E1.
      match type of E1 with
      | dispatch_touch ?pg ?c ?pe _ = _ =>
          pose proof (dispatch_touch_outcome pg c pe d) as Ht
      end.
      rewrite E1 in Ht. exact Ht. }
    destruct Hr1 as [-> | ->].
    + destruct (IH d1 r d' H) as [Hr T]. split; [exact Hr|].
      apply touched_trans with d1; assumption.
    + injection H as <- <-. split; [auto|exact T1].
Qed.

(** X17: A touch event for a widget that has no touch signals (a picture, a
    QR code) makes poll raise AttributeError: the branch reads the
    attribute [pressed] or [released] of the widget, which only the
    touchable classes have, and catches KeyError alone.  The events read
    before it are dispatched as usual, and what they do stays done; the
    touch event and the events read after it are lost, and the call sends
    nothing.  When only touch events come before it, or none, the queue
    and the pages are as they were. *)
Theorem touch_on_plain_widget (rc : ReturnCodes) (fuel : nat)
  (d d0 : NexDevice) (pre : list event) (code page_id cid : N) (pe : Touch)
  (post : list event) (ref : nat) (p : Page) (w : NexWidget)
  (Hread : read_events rc d
           = (Ret (pre ++ mkTouchEvent code page_id cid pe :: post), d0))
  (Hpage : get_page d (inr (Z.of_N page_id)) = Ret ref)
  (Hp : nth_error (pages d) ref = Some p)
  (Hw : widget p (inr (Z.of_N cid)) = Ret w)
  (Hplain : touchable (w_class w) = false) :
  (exists r1 d1 es,
     for_each (dispatch fuel) pre d0 = (r1, d1)
     /\ poll rc fuel d
        = (match r1 with
           | Ret _ => Raise AttributeError
           | Raise x => Raise x
           | Timeout => Timeout
           end, d1)
     /\ effects d1 = effects d ++ es /\ writes es = [])
  /\ (Forall is_touch pre ->
      exists d1 es,
        poll rc fuel d = (Raise AttributeError, d1)
        /\ _commands d1 = _commands d /\ pages d1 = pages d
        /\ effects d1 = effects d ++ es /\ Forall touch_signal es)
  /\ (pre = [] ->
      poll rc fuel d = (Raise AttributeError, d0)
      /\ _commands d0 = _commands d /\ effects d0 = effects d).
Proof.
  destruct (read_events_same rc d _ d0 Hread) as [t ->].
  set (d0 := set_transport d t) in *.
  destruct (for_each (dispatch fuel) pre d0) as [r1 d1] eqn:E1.
  assert (C1 : calm d0 d1).
  { apply (sat_for_each false calm calm_refl calm_trans
             (dispatch fuel) pre (dispatch_calm fuel) d0 r1 d1 E1).
    discriminate. }
  destruct C1 as [[HL1 _] (es & HE1 & HW1)].
  assert (Hpoll : poll rc fuel d
                  = (match r1 with
                     | Ret _ => Raise AttributeError
                     | Raise x => Raise x
                     | Timeout => Timeout
                     end, d1)).
  { unfold poll, bind. rewrite Hread. rewrite for_each_app. unfold bind.
    rewrite E1. destruct r1 as [[]|x|]; try reflexivity.
    cbn [for_each dispatch]. unfold bind, dispatch_touch.
    assert (Hpage1 : get_page d1 (inr (Z.of_N page_id)) = Ret ref).
    { unfold get_page in *. rewrite (layout_ids d0 d1 HL1). exact Hpage. }
    rewrite Hpage1.
    destruct (layout_page_cid d0 d1 ref p HL1 Hp) as (p1 & Hp1 & Hcid).
    rewrite Hp1, Hcid. unfold widget in Hw.
    destruct (dict_get Z.eqb (D_WIDGETS_BY_CID p) (Z.of_N cid)) as [w0|];
      [|discriminate].
    injection Hw as ->. rewrite Hplain. reflexivity. }
  split; [|split].
  - exists r1, d1, es. split; [reflexivity|]. split; [exact Hpoll|].
    split; [exact HE1|exact HW1].
  - intros Htouch.
    destruct (touch_run fuel pre Htouch d0 r1 d1 E1)
      as (Hr1 & Hq1 & _ & Hp1 & _ & _ & _ & _ & es1 & HE & HT).
    exists d1, es1. split.
    + rewrite Hpoll. destruct Hr1 as [-> | ->]; reflexivity.
    + repeat split; assumption.
  - intros ->. simpl in E1. injection E1 as <- <-.
    split; [exact Hpoll|]. split; reflexivity.
Qed.

Lemma touch_on_plain_widget_witness :
  (exists d1,
     poll nextion 1 sample_gallery = (Raise AttributeError, d1)
     /\ _commands d1 = [sample_command Command SENT "A"]
     /\ effects d1 = [])
  /\ (exists d1,
        poll nextion 1 sample_gallery_answered = (Raise AttributeError, d1)
        /\ _commands d1 = []
        /\ effects d1
           = [successful (command (sample_command Command SENT "A"))]).
Proof.
  split.
  - destruct (touch_on_plain_widget nextion 1 sample_gallery
                (set_transport sample_gallery {| rx := []; stale := [] |})
                [] 101 0 2 Press [mkCommandSucceeded] 0
                {| name := lit "main"; pid := Some 0%Z;
                   D_WIDGETS_BY_NAME := [(lit "p0", sample_picture)];
                   D_WIDGETS_BY_CID := [(2%Z, sample_picture)];
                   _page_switch_in_progress := false |}
                sample_picture eq_refl eq_refl eq_refl eq_refl eq_refl)
      as (_ & _ & H).
    destruct (H eq_refl) as (Hpoll & Hq & He).
    eexists. split; [exact Hpoll|]. split; reflexivity.
  - destruct (touch_on_plain_widget nextion 1 sample_gallery_answered
                (set_transport sample_gallery_answered
                   {| rx := []; stale := [] |})
                [mkCommandSucceeded] 101 0 2 Press [] 0
                {| name := lit "main"; pid := Some 0%Z;
                   D_WIDGETS_BY_NAME := [(lit "p0", sample_picture)];
                   D_WIDGETS_BY_CID := [(2%Z, sample_picture)];
                   _page_switch_in_progress := false |}
                sample_picture eq_refl eq_refl eq_refl eq_refl eq_refl)
      as ((r1 & d1 & es & Hrun & Hpoll & He & _) & _).
    vm_compute in Hrun. injection Hrun as <- <-.
    eexists. split; [exact Hpoll|]. split; reflexivity.
Defined.

(** ** Answers and the queue *)

Lemma length_set_nth {A} (n : nat) (a : A) (l : list A) :
  length (set_nth n a l) = length l.
Proof.
  unfold set_nth. revert n. induction l as [|x l IH]; intros [|n]; simpl;
    try reflexivity.
  f_equal. apply IH.
Qed.

Lemma feed_kept (c : CommandBase) (older : list CommandBase) (e : event)
  (d : NexDevice) (r : res unit) (d' : NexDevice) :
  feed c older e d = (r, d') -> kept d d'.
Proof.
  unfold feed. destruct (CommandBase_event c e) as [c' [s|]].
  - unfold bind at 1, modify at 1. unfold bind.
    destruct (emit_signal c' s (set_commands d (c' :: older)))
      as [r1 d1] eqn:E1.
    destruct (emit_signal_spec _ _ _ _ _ E1)
      as (_ & _ & _ & Ht & Hi & Hcp & _ & _ & _ & Hp & _).
    simpl in Ht, Hi, Hcp, Hp.
    assert (K : kept d d1).
    { unfold kept. rewrite Ht, Hcp, Hi, Hp. repeat split.
      apply after_slots_layout. }
    destruct r1 as [[]| |]; unfold pop, modify; intros H;
      injection H as _ <-; exact K.
  - unfold bind, modify, ret. intros H. injection H as _ <-. repeat split.
Qed.

Lemma transmit_kept (d : NexDevice) (r : res unit) (d' : NexDevice) :
  transmit d = (r, d') -> kept d d'.
Proof.
  unfold transmit. destruct (_commands d) as [|c older].
  - intros H. injection H as _ <-. repeat split.
  - destruct (status c); intros H; injection H as _ <-; repeat split.
Qed.

Lemma kept_current_page_ok (d d' : NexDevice) :
  kept d d' -> current_page_ok d -> current_page_ok d'.
Proof.
  intros (_ & Hc & _ & Hl) Hok ref Hr. rewrite Hc in Hr.
  destruct (Hok ref Hr) as [p Hp].
  assert (Hlt : (ref < length (pages d'))%nat).
  { rewrite Hl. apply nth_error_Some. congruence. }
  apply nth_error_Some in Hlt.
  destruct (nth_error (pages d') ref) as [p'|]; [eauto|congruence].
Qed.

Lemma idle_refresh_Ret (d : NexDevice) :
  current_page_ok d \/ _commands d <> [] -> idle_refresh d = (Ret tt, d).
Proof.
  intros H. unfold idle_refresh.
  destruct (_initialized d); [|reflexivity].
  destruct (_commands d) as [|c q] eqn:Hq; [|reflexivity]. simpl.
  destruct H as [Hok|Hne]; [|congruence].
  destruct (_current_page d) as [page|] eqn:Hc; [|reflexivity].
  destruct (Hok page Hc) as [p Hp].
  unfold page_refresh, bind, read_page. rewrite Hp.
  destruct (_page_switch_in_progress p); [reflexivity|].
  apply for_each_skip. intros w d0. reflexivity.
Qed.

(** *** Slots that run through, slots that fail *)

Lemma emit_signal_sure (c : CommandBase) (d : NexDevice) :
  sure c ->
  emit_signal c sig_successful d
  = (Ret tt,
     set_pages (set_effects d (effects d ++ [successful (command c)]))
       (after_slots c sig_successful (pages d))).
Proof.
  unfold sure, emit_signal, after_slots, bind, emit, modify.
  destruct (slots c) as [|page|page w]; intros Hs; [| |contradiction].
  - destruct d; reflexivity.
  - unfold slot, NexPage_on_command_successful, update_page, modify, ret.
    destruct (cls c); try (destruct d; reflexivity).
    simpl. destruct (nth_error (pages d) page); destruct d; reflexivity.
Qed.

Lemma emit_signal_failed (c : CommandBase) (d : NexDevice) :
  emit_signal c sig_failed d
  = (Ret tt,
     set_effects d (effects d ++ failed (command c) :: failure_relay c)).
Proof.
  unfold emit_signal, failure_relay, bind, emit, modify, slot,
    _on_command_failed, emit, modify.
  destruct (slots c) as [|page|page w]; simpl; try reflexivity;
    rewrite <- app_assoc; reflexivity.
Qed.

(** The slot of a widget for the answer to "get" fails on a command that
    holds no data event: it reads [value] of [None]. *)
Lemma get_slot_fails (page : nat) (w : NexWidget) (c : CommandBase)
  (d : NexDevice) :
  data_event c = None ->
  _on_get_property_command_successful page w c d = (Raise AttributeError, d).
Proof.
  intros H. unfold _on_get_property_command_successful, bind, lift, get,
    raise, data_event_value, data_event_signed_value, get_property_name.
  rewrite H. destruct (w_class w); try reflexivity;
    destruct (property_name c); reflexivity.
Qed.

Lemma emit_signal_fails (c : CommandBase) (page : nat) (w : NexWidget)
  (d : NexDevice) :
  slots c = WidgetSlots page w -> data_event c = None ->
  emit_signal c sig_successful d
  = (Timeout,
     set_effects d
       (effects d ++ [successful (command c); fatal AttributeError])).
Proof.
  intros Hs Hd. unfold emit_signal, bind, emit, modify. rewrite Hs.
  unfold slot at 1. rewrite (get_slot_fails _ _ _ _ Hd). simpl.
  rewrite <- app_assoc. reflexivity.
Qed.

Lemma event_final (c : CommandBase) (e : event) :
  isinstance e (DATA_EVENT_CLASSES (cls c)) = false ->
  CommandBase_event c e
  = (set_status c (match final_signal e with
                   | sig_successful => SUCCESSFUL
                   | sig_failed => ERROR
                   end),
     Some (final_signal e)).
Proof.
  intros H. unfold CommandBase_event, final_signal. rewrite H.
  destruct (isinstance e [CommandSucceeded]); reflexivity.
Qed.

Lemma success_final (c : CommandBase) :
  CommandBase_event c mkCommandSucceeded
  = (set_status c SUCCESSFUL, Some sig_successful).
Proof.
  unfold CommandBase_event. destruct (cls c); reflexivity.
Qed.

(** One call of [poll] that reads one frame, the answer to the command in
    flight: the frame goes to this command; if that comes back, the sending
    step runs. *)
Lemma poll_answer (rc : ReturnCodes) (fuel : nat) (d : NexDevice)
  (c : CommandBase) (q : list CommandBase) (frame : bytes)
  (more : list (list bytes)) (e : event) :
  _commands d = c :: q -> status c = SENT ->
  rx (transport d) = [frame] :: more ->
  MsgEvent_parse rc frame = Ret e -> e <> mkEmptyMessage -> ~ is_touch e ->
  (1 <= fuel)%nat ->
  exists r1 d1 d2,
    feed c q e (set_transport d {| rx := more; stale := stale (transport d) |})
    = (r1, d1)
    /\ (r1 = Ret tt \/ r1 = Timeout)
    /\ transmit d1 = (Ret tt, d2)
    /\ poll rc fuel d
       = match r1 with
         | Ret _ =>
             match idle_refresh d2 with
             | (Ret _, d3) => (Ret (is_nil (_commands d3)), d3)
             | (Raise x, d3) => (Raise x, d3)
             | (Timeout, d3) => (Timeout, d3)
             end
         | Raise x => (Raise x, d1)
         | Timeout => (Timeout, d1)
         end.
Proof.
  intros Hq Hc Hrx Hparse Hne Hnt Hfuel.
  set (d0 := set_transport d {| rx := more; stale := stale (transport d) |}).
  destruct (feed_spec c q e d0) as (r1 & d1 & Hfeed & _ & Hcases).
  destruct (transmit_spec d1) as (d2 & Htr & _).
  exists r1, d1, d2. split; [exact Hfeed|]. split.
  { destruct Hcases as [(_ & -> & _)|(s & es & _ & _ & _ & _ & _ & [[-> _]|[-> _]])];
      auto. }
  split; [exact Htr|].
  assert (Hread : read_events rc d = (Ret [e], d0)).
  { unfold read_events. rewrite Hrx. cbn [read_loop].
    destruct frame as [|b frame].
    - simpl in Hparse. injection Hparse as <-. congruence.
    - cbn [is_nil]. rewrite Hparse. reflexivity. }
  assert (Hdisp : dispatch fuel e d0 = (r1, d1)).
  { assert (Hscan : scan fuel e d0 = (r1, d1)).
    { destruct fuel as [|fuel]; [lia|]. cbn [scan].
      change (_commands d0) with (_commands d). rewrite Hq, Hc.
      exact Hfeed. }
    destruct e; try exact Hscan. exfalso. apply Hnt. reflexivity. }
  unfold poll, bind. rewrite Hread. cbn [for_each]. unfold bind.
  rewrite Hdisp. destruct r1 as [[]|x|]; try reflexivity.
  unfold ret at 1. rewrite Htr.
  destruct (idle_refresh d2) as [[[]|x|] d3]; reflexivity.
Qed.

(** X18: One call of [poll] both ends the command in flight and starts the
    next.  When the frame it reads is the final answer to the oldest
    command, which is SENT, and a CREATED command waits behind it, the
    call emits the signal of the first ([successful] for a success frame,
    [failed] for any other) and runs its slots.  If they run through, as
    they do for a command without slots, for a command of a page and for
    every command that failed, the call removes the first command, writes
    the second, marks it SENT and returns False.  If a slot fails, the call
    does not come back: the first command stays at the head of the queue,
    completed, and the second is not written.  This is what happens to the
    "get" of a widget that the display answers with success and no data
    before it: the slot reads [value] of a data event that is [None]. *)
Theorem poll_pipelines (rc : ReturnCodes) (fuel : nat) (d : NexDevice)
  (c next : CommandBase) (rest : list CommandBase) (frame : bytes)
  (more : list (list bytes)) (e : event)
  (Hq : _commands d = c :: next :: rest)
  (Hc : status c = SENT) (Hnext : status next = CREATED)
  (Hrx : rx (transport d) = [frame] :: more)
  (Hparse : MsgEvent_parse rc frame = Ret e)
  (Hne : e <> mkEmptyMessage) (Hnt : ~ is_touch e)
  (Hfinal : isinstance e (DATA_EVENT_CLASSES (cls c)) = false)
  (Hfuel : (1 <= fuel)%nat) :
  (exists r d' es,
     poll rc fuel d = (r, d')
     /\ Forall slot_effect es
     /\ rx (transport d') = more
     /\ ((r = Ret false
          /\ _commands d' = set_status next SENT :: rest
          /\ effects d'
             = effects d
               ++ signal_effect (final_signal e) (command c) :: es
               ++ [Written (command next)])
         \/ (r = Timeout
             /\ _commands d' = fst (CommandBase_event c e) :: next :: rest
             /\ completed (fst (CommandBase_event c e)) = true
             /\ effects d'
                = effects d
                  ++ signal_effect (final_signal e) (command c) :: es)))
  /\ (sure c -> final_signal e = sig_successful ->
      exists d',
        poll rc fuel d = (Ret false, d')
        /\ _commands d' = set_status next SENT :: rest
        /\ effects d'
           = effects d ++ [successful (command c); Written (command next)])
  /\ (final_signal e = sig_failed ->
      exists d',
        poll rc fuel d = (Ret false, d')
        /\ _commands d' = set_status next SENT :: rest
        /\ effects d'
           = effects d
             ++ failed (command c) :: failure_relay c
             ++ [Written (command next)])
  /\ (forall page w,
        slots c = WidgetSlots page w -> data_event c = None ->
        final_signal e = sig_successful ->
        exists d',
          poll rc fuel d = (Timeout, d')
          /\ _commands d' = set_status c SUCCESSFUL :: next :: rest
          /\ effects d'
             = effects d ++ [successful (command c); fatal AttributeError]).
Proof.
  destruct (poll_answer rc fuel d c (next :: rest) frame more e
              Hq Hc Hrx Hparse Hne Hnt Hfuel)
    as (r1 & d1 & d2 & Hfeed & Hr1 & Htr & Hp).
  pose proof (feed_kept _ _ _ _ _ _ Hfeed) as (Ht1 & _).
  pose proof (transmit_kept _ _ _ Htr) as (Ht2 & _).
  set (d0 := set_transport d {| rx := more; stale := stale (transport d) |})
    in *.
  (* what the call does once the slots have run through *)
  assert (Hthrough : forall es,
            r1 = Ret tt -> _commands d1 = next :: rest ->
            effects d1 = effects d ++ es ->
            exists d',
              poll rc fuel d = (Ret false, d')
              /\ _commands d' = set_status next SENT :: rest
              /\ effects d' = effects d ++ es ++ [Written (command next)]
              /\ rx (transport d') = more).
  { intros es -> Hq1 He1.
    destruct (transmit_spec d1) as (d2' & Htr' & _ & Hcases).
    rewrite Htr in Htr'. injection Htr' as <-.
    destruct Hcases as [[_ Hst]|(c2 & older & Hq2 & _ & Hq2' & He2)].
    { rewrite Hq1 in Hst. congruence. }
    rewrite Hq1 in Hq2. injection Hq2 as <- <-.
    exists d2. split.
    - rewrite Hp, idle_refresh_Ret by (right; rewrite Hq2'; discriminate).
      rewrite Hq2'. reflexivity.
    - split; [exact Hq2'|]. split.
      + rewrite He2, He1, <- app_assoc. reflexivity.
      + rewrite Ht2, Ht1. reflexivity. }
  pose proof (event_final c e Hfinal) as Hev.
  split; [|split; [|split]].
  - destruct (feed_spec c (next :: rest) e d0)
      as (r1' & d1' & Hfeed' & _ & Hcases).
    rewrite Hfeed in Hfeed'. injection Hfeed' as <- <-.
    rewrite Hev in Hcases. cbn [fst snd] in Hcases.
    destruct Hcases as [(Hnone & _)|(s & es & Hs & He1 & Hes & _ & _ & Hout)];
      [discriminate|].
    injection Hs as <-.
    destruct Hout as [[-> Hq1]|[-> Hq1]].
    + destruct (Hthrough (signal_effect (final_signal e) (command c) :: es)
                  eq_refl Hq1 He1) as (d' & Hd' & Hq' & He' & Hrx').
      exists (Ret false), d', es. split; [exact Hd'|]. split; [exact Hes|].
      split; [exact Hrx'|]. left. split; [reflexivity|].
      split; [exact Hq'|exact He'].
    + exists Timeout, d1, es. split; [exact Hp|]. split; [exact Hes|].
      split; [rewrite Ht1; reflexivity|]. right. split; [reflexivity|].
      rewrite Hev. cbn [fst]. split; [exact Hq1|]. split; [|exact He1].
      unfold completed. simpl. destruct (final_signal e); reflexivity.
  - intros Hsure Hs.
    assert (Hf : feed c (next :: rest) e d0
                 = (Ret tt,
                    set_commands
                      (set_pages
                         (set_effects
                            (set_commands d0
                               (set_status c SUCCESSFUL :: next :: rest))
                            (effects d ++ [successful (command c)]))
                         (after_slots (set_status c SUCCESSFUL)
                            sig_successful (pages d)))
                      (next :: rest))).
    { unfold feed. rewrite Hev, Hs. unfold bind at 1, modify at 1.
      unfold bind. rewrite emit_signal_sure by exact Hsure. reflexivity. }
    rewrite Hfeed in Hf. injection Hf as -> ->.
    destruct (Hthrough [successful (command c)] eq_refl eq_refl eq_refl)
      as (d' & Hd' & Hq' & He' & _).
    exists d'. split; [exact Hd'|]. split; [exact Hq'|exact He'].
  - intros Hs.
    assert (Hf : feed c (next :: rest) e d0
                 = (Ret tt,
                    set_commands
                      (set_effects
                         (set_commands d0 (set_status c ERROR :: next :: rest))
                         (effects d ++ failed (command c) :: failure_relay c))
                      (next :: rest))).
    { unfold feed. rewrite Hev, Hs. unfold bind at 1, modify at 1.
      unfold bind. rewrite emit_signal_failed. reflexivity. }
    rewrite Hfeed in Hf. injection Hf as -> ->.
    destruct (Hthrough (failed (command c) :: failure_relay c)
                eq_refl eq_refl eq_refl) as (d' & Hd' & Hq' & He' & _).
    exists d'. split; [exact Hd'|]. split; [exact Hq'|exact He'].
  - intros page w Hslots Hdata Hs.
    assert (Hf : feed c (next :: rest) e d0
                 = (Timeout,
                    set_effects
                      (set_commands d0
                         (set_status c SUCCESSFUL :: next :: rest))
                      (effects d
                       ++ [successful (command c); fatal AttributeError]))).
    { unfold feed. rewrite Hev, Hs. unfold bind at 1, modify at 1.
      unfold bind.
      rewrite (emit_signal_fails _ page w) by assumption. reflexivity. }
    rewrite Hfeed in Hf. injection Hf as -> ->.
    eexists. split; [exact Hp|]. split; reflexivity.
Qed.

Lemma poll_pipelines_witness :
  (exists d',
     poll nextion 1
       (sample_device [sample_command Command SENT "A"; cmd_B; cmd_C]
                      [frame_succeeded])
     = (Ret false, d')
     /\ _commands d' = [set_status cmd_B SENT; cmd_C]
     /\ effects d'
        = [successful (command (sample_command Command SENT "A"));
           Written (command cmd_B)])
  /\ (exists d',
        poll nextion 1 (sample_device [sample_get_sent; cmd_B]
                                      [frame_succeeded])
        = (Timeout, d')
        /\ _commands d' = [set_status sample_get_sent SUCCESSFUL; cmd_B]
        /\ effects d'
           = [successful (command sample_get_sent); fatal AttributeError]).
Proof.
  split.
  - destruct (poll_pipelines nextion 1
                (sample_device [sample_command Command SENT "A"; cmd_B; cmd_C]
                               [frame_succeeded])
                (sample_command Command SENT "A") cmd_B [cmd_C]
                frame_succeeded [] mkCommandSucceeded
                eq_refl eq_refl eq_refl eq_refl eq_refl)
      as (_ & Hsure & _).
    + discriminate.
    + intros H. discriminate H.
    + reflexivity.
    + constructor.
    + apply Hsure; [exact I|reflexivity].
  - destruct (poll_pipelines nextion 1
                (sample_device [sample_get_sent; cmd_B] [frame_succeeded])
                sample_get_sent cmd_B []
                frame_succeeded [] mkCommandSucceeded
                eq_refl eq_refl eq_refl eq_refl eq_refl)
      as (_ & _ & _ & Hfails).
    + discriminate.
    + intros H. discriminate H.
    + reflexivity.
    + constructor.
    + apply (Hfails 0%nat sample_n0); reflexivity.
Defined.

(** The queue while the display answers every command with success: the
    command in flight is completed, the next one sent, and so on. *)
Lemma drain_in_flight (rc : ReturnCodes) (fuel : nat) (ok : bytes)
  (more : list (list bytes)) :
  MsgEvent_parse rc ok = Ret mkCommandSucceeded -> (1 <= fuel)%nat ->
  forall rest c d n,
    _commands d = c :: rest -> status c = SENT -> Forall created rest ->
    Forall sure (c :: rest) ->
    rx (transport d) = repeat [ok] (S (length rest)) ++ more ->
    current_page_ok d -> (length rest < n)%nat ->
    exists d',
      drain rc n fuel d = (Ret tt, d')
      /\ _commands d' = []
      /\ effects d'
         = effects d ++ successful (command c) :: flat_map completion rest
      /\ rx (transport d') = more.
Proof.
  intros Hok Hfuel. induction rest as [|c2 rest IH];
    intros c d n Hq Hc Hall Hsure Hrx Hcur Hn;
    inversion Hsure as [|? ? Hsc Hsrest]; subst.
  - destruct n as [|n]; [lia|]. cbn [drain]. rewrite Hq. unfold bind.
    destruct (poll_answer rc fuel d c [] ok more mkCommandSucceeded
                Hq Hc Hrx Hok) as (r1 & d1 & d2 & Hfeed & _ & Htr & Hp);
      [discriminate|intros H; discriminate H|exact Hfuel|].
    pose proof (feed_kept _ _ _ _ _ _ Hfeed) as K1.
    unfold feed in Hfeed. rewrite success_final in Hfeed.
    unfold bind at 1, modify at 1 in Hfeed. unfold bind in Hfeed.
    rewrite emit_signal_sure in Hfeed by exact Hsc.
    unfold pop, modify in Hfeed. injection Hfeed as <- <-.
    simpl in Htr. injection Htr as <-.
    match type of Hp with
    | _ = match idle_refresh ?s with _ => _ end => set (d1 := s) in *
    end.
    assert (Hcur1 : current_page_ok d1).
    { apply (kept_current_page_ok _ _ K1). exact Hcur. }
    rewrite Hp, (idle_refresh_Ret d1 (or_introl Hcur1)).
    exists d1. split.
    + destruct n; reflexivity.
    + split; [reflexivity|]. split; reflexivity.
  - destruct n as [|n]; [simpl in Hn; lia|]. cbn [drain]. rewrite Hq.
    unfold bind.
    destruct (poll_answer rc fuel d c (c2 :: rest) ok
                (repeat [ok] (S (length rest)) ++ more) mkCommandSucceeded
                Hq Hc Hrx Hok) as (r1 & d1 & d2 & Hfeed & _ & Htr & Hp);
      [discriminate|intros H; discriminate H|exact Hfuel|].
    pose proof (feed_kept _ _ _ _ _ _ Hfeed) as K1.
    pose proof (transmit_kept _ _ _ Htr) as K2.
    unfold feed in Hfeed. rewrite success_final in Hfeed.
    unfold bind at 1, modify at 1 in Hfeed. unfold bind in Hfeed.
    rewrite emit_signal_sure in Hfeed by exact Hsc.
    unfold pop, modify in Hfeed. injection Hfeed as <- <-.
    inversion Hall as [|? ? Hc2 Hrest]; subst.
    unfold transmit in Htr. cbn [_commands set_commands tl] in Htr.
    unfold created in Hc2. rewrite Hc2 in Htr.
    unfold send, write, emit, bind, modify, ret in Htr.
    injection Htr as <-.
    match type of Hp with
    | _ = match idle_refresh ?s with _ => _ end => set (dn := s) in *
    end.
    rewrite Hp, idle_refresh_Ret by (right; discriminate).
    destruct (IH (set_status c2 SENT) dn n eq_refl eq_refl Hrest)
      as (d' & Hd & Hq' & He' & Hrx').
    + inversion Hsrest; subst. constructor; assumption.
    + reflexivity.
    + apply (kept_current_page_ok _ _ K2).
      apply (kept_current_page_ok _ _ K1). exact Hcur.
    + simpl in Hn. lia.
    + exists d'. split; [exact Hd|]. split; [exact Hq'|].
      split; [|exact Hrx'].
      rewrite He'. simpl. rewrite <- !app_assoc. reflexivity.
Qed.

(** With the "get" of a widget in the queue, and nothing but success
    frames for answers, the queue never drains: the loop stops at the
    "get", completed and still at the head of the queue, with the
    exception of its slot. *)
Lemma drain_stuck (rc : ReturnCodes) (fuel : nat) (ok : bytes)
  (g : CommandBase) (page : nat) (w : NexWidget) (post : list CommandBase) :
  MsgEvent_parse rc ok = Ret mkCommandSucceeded -> (1 <= fuel)%nat ->
  slots g = WidgetSlots page w -> data_event g = None ->
  forall pre h q d n more,
    h :: q = pre ++ g :: post ->
    _commands d = set_status h SENT :: q ->
    Forall created q -> Forall sure pre ->
    rx (transport d) = repeat [ok] (S (length pre)) ++ more ->
    exists d',
      drain rc n fuel d = (Timeout, d')
      /\ ((length pre < n)%nat ->
          _commands d' = set_status g SUCCESSFUL :: post
          /\ exists es,
               effects d' = effects d ++ es
               /\ Written (command h) :: es
                  = flat_map completion (pre ++ [g])
                    ++ [fatal AttributeError]).
Proof.
  intros Hok Hfuel Hslots Hdata.
  induction pre as [|p pre IH]; intros h q d n more Hsplit Hq Hall Hsure Hrx.
  - injection Hsplit as -> ->.
    destruct n as [|n].
    { exists d. split; [simpl; rewrite Hq; reflexivity|]. simpl. lia. }
    cbn [drain]. rewrite Hq. unfold bind.
    destruct (poll_answer rc fuel d (set_status g SENT) post ok more
                mkCommandSucceeded Hq eq_refl Hrx Hok)
      as (r1 & d1 & d2 & Hfeed & _ & Htr & Hp);
      [discriminate|intros H; discriminate H|exact Hfuel|].
    unfold feed in Hfeed. rewrite success_final in Hfeed.
    unfold bind at 1, modify at 1 in Hfeed. unfold bind in Hfeed.
    rewrite (emit_signal_fails _ page w) in Hfeed by assumption.
    injection Hfeed as <- <-. rewrite Hp.
    eexists. split; [reflexivity|]. intros _. split; [reflexivity|].
    exists [successful (command g); fatal AttributeError].
    split; reflexivity.
  - injection Hsplit as -> ->.
    inversion Hsure as [|? ? Hsp Hspre]; subst.
    destruct n as [|n].
    { exists d. split; [simpl; rewrite Hq; reflexivity|]. simpl. lia. }
    cbn [drain]. rewrite Hq. unfold bind.
    destruct (pre ++ g :: post) as [|h2 q2] eqn:Hsplit2;
      [destruct pre; discriminate|].
    destruct (poll_answer rc fuel d (set_status p SENT) (h2 :: q2) ok
                (repeat [ok] (S (length pre)) ++ more)
                mkCommandSucceeded Hq eq_refl Hrx Hok)
      as (r1 & d1 & d2 & Hfeed & _ & Htr & Hp);
      [discriminate|intros H; discriminate H|exact Hfuel|].
    unfold feed in Hfeed. rewrite success_final in Hfeed.
    unfold bind at 1, modify at 1 in Hfeed. unfold bind in Hfeed.
    rewrite emit_signal_sure in Hfeed by exact Hsp.
    unfold pop, modify in Hfeed. injection Hfeed as <- <-.
    inversion Hall as [|? ? Hc2 Hrest]; subst.
    unfold transmit in Htr. cbn [_commands set_commands tl] in Htr.
    unfold created in Hc2. rewrite Hc2 in Htr.
    unfold send, write, emit, bind, modify, ret in Htr.
    injection Htr as <-.
    match type of Hp with
    | _ = match idle_refresh ?s with _ => _ end => set (dn := s) in *
    end.
    rewrite Hp, idle_refresh_Ret by (right; discriminate).
    destruct (IH h2 q2 dn n more eq_refl eq_refl Hrest Hspre eq_refl)
      as (d' & Hd & Hstop).
    exists d'. split; [exact Hd|]. intros Hn.
    destruct Hstop as (Hq' & es & He & Hes); [simpl in Hn; lia|].
    split; [exact Hq'|].
    exists (successful (command p) :: Written (command h2) :: es). split.
    + rewrite He. simpl. rewrite <- !app_assoc. reflexivity.
    + simpl. rewrite Hes. reflexivity.
Qed.

(** X19: A display that answers every command with a success frame, and
    nothing else, empties a queue of commands whose slots cannot fail,
    those without slots and those of pages: from a queue of CREATED
    commands, the first call of poll reads nothing and writes the oldest
    command; every further call reads one success frame, completes the
    command in flight and writes the next.  After one call more than there
    are commands the queue is empty, and the session has written and
    completed every command, in the order of the queue.  It does not get
    past the "get" of a widget: the success frame that comes without data
    makes the slot of the widget fail, and the loop does not come back.
    The commands before the "get" and the "get" itself are written and
    completed; the "get" stays at the head of the queue, SUCCESSFUL, and
    the commands behind it are never written. *)
Theorem answered_queue_drains (rc : ReturnCodes) (fuel n : nat) (ok : bytes)
  (more : list (list bytes)) (d : NexDevice) (c : CommandBase)
  (rest : list CommandBase)
  (Hok : MsgEvent_parse rc ok = Ret mkCommandSucceeded)
  (Hq : _commands d = c :: rest) (Hall : Forall created (c :: rest))
  (Hcur : current_page_ok d)
  (Hfuel : (1 <= fuel)%nat) :
  (Forall sure (c :: rest) ->
   rx (transport d) = [] :: repeat [ok] (S (length rest)) ++ more ->
   (S (length rest) < n)%nat ->
   exists d',
     drain rc n fuel d = (Ret tt, d')
     /\ _commands d' = []
     /\ effects d' = effects d ++ flat_map completion (c :: rest)
     /\ rx (transport d') = more)
  /\ (forall pre g post page w,
        c :: rest = pre ++ g :: post ->
        Forall sure pre ->
        slots g = WidgetSlots page w -> data_event g = None ->
        rx (transport d) = [] :: repeat [ok] (S (length pre)) ++ more ->
        exists d',
          drain rc n fuel d = (Timeout, d')
          /\ ((S (length pre) < n)%nat ->
              _commands d' = set_status g SUCCESSFUL :: post
              /\ effects d'
                 = effects d ++ flat_map completion (pre ++ [g])
                   ++ [fatal AttributeError])).
Proof.
  inversion Hall as [|? ? Hc Hrest]; subst.
  assert (Hp : forall frames,
            rx (transport d) = [] :: frames ->
            poll rc fuel d
            = (Ret false,
               set_effects
                 (set_commands
                    (set_transport d
                       {| rx := frames; stale := stale (transport d) |})
                    (set_status c SENT :: rest))
                 (effects d ++ [Written (command c)]))).
  { intros frames Hrx.
    unfold poll, bind, read_events. rewrite Hrx. cbn [read_loop for_each].
    unfold ret at 1. unfold transmit. simpl _commands. rewrite Hq.
    unfold created in Hc. rewrite Hc.
    unfold send, write, emit, bind, modify, ret. simpl.
    rewrite idle_refresh_Ret by (right; discriminate). reflexivity. }
  split.
  - intros Hsure Hrx Hn.
    destruct n as [|n]; [lia|]. cbn [drain]. rewrite Hq. unfold bind.
    rewrite (Hp _ Hrx).
    match goal with
    | |- context [drain rc n fuel ?s] => set (d1 := s)
    end.
    destruct (drain_in_flight rc fuel ok more Hok Hfuel rest
                (set_status c SENT) d1 n eq_refl eq_refl Hrest)
      as (d' & Hd & Hq' & He' & Hrx').
    + inversion Hsure; subst. constructor; assumption.
    + reflexivity.
    + intros ref Hr. apply (Hcur ref Hr).
    + lia.
    + exists d'. split; [exact Hd|]. split; [exact Hq'|]. split; [|exact Hrx'].
      rewrite He'. simpl. rewrite <- app_assoc. reflexivity.
  - intros pre g post page w Hsplit Hsure Hslots Hdata Hrx.
    destruct n as [|n].
    { exists d. split; [simpl; rewrite Hq; reflexivity|]. lia. }
    cbn [drain]. rewrite Hq. unfold bind. rewrite (Hp _ Hrx).
    match goal with
    | |- context [drain rc n fuel ?s] =>
        destruct (drain_stuck rc fuel ok g page w post Hok Hfuel Hslots Hdata
                    pre c rest s n more Hsplit eq_refl Hrest Hsure eq_refl)
          as (d' & Hd & Hstop)
    end.
    exists d'. split; [exact Hd|]. intros Hn.
    destruct Hstop as (Hq' & es & He & Hes); [lia|].
    split; [exact Hq'|].
    rewrite He. simpl. rewrite <- Hes, <- app_assoc. reflexivity.
Qed.

Lemma answered_queue_drains_witness :
  (exists d',
     drain nextion 5 1
       (set_commands
          (NexDevice_init
             {| rx := [[]; [frame_succeeded]; [frame_succeeded];
                       [frame_succeeded]];
                stale := [] |})
          [cmd_A; cmd_B; cmd_C])
     = (Ret tt, d')
     /\ _commands d' = []
     /\ effects d' = flat_map completion [cmd_A; cmd_B; cmd_C])
  /\ (exists d',
        drain nextion 5 1
          (set_commands
             (NexDevice_init
                {| rx := [[]; [frame_succeeded]; [frame_succeeded]];
                   stale := [] |})
             [cmd_A; reset sample_get_sent; cmd_C])
        = (Timeout, d')
        /\ _commands d' = [set_status sample_get_sent SUCCESSFUL; cmd_C]
        /\ effects d'
           = [Written (command cmd_A); successful (command cmd_A);
              Written (command sample_get_sent);
              successful (command sample_get_sent);
              fatal AttributeError]).
Proof.
  split.
  - destruct (answered_queue_drains nextion 1 5 frame_succeeded []
                (set_commands
                   (NexDevice_init
                      {| rx := [[]; [frame_succeeded]; [frame_succeeded];
                                [frame_succeeded]];
                         stale := [] |})
                   [cmd_A; cmd_B; cmd_C])
                cmd_A [cmd_B; cmd_C] eq_refl eq_refl)
      as [H _].
    + repeat constructor.
    + intros ref Hr. discriminate Hr.
    + constructor.
    + destruct H as (d' & Hd & Hq & He & _).
      * repeat constructor.
      * reflexivity.
      * simpl. lia.
      * exists d'. split; [exact Hd|]. split; [exact Hq|exact He].
  - destruct (answered_queue_drains nextion 1 5 frame_succeeded []
                (set_commands
                   (NexDevice_init
                      {| rx := [[]; [frame_succeeded]; [frame_succeeded]];
                         stale := [] |})
                   [cmd_A; reset sample_get_sent; cmd_C])
                cmd_A [reset sample_get_sent; cmd_C] eq_refl eq_refl)
      as [_ H].
    + repeat constructor.
    + intros ref Hr. discriminate Hr.
    + constructor.
    + destruct (H [cmd_A] (reset sample_get_sent) [cmd_C] 0%nat sample_n0)
        as (d' & Hd & Hstop); try reflexivity.
      * repeat constructor.
      * destruct Hstop as [Hq He]; [simpl; lia|].
        exists d'. split; [exact Hd|]. split; [exact Hq|exact He].
Defined.

(** ** More on [init] and [select_page] *)

Lemma framed_step {A} (m : M NexDevice A) (d1 : NexDevice) (r : res A)
  (d' : NexDevice) :
  sat false framed m -> m d1 = (r, d') -> layout d' = layout d1.
Proof.
  intros Hm H. destruct (Hm d1 r d' H) as [HL _]; [discriminate|exact HL].
Qed.

(** X20: init needs a page with the ID 0: when none is hooked, init never
    returns; it raises (KeyError from the last selection, if nothing
    before it failed) or does not come back, and the flag [_initialized]
    is as before. *)
Theorem init_needs_page_0 (rc : ReturnCodes) (fuel : nat) (d : NexDevice)
  (r : res unit) (d' : NexDevice)
  (Hhome : dict_get Z.eqb (_pages_by_id d) 0%Z = None)
  (Hinit : init rc fuel d = (r, d')) :
  r <> Ret tt /\ _initialized d' = _initialized d.
Proof.
  unfold init in Hinit.
  apply bind_inv in Hinit.
  destruct Hinit as [(u0 & d1 & H0 & Hinit)|[(e & H0 & _)|(H0 & _)]];
    try discriminate.
  unfold flush, modify in H0. injection H0 as _ <-.
  apply bind_inv in Hinit.
  destruct Hinit as [(c0 & d1 & H1 & Hinit)|[(e & H1 & ->)|(H1 & ->)]];
    unfold lift in H1; injection H1 as H1 <-;
    try (split; [discriminate|reflexivity]).
  apply bind_inv in Hinit.
  destruct Hinit as [(u2 & d2 & H2 & Hinit)|[(e & H2 & _)|(H2 & _)]];
    try discriminate.
  unfold extendleft, modify in H2. injection H2 as _ <-.
  match type of Hinit with
  | bind _ _ ?s = _ => set (d2 := s) in *
  end.
  assert (HL2 : layout d2 = layout d) by reflexivity.
  apply bind_inv in Hinit.
  destruct Hinit as [([] & d3 & H3 & Hinit)|[(e & H3 & ->)|(H3 & ->)]];
    try (split; [discriminate|
         exact (failed_step _ d d2 d' _ (drain_framed rc fuel fuel) HL2 H3)]).
  assert (HL3 : layout d3 = layout d).
  { rewrite <- HL2. apply (framed_step _ _ _ _ (drain_framed rc fuel fuel) H3). }
  apply bind_inv in Hinit.
  destruct Hinit as [(d3' & d3'' & H4 & Hinit)|[(e & H4 & _)|(H4 & _)]];
    try discriminate.
  unfold get in H4. injection H4 as <- <-.
  apply bind_inv in Hinit.
  destruct Hinit as [([] & d4 & H5 & Hinit)|[(e & H5 & ->)|(H5 & ->)]];
    try (split; [discriminate|
         exact (failed_step _ d d3 d' _
                  (sat_for_each false framed framed_refl framed_trans
                     (init_page rc fuel) _ (init_page_framed rc fuel))
                  HL3 H5)]).
  assert (HL4 : layout d4 = layout d).
  { rewrite <- HL3.
    apply (framed_step _ _ _ _
             (sat_for_each false framed framed_refl framed_trans
                (init_page rc fuel) _ (init_page_framed rc fuel)) H5). }
  apply bind_inv in Hinit.
  destruct Hinit as [(page & d5 & H6 & Hinit)|[(e & H6 & ->)|(H6 & ->)]];
    try (split; [discriminate|
         exact (failed_step _ d d4 d' _ (select_page_framed (inr 0%Z))
                  HL4 H6)]).
  exfalso. destruct (select_page_found 0 d4 page d5 H6) as [ref Hget].
  rewrite (layout_ids d d4 HL4) in Hget. congruence.
Qed.

Lemma init_needs_page_0_witness :
  fst (init nextion 10 sample_registry_no_home) <> Ret tt
  /\ _initialized (snd (init nextion 10 sample_registry_no_home)) = false.
Proof.
  apply (init_needs_page_0 nextion 10 sample_registry_no_home
           (fst (init nextion 10 sample_registry_no_home))
           (snd (init nextion 10 sample_registry_no_home))).
  - reflexivity.
  - vm_compute. reflexivity.
Defined.

Lemma new_PageCommand_Ret (target : value) (c : CommandBase) :
  new_PageCommand target = Ret c ->
  status c = CREATED /\ cls c = PageCommand /\ slots c = NoSlots
  /\ data_event c = None
  /\ format_command (lit "page") [target] = Ret (command c).
Proof.
  unfold new_PageCommand, CommandBase_init. intros H.
  apply res_bind_Ret in H. destruct H as (data & Hd & H).
  injection H as <-. repeat split. exact Hd.
Qed.



(** ** The serial transport *)

Lemma slice_length (buf : bytes) (i j : nat) :
  (j <= length buf)%nat -> length (slice buf i j) = (j - i)%nat.
Proof.
  intros H. unfold slice. rewrite length_firstn, length_skipn. lia.
Qed.

Lemma slice_full (buf : bytes) (j : nat) : slice buf 0 j = firstn j buf.
Proof. unfold slice. rewrite Nat.sub_0_r. reflexivity. Qed.

Lemma firstn_add {A} (a b : nat) (l : list A) :
  firstn (a + b) l = firstn a l ++ firstn b (skipn a l).
Proof.
  revert l. induction a as [|a IH]; intros l; simpl; [reflexivity|].
  destruct l as [|x l]; simpl.
  - rewrite firstn_nil. reflexivity.
  - rewrite IH. reflexivity.
Qed.

Lemma slice_split (buf : bytes) (i j k : nat) :
  (i <= j)%nat -> (j <= k)%nat ->
  slice buf i k = slice buf i j ++ slice buf j k.
Proof.
  intros Hij Hjk. unfold slice.
  replace (k - i)%nat with ((j - i) + (k - j))%nat by lia.
  rewrite firstn_add, skipn_skipn.
  replace (j - i + i)%nat with j by lia. reflexivity.
Qed.

Lemma slice_slice (buf : bytes) (a b i j : nat) :
  (a + j <= b)%nat -> slice (slice buf a b) i j = slice buf (a + i) (a + j).
Proof.
  intros H. unfold slice.
  rewrite skipn_firstn_comm, firstn_firstn, skipn_skipn.
  replace (i + a)%nat with (a + i)%nat by lia.
  replace (Nat.min (j - i) (b - a - i))%nat with (a + j - (a + i))%nat by lia.
  reflexivity.
Qed.

Lemma slice_firstn (buf : bytes) (n i j : nat) :
  (j <= n)%nat -> slice (firstn n buf) i j = slice buf i j.
Proof.
  intros H. unfold slice.
  rewrite skipn_firstn_comm, firstn_firstn.
  replace (Nat.min (j - i) (n - i))%nat with (j - i)%nat by lia.
  reflexivity.
Qed.

Lemma slice_app_l (a b : bytes) (i j : nat) :
  (j <= length a)%nat -> slice (a ++ b) i j = slice a i j.
Proof.
  intros H. rewrite <- (slice_firstn (a ++ b) (length a) i j H).
  rewrite firstn_app, Nat.sub_diag, firstn_all. simpl. rewrite app_nil_r.
  reflexivity.
Qed.

Lemma find_loop_Some (buf sub : bytes) (n : nat) :
  forall pos p,
    find_loop buf sub pos n = Some p ->
    (pos <= p < pos + n)%nat
    /\ slice buf p (p + length sub) = sub
    /\ forall i, (pos <= i < p)%nat -> slice buf i (i + length sub) <> sub.
Proof.
  induction n as [|n IH]; intros pos p H; [discriminate|].
  cbn [find_loop] in H.
  destruct (bytes_eqb (slice buf pos (pos + length sub)) sub) eqn:E.
  - injection H as <-. apply bytes_eqb_eq in E.
    split; [lia|]. split; [exact E|]. intros i Hi. lia.
  - destruct (IH (S pos) p H) as (Hp & Hs & Hmin).
    split; [lia|]. split; [exact Hs|]. intros i Hi.
    destruct (Nat.eq_dec i pos) as [->|Hne].
    + intros F. apply bytes_eqb_eq in F. congruence.
    + apply Hmin. lia.
Qed.

Lemma find_loop_None (buf sub : bytes) (n : nat) :
  forall pos,
    find_loop buf sub pos n = None ->
    forall i, (pos <= i < pos + n)%nat -> slice buf i (i + length sub) <> sub.
Proof.
  induction n as [|n IH]; intros pos H i Hi; [lia|].
  cbn [find_loop] in H.
  destruct (bytes_eqb (slice buf pos (pos + length sub)) sub) eqn:E;
    [discriminate|].
  destruct (Nat.eq_dec i pos) as [->|Hne].
  - intros F. apply bytes_eqb_eq in F. congruence.
  - apply (IH (S pos) H). lia.
Qed.

(** find, for the terminator and an end within the buffer. *)
Lemma find_Some (buf : bytes) (start stop p : nat) :
  (stop <= length buf)%nat ->
  bytearray_find buf S_END_OF_CMD start stop = Some p ->
  (start <= p)%nat /\ (p + 3 <= stop)%nat
  /\ slice buf p (p + 3) = S_END_OF_CMD
  /\ forall i, (start <= i < p)%nat -> slice buf i (i + 3) <> S_END_OF_CMD.
Proof.
  intros Hs H. unfold bytearray_find in H.
  apply find_loop_Some in H. simpl length in H.
  destruct H as (Hp & Hsl & Hmin).
  split; [lia|]. split; [lia|]. split; assumption.
Qed.

Lemma find_None (buf : bytes) (start stop : nat) :
  (stop <= length buf)%nat ->
  bytearray_find buf S_END_OF_CMD start stop = None ->
  forall i, (start <= i)%nat -> (i + 3 <= stop)%nat ->
            slice buf i (i + 3) <> S_END_OF_CMD.
Proof.
  intros Hs H i Hi Hj. unfold bytearray_find in H.
  apply (find_loop_None _ _ _ _ H). simpl length. lia.
Qed.

Lemma set_events_queue_same (self : AbstractSerialNex) :
  set_events_queue self (_events_queue self) = self.
Proof. destruct self. reflexivity. Qed.

(** The splitting loop: it comes back; the frames it appends to the
    queue, in order, make up the buffer from [start] on but for a rest
    without terminator; each of them ends at its first terminator. *)
Lemma split_events_spec (fuel : nat) :
  forall start self bs,
    (start <= bs)%nat -> (bs <= length (_buffer self))%nat ->
    (bs - start <= fuel)%nat ->
    exists frames leftover,
      split_events fuel start bs self
      = (Ret tt, set_events_queue self (_events_queue self ++ frames))
      /\ concat frames ++ leftover = slice (_buffer self) start bs
      /\ Forall ends_once frames /\ no_end leftover.
Proof.
  assert (Hnone : forall start self bs,
            (start <= bs)%nat -> (bs <= length (_buffer self))%nat ->
            bytearray_find (_buffer self) S_END_OF_CMD start bs = None ->
            exists frames leftover,
              (Ret tt, self)
              = (Ret tt, set_events_queue self (_events_queue self ++ frames))
              /\ concat frames ++ leftover = slice (_buffer self) start bs
              /\ Forall ends_once frames /\ no_end leftover).
  { intros start self bs Hs Hb Hf.
    exists [], (slice (_buffer self) start bs).
    rewrite app_nil_r, set_events_queue_same.
    split; [reflexivity|]. split; [reflexivity|]. split; [constructor|].
    intros i Hi. rewrite slice_length in Hi by exact Hb.
    rewrite slice_slice by lia.
    replace (start + (i + 3))%nat with (start + i + 3)%nat by lia.
    apply (find_None _ start bs Hb Hf); lia. }
  induction fuel as [|fuel IH]; intros start self bs Hs Hb Hfuel.
  - cbn [split_events].
    destruct (bytearray_find (_buffer self) S_END_OF_CMD start bs) as [p|]
      eqn:Hf.
    + apply (find_Some _ _ _ _ Hb) in Hf. lia.
    + apply (Hnone start self bs Hs Hb Hf).
  - cbn [split_events].
    destruct (bytearray_find (_buffer self) S_END_OF_CMD start bs) as [p|]
      eqn:Hf; [|apply (Hnone start self bs Hs Hb Hf)].
    apply (find_Some _ _ _ _ Hb) in Hf.
    destruct Hf as (Hp1 & Hp2 & Hend & Hmin).
    change TERMINATOR_SIZE with 3%nat.
    destruct (IH (p + 3)%nat
                (set_events_queue self
                   (_events_queue self ++ [slice (_buffer self) start (p + 3)]))
                bs Hp2 Hb) as (frames & leftover & Hrun & Hcat & Hall & Hno);
      [lia|].
    exists (slice (_buffer self) start (p + 3) :: frames), leftover.
    split.
    { rewrite Hrun. simpl. rewrite <- app_assoc. reflexivity. }
    split.
    { simpl. rewrite <- app_assoc. simpl in Hcat. rewrite Hcat.
      symmetry. apply slice_split; lia. }
    split; [|exact Hno].
    constructor; [|exact Hall].
    exists (slice (_buffer self) start p). split.
    + rewrite <- Hend. apply slice_split; lia.
    + intros i Hi. rewrite slice_length in Hi by lia.
      rewrite slice_slice by lia.
      replace (start + (i + 3))%nat with (start + i + 3)%nat by lia.
      apply Hmin. lia.
Qed.

Lemma slice_end_prefix (buf rest : bytes) (bs : nat) :
  (bs <= length buf)%nat ->
  slice (firstn bs buf ++ rest) (bs - 3) bs = slice buf (bs - 3) bs.
Proof.
  intros H. rewrite slice_app_l by (rewrite length_firstn; lia).
  apply slice_firstn. lia.
Qed.

(** The loop that reads byte after byte: it stops as soon as the bytes
    read so far end in the terminator, and when the display never sends
    such a byte it does not come back. *)
Lemma trickle_spec (fuel : nat) :
  forall self bs r self',
    pending (sp self) = [] -> (bs <= length (_buffer self))%nat ->
    (length (coming (sp self)) < fuel)%nat ->
    trickle fuel bs self = (r, self') ->
    match r with
    | Ret bs' =>
        exists extra,
          coming (sp self) = extra ++ coming (sp self')
          /\ pending (sp self') = []
          /\ bs' = (bs + length extra)%nat
          /\ (bs' <= length (_buffer self'))%nat
          /\ firstn bs' (_buffer self') = firstn bs (_buffer self) ++ extra
          /\ slice (_buffer self') (bs' - 3) bs' = S_END_OF_CMD
          /\ _events_queue self' = _events_queue self
    | Raise _ => False
    | Timeout =>
        forall k, (k <= length (coming (sp self)))%nat ->
          slice (firstn bs (_buffer self) ++ coming (sp self))
            (bs + k - 3) (bs + k) <> S_END_OF_CMD
    end.
Proof.
  induction fuel as [|fuel IH]; intros self bs r self' Hpend Hb Hfuel H;
    [lia|].
  cbn [trickle] in H. change TERMINATOR_SIZE with 3%nat in H.
  destruct (bytes_eqb (slice (_buffer self) (bs - 3) bs) S_END_OF_CMD) eqn:E;
    cbn [negb] in H.
  - injection H as <- <-. apply bytes_eqb_eq in E. exists [].
    rewrite Nat.add_0_r, app_nil_r. repeat split; assumption.
  - assert (E' : slice (_buffer self) (bs - 3) bs <> S_END_OF_CMD).
    { intros F. apply bytes_eqb_eq in F. congruence. }
    unfold bind, on_sp, sp_read in H. rewrite Hpend in H. cbn [length] in H.
    cbn [Nat.leb app] in H.
    destruct (coming (sp self)) as [|b rest] eqn:Hc.
    + cbn in H. injection H as <- <-. intros k Hk.
      assert (k = 0%nat) by (simpl in Hk; lia). subst k.
      rewrite Nat.add_0_r, slice_end_prefix by exact Hb. exact E'.
    + cbn [length Nat.leb firstn skipn Nat.sub] in H.
      unfold modify in H. cbn [_buffer set_buffer set_sp] in H.
      match type of H with
      | trickle _ _ ?s = _ => set (self1 := s) in *
      end.
      assert (Hb1 : (bs + 1 <= length (_buffer self1))%nat).
      { unfold self1, set_buffer. cbn [_buffer]. unfold slice_assign.
        rewrite !length_app, length_firstn. simpl. lia. }
      assert (Hpre : firstn (bs + 1) (_buffer self1)
                     = firstn bs (_buffer self) ++ [b]).
      { unfold self1, set_buffer. cbn [_buffer]. unfold slice_assign.
        rewrite firstn_app, length_firstn.
        replace (Nat.min bs (length (_buffer self))) with bs by lia.
        rewrite firstn_firstn.
        replace (Nat.min (bs + 1) bs) with bs by lia.
        replace (bs + 1 - bs)%nat with 1%nat by lia. reflexivity. }
      specialize (IH self1 (bs + 1)%nat r self' eq_refl Hb1).
      assert (Hf1 : (length (coming (sp self1)) < fuel)%nat).
      { unfold self1. simpl. simpl in Hfuel. lia. }
      specialize (IH Hf1 H). destruct r as [bs'|e|].
      * destruct IH as (extra & Hco & Hp' & Hbs' & Hlen & Hfirst & Hend & Hq).
        exists (b :: extra). unfold self1 in Hco. simpl in Hco.
        split; [simpl; congruence|]. split; [exact Hp'|].
        split; [simpl; lia|]. split; [exact Hlen|].
        split; [|split; [exact Hend|exact Hq]].
        rewrite Hfirst, Hpre, <- app_assoc. reflexivity.
      * exact IH.
      * intros k Hk. destruct k as [|k].
        -- rewrite Nat.add_0_r, slice_end_prefix by exact Hb. exact E'.
        -- specialize (IH k). rewrite Hpre, <- app_assoc in IH.
           unfold self1 in IH. simpl in IH. simpl in Hk.
           replace (bs + S k)%nat with (bs + 1 + k)%nat by lia.
           apply IH. lia.
Qed.

Lemma slice_app_r (a b : bytes) (i j : nat) :
  slice (a ++ b) (length a + i) (length a + j) = slice b i j.
Proof.
  unfold slice. rewrite skipn_app, skipn_all2 by lia.
  replace (length a + i - length a)%nat with i by lia.
  replace (length a + j - (length a + i))%nat with (j - i)%nat by lia.
  reflexivity.
Qed.

(** What is left of a buffer that ends in the terminator, after the
    frames: at most two bytes FF. *)
Lemma leftover_short (frames : list bytes) (leftover B : bytes) :
  concat frames ++ leftover = B -> no_end leftover ->
  (3 <= length B)%nat ->
  slice B (length B - 3) (length B) = S_END_OF_CMD ->
  leftover = [] \/ leftover = [xff] \/ leftover = [xff; xff].
Proof.
  intros HB Hno Hlen Hend.
  assert (HL : length B = (length (concat frames) + length leftover)%nat).
  { rewrite <- HB, length_app. reflexivity. }
  assert (Hshort : (length leftover <= 2)%nat).
  { destruct (Nat.le_gt_cases (length leftover) 2) as [H|H]; [exact H|].
    exfalso. apply (Hno (length leftover - 3)%nat); [lia|].
    rewrite <- Hend, <- HB.
    replace (length (concat frames ++ leftover) - 3)%nat
      with (length (concat frames) + (length leftover - 3))%nat
      by (rewrite length_app; lia).
    replace (length (concat frames ++ leftover))
      with (length (concat frames) + (length leftover - 3 + 3))%nat
      by (rewrite length_app; lia).
    rewrite slice_app_r. reflexivity. }
  assert (Hl : leftover
               = slice (slice B (length B - 3) (length B))
                   (3 - length leftover) 3).
  { rewrite slice_slice by lia.
    replace (length B - 3 + (3 - length leftover))%nat
      with (length (concat frames) + 0)%nat by lia.
    replace (length B - 3 + 3)%nat
      with (length (concat frames) + length leftover)%nat by lia.
    rewrite <- HB, slice_app_r. unfold slice. simpl.
    rewrite Nat.sub_0_r, firstn_all. reflexivity. }
  rewrite Hend in Hl.
  destruct (length leftover) as [|[|[|n]]] eqn:E; try lia;
    rewrite Hl; auto.
Qed.

Lemma read_many_queue (q : list bytes) :
  forall self,
    _events_queue self = q ->
    read_many (length q) self = (Ret q, set_events_queue self []).
Proof.
  induction q as [|data q IH]; intros self Hq.
  - simpl. unfold ret. rewrite <- Hq, set_events_queue_same. reflexivity.
  - cbn [length read_many]. unfold bind at 1.
    unfold AbstractSerialNex_read_next, events_pop. rewrite Hq.
    cbn [is_nil negb]. unfold bind.
    rewrite (IH (set_events_queue self q) eq_refl). reflexivity.
Qed.

(** One call of [read_next] that finds its queue empty and four bytes
    at least in the port. *)
Lemma read_next_run (self : AbstractSerialNex) (r : res bytes)
  (self' : AbstractSerialNex) :
  _events_queue self = [] -> (4 <= in_waiting (sp self))%nat ->
  AbstractSerialNex_read_next self = (r, self') ->
  match r with
  | Ret data =>
      exists extra leftover,
        coming (sp self) = extra ++ coming (sp self')
        /\ pending (sp self') = []
        /\ concat (data :: _events_queue self') ++ leftover
           = pending (sp self) ++ extra
        /\ Forall ends_once (data :: _events_queue self')
        /\ (leftover = [] \/ leftover = [xff] \/ leftover = [xff; xff])
  | Raise _ => False
  | Timeout =>
      forall k, (k <= length (coming (sp self)))%nat ->
        slice (pending (sp self) ++ coming (sp self))
          (length (pending (sp self)) + k - 3)
          (length (pending (sp self)) + k) <> S_END_OF_CMD
  end.
Proof.
  intros Hq Hw H. unfold AbstractSerialNex_read_next in H.
  rewrite Hq in H. cbn [is_nil negb] in H.
  change MIN_SIZE_READ with 4%nat in H.
  destruct (Nat.ltb_spec (in_waiting (sp self)) 4) as [Hlt|_]; [lia|].
  unfold in_waiting in *.
  unfold bind at 1 in H. unfold on_sp, sp_read in H.
  rewrite Nat.leb_refl, firstn_all, skipn_all in H.
  unfold bind at 1 in H. unfold modify at 1 in H.
  unfold bind at 1 in H. unfold get at 1 in H.
  match type of H with
  | bind _ _ ?s = _ => set (self1 := s) in *
  end.
  assert (Hb1 : (length (pending (sp self)) <= length (_buffer self1))%nat).
  { unfold self1, set_buffer. cbn [_buffer]. unfold slice_assign.
    rewrite !length_app. lia. }
  assert (Hpre : firstn (length (pending (sp self))) (_buffer self1)
                 = pending (sp self)).
  { unfold self1, set_buffer. cbn [_buffer]. unfold slice_assign.
    simpl firstn at 2. simpl app at 1.
    rewrite firstn_app, Nat.sub_diag, firstn_all. simpl.
    apply app_nil_r. }
  unfold bind at 1 in H.
  destruct (trickle (S (length (coming (sp self1))))
              (length (pending (sp self))) self1) as [r2 self2] eqn:Ht.
  pose proof (trickle_spec _ self1 _ r2 self2 eq_refl Hb1 (Nat.lt_succ_diag_r _)
                Ht) as Hspec.
  rewrite Hpre in Hspec.
  destruct r2 as [bs|e|].
  - destruct Hspec as (extra & Hco & Hp2 & Hbs & Hlen2 & Hfirst & Hend & Hq2).
    unfold bind at 1 in H.
    destruct (split_events_spec bs 0 self2 bs (Nat.le_0_l _) Hlen2)
      as (frames & leftover & Hrun & Hcat & Hall & Hno); [lia|].
    rewrite Hrun in H. rewrite Hq2 in H.
    change (_events_queue self1) with (_events_queue self) in H.
    rewrite Hq in H. cbn [app] in H.
    rewrite slice_full, Hfirst in Hcat.
    assert (HlenB : length (pending (sp self) ++ extra) = bs).
    { rewrite length_app. lia. }
    assert (HendB : slice (pending (sp self) ++ extra) (bs - 3) bs
                    = S_END_OF_CMD).
    { rewrite <- Hfirst, slice_firstn by lia. exact Hend. }
    unfold events_pop in H. cbn [_events_queue set_events_queue] in H.
    destruct frames as [|data q].
    + exfalso. simpl in Hcat. subst leftover.
      apply (Hno (bs - 3)%nat); [lia|].
      replace (bs - 3 + 3)%nat with bs by lia. exact HendB.
    + injection H as <- <-. exists extra, leftover.
      split; [exact Hco|]. split; [exact Hp2|]. split; [exact Hcat|].
      split; [exact Hall|].
      apply (leftover_short (data :: q) leftover _ Hcat Hno); [lia|].
      rewrite HlenB. exact HendB.
  - destruct Hspec.
  - injection H as <- <-. exact Hspec.
Qed.

(** X22: read_next on an empty queue.  With fewer than four bytes in the port
    it returns empty data and touches nothing.  Otherwise it takes the
    bytes received and goes on reading byte after byte until what it has
    read ends in FF FF FF (for ever, if that never happens); it never
    raises.  What it has read is cut at every first FF FF FF: the frame
    returned and the frames left in the queue, in this order, followed by
    at most two bytes FF that are dropped, are the bytes read; every
    frame holds one terminator, at its end; and the following calls hand
    out the queued frames in this order without reading the port. *)
Theorem read_next_frames (self : AbstractSerialNex) (r : res bytes)
  (self' : AbstractSerialNex)
  (Hq : _events_queue self = [])
  (Hrun : AbstractSerialNex_read_next self = (r, self')) :
  ((in_waiting (sp self) < 4)%nat -> r = Ret [] /\ self' = self)
  /\ ((4 <= in_waiting (sp self))%nat ->
      match r with
      | Ret data =>
          exists extra leftover,
            coming (sp self) = extra ++ coming (sp self')
            /\ pending (sp self') = []
            /\ concat (data :: _events_queue self') ++ leftover
               = pending (sp self) ++ extra
            /\ Forall ends_once (data :: _events_queue self')
            /\ (leftover = [] \/ leftover = [xff] \/ leftover = [xff; xff])
            /\ read_many (length (_events_queue self')) self'
               = (Ret (_events_queue self'), set_events_queue self' [])
      | Raise _ => False
      | Timeout =>
          forall k, (k <= length (coming (sp self)))%nat ->
            slice (pending (sp self) ++ coming (sp self))
              (length (pending (sp self)) + k - 3)
              (length (pending (sp self)) + k) <> S_END_OF_CMD
      end).
Proof.
  split.
  - intros Hlt. unfold AbstractSerialNex_read_next in Hrun.
    rewrite Hq in Hrun. cbn [is_nil negb] in Hrun.
    change MIN_SIZE_READ with 4%nat in Hrun.
    apply Nat.ltb_lt in Hlt. rewrite Hlt in Hrun.
    injection Hrun as <- <-. auto.
  - intros Hw. pose proof (read_next_run self r self' Hq Hw Hrun) as H.
    destruct r as [data|e|]; try exact H.
    destruct H as (extra & leftover & H1 & H2 & H3 & H4 & H5).
    exists extra, leftover. repeat (split; [assumption|]).
    apply read_many_queue. reflexivity.
Qed.

Lemma read_next_frames_witness :
  fst (AbstractSerialNex_read_next sample_serial)
  = Ret [x71; x2a; x00; x00; x00; xff; xff; xff]
  /\ _events_queue (snd (AbstractSerialNex_read_next sample_serial))
     = [[x01; xff; xff; xff]]
  /\ Forall ends_once
       ([x71; x2a; x00; x00; x00; xff; xff; xff]
        :: _events_queue (snd (AbstractSerialNex_read_next sample_serial))).
Proof.
  assert (E : fst (AbstractSerialNex_read_next sample_serial)
              = Ret [x71; x2a; x00; x00; x00; xff; xff; xff])
    by (vm_compute; reflexivity).
  split; [exact E|]. split; [vm_compute; reflexivity|].
  destruct (read_next_frames sample_serial
              (fst (AbstractSerialNex_read_next sample_serial))
              (snd (AbstractSerialNex_read_next sample_serial))
              eq_refl) as [_ H].
  - destruct (AbstractSerialNex_read_next sample_serial); reflexivity.
  - assert (Hw : (4 <= in_waiting (sp sample_serial))%nat)
      by (vm_compute; lia).
    specialize (H Hw). rewrite E in H.
    destruct H as (extra & leftover & _ & _ & _ & Hall & _). exact Hall.
Defined.

(** The bytes that are dropped: of 71 FF FF FF FF FF FF FF, all in the
    port, the frames are 71 FF FF FF and FF FF FF; the eighth byte is in
    no frame and is not read again. *)
Lemma read_next_drops_ff :
  let self :=
    AbstractSerialNex_init
      {| pending := [x71; xff; xff; xff; xff; xff; xff; xff];
         coming := [] |} in
  fst (AbstractSerialNex_read_next self) = Ret [x71; xff; xff; xff]
  /\ _events_queue (snd (AbstractSerialNex_read_next self))
     = [[xff; xff; xff]]
  /\ sp (snd (AbstractSerialNex_read_next self))
     = {| pending := []; coming := [] |}.
Proof. vm_compute. repeat split. Qed.

Lemma ends_once_cases (f : bytes) :
  ends_once f -> f = S_END_OF_CMD \/ has_end f = true.
Proof.
  intros (body & -> & _). destruct body as [|b body]; [left; reflexivity|].
  right. apply has_end_app. discriminate.
Qed.

Lemma parse_as_has_end (rc : ReturnCodes) (k : EventClass) (b : byte)
  (rest : bytes) :
  FIRST_BYTE rc k = Some (Byte.to_N b) -> has_end (b :: rest) = true ->
  parse_as rc k (b :: rest) <> Raise NexMessageEndException.
Proof.
  intros Hk He.
  destruct k; try discriminate; unfold parse_as, TouchEvent_parse,
    CurrentPageIDHeadEvent_parse, PositionHeadEvent_parse,
    SleepPositionHeadEvent_parse, StringHeadEvent_parse,
    NumberHeadEvent_parse, CommandSucceeded_parse, EventLaunched_parse;
    rewrite (parse_head_of_class rc _ b rest Hk), He;
    cbn [EXPECTED_LENGTH];
    try (match goal with
         | |- context [(?a =? ?n)%nat] =>
             destruct (Nat.eqb_spec a n) as [Hl|Hl]
         end;
         [|discriminate];
         simpl in Hl; explicit_frame rest Hl; clear Hl);
    cbn [res_bind getitem nth_error];
    try match goal with
        | |- context [Event_Touch ?v] =>
            destruct (Event_Touch_cases v)
              as [[_ ->]|[[_ ->]|(_ & _ & ->)]]; cbn [res_bind]
        end;
    try discriminate.
  intros H.
  destruct (utf8_decode (map Byte.to_N (payload (b :: rest)))) eqn:E;
    cbn [res_bind] in H; try discriminate. injection H as ->.
  apply (utf8_decode_Raise _ _ _ (le_n _)) in E. discriminate.
Qed.

(** X23: The transport and the parser agree on the terminator: a frame that
    read_next hands out, returned or queued, is the bare terminator
    FF FF FF or ends as the parser wants it, and then parsing it never
    raises the end error. *)
Theorem received_frames_end (rc : ReturnCodes) (self : AbstractSerialNex)
  (data : bytes) (self' : AbstractSerialNex)
  (Hq : _events_queue self = [])
  (Hw : (4 <= in_waiting (sp self))%nat)
  (Hrun : AbstractSerialNex_read_next self = (Ret data, self')) :
  forall f,
    In f (data :: _events_queue self') ->
    f = S_END_OF_CMD
    \/ (has_end f = true
        /\ MsgEvent_parse rc f <> Raise NexMessageEndException).
Proof.
  intros f Hin.
  pose proof (read_next_run self (Ret data) self' Hq Hw Hrun) as H.
  destruct H as (extra & leftover & _ & _ & _ & Hall & _).
  rewrite Forall_forall in Hall.
  destruct (ends_once_cases f (Hall f Hin)) as [->|He]; [left; reflexivity|].
  right. split; [exact He|].
  unfold MsgEvent_parse. destruct f as [|b rest]; [discriminate|].
  destruct (D_BYTE0_EVENT_get rc (Byte.to_N b)) as [k|] eqn:Hk.
  - apply D_BYTE0_EVENT_first_byte in Hk. destruct Hk as [Hk _].
    apply (parse_as_has_end rc k b rest Hk He).
  - unfold Return_Code.
    destruct (existsb (N.eqb (Byte.to_N b)) (Code_values rc));
      cbn [res_bind]; [|discriminate].
    destruct ((Byte.to_N b =? INVALID_CMD rc)%N
              && bytes_eqb (b :: rest) startup_frame); [discriminate|].
    destruct (existsb (N.eqb (Byte.to_N b)) (NEX_EXCEPTIONS rc));
      discriminate.
Qed.

Lemma received_frames_end_witness :
  has_end [x01; xff; xff; xff] = true
  /\ MsgEvent_parse nextion [x01; xff; xff; xff]
     <> Raise NexMessageEndException.
Proof.
  destruct (received_frames_end nextion sample_serial
              [x71; x2a; x00; x00; x00; xff; xff; xff]
              (snd (AbstractSerialNex_read_next sample_serial)) eq_refl)
    with (f := [x01; xff; xff; xff]) as [H|H].
  - vm_compute. lia.
  - vm_compute. reflexivity.
  - right. left. vm_compute. reflexivity.
  - discriminate H.
  - exact H.
Defined.

(** X24: A number that the transport can deliver: since read_next cuts at the
    first FF FF FF, a number frame that it hands out and that parses has
    no three bytes FF in a row in its value.  The signed value -1, and
    any value whose three low bytes or three high bytes are all FF, is
    never received. *)
Theorem number_frames_received (rc : ReturnCodes) (self : AbstractSerialNex)
  (data : bytes) (self' : AbstractSerialNex) (f : bytes)
  (code v : N) (sv : Z)
  (Hq : _events_queue self = [])
  (Hw : (4 <= in_waiting (sp self))%nat)
  (Hrun : AbstractSerialNex_read_next self = (Ret data, self'))
  (Hin : In f (data :: _events_queue self'))
  (Hparse : NumberHeadEvent_parse rc f = Ret (mkNumberHeadEvent code v sv)) :
  sv <> (-1)%Z
  /\ (v mod 16777216 <> 16777215)%N
  /\ (v / 256 <> 16777215)%N.
Proof.
  pose proof (read_next_run self (Ret data) self' Hq Hw Hrun) as H.
  destruct H as (extra & leftover & _ & _ & _ & Hall & _).
  rewrite Forall_forall in Hall. specialize (Hall f Hin).
  destruct Hall as (body & Hbody & Hfirst).
  unfold NumberHeadEvent_parse in Hparse.
  apply res_bind_Ret in Hparse. destruct Hparse as (c0 & Hh & Hparse).
  apply parse_head_Ret in Hh.
  destruct Hh as (_ & Hl & (b & rest & -> & ->) & _).
  specialize (Hl _ eq_refl). simpl in Hl. explicit_frame rest Hl. clear Hl.
  cbn [res_bind getitem nth_error] in Hparse.
  rewrite shiftl_8, shiftl_16, shiftl_24 in Hparse.
  assert (Hlen : length body = 5%nat).
  { apply (f_equal (@length _)) in Hbody. rewrite length_app in Hbody.
    simpl in Hbody. lia. }
  pose proof (Hfirst 1%nat ltac:(lia)) as H1.
  pose proof (Hfirst 2%nat ltac:(lia)) as H2.
  unfold slice in H1, H2. simpl in H1, H2.
  match type of H1 with
  | [?a1; ?a2; ?a3] <> _ =>
      match type of H2 with
      | [_; _; ?a4] <> _ =>
          pose proof (Byte.to_N_bounded a1) as B1;
          pose proof (Byte.to_N_bounded a2) as B2;
          pose proof (Byte.to_N_bounded a3) as B3;
          pose proof (Byte.to_N_bounded a4) as B4;
          assert (L : ~ (Byte.to_N a1 = 255 /\ Byte.to_N a2 = 255
                         /\ Byte.to_N a3 = 255)%N);
          [intros (E1 & E2 & E3); apply H1;
           rewrite (byte_of_value a1 255 xff E1 eq_refl),
                   (byte_of_value a2 255 xff E2 eq_refl),
                   (byte_of_value a3 255 xff E3 eq_refl); reflexivity|];
          assert (U : ~ (Byte.to_N a2 = 255 /\ Byte.to_N a3 = 255
                         /\ Byte.to_N a4 = 255)%N);
          [intros (E1 & E2 & E3); apply H2;
           rewrite (byte_of_value a2 255 xff E1 eq_refl),
                   (byte_of_value a3 255 xff E2 eq_refl),
                   (byte_of_value a4 255 xff E3 eq_refl); reflexivity|];
          set (n1 := Byte.to_N a1) in *; set (n2 := Byte.to_N a2) in *;
          set (n3 := Byte.to_N a3) in *; set (n4 := Byte.to_N a4) in *
      end
  end.
  assert (Hv : (v = n1 + 256 * n2 + 65536 * n3 + 16777216 * n4)%N).
  { injection Hparse as _ Hv _. rewrite <- Hv. reflexivity. }
  assert (Hsv : sv = c_int32 (Z.of_N v)).
  { injection Hparse as _ Hv' Hsv'. rewrite <- Hsv', <- Hv'. reflexivity. }
  clear Hparse.
  assert (Hmod : (v mod 16777216 = n1 + 256 * n2 + 65536 * n3)%N).
  { symmetry. apply (N.mod_unique v 16777216 n4); lia. }
  assert (Hdiv : (v / 256 = n2 + 256 * n3 + 65536 * n4)%N).
  { symmetry. apply (N.div_unique v 256 _ n1); lia. }
  split; [|split; [rewrite Hmod; lia|rewrite Hdiv; lia]].
  rewrite Hsv, c_int32_spec by lia.
  destruct (Z.ltb_spec (Z.of_N v) 2147483648); lia.
Qed.

Lemma number_frames_received_witness :
  (42 <> -1)%Z /\ (42 mod 16777216 <> 16777215)%N
  /\ (42 / 256 <> 16777215)%N.
Proof.
  apply (number_frames_received nextion sample_serial
           [x71; x2a; x00; x00; x00; xff; xff; xff]
           (snd (AbstractSerialNex_read_next sample_serial))
           [x71; x2a; x00; x00; x00; xff; xff; xff] 113 42 42 eq_refl).
  - vm_compute. lia.
  - vm_compute. reflexivity.
  - left. reflexivity.
  - reflexivity.
Defined.

(** ** A display that does not answer *)

Lemma poll_silent (rc : ReturnCodes) (fuel : nat) (d : NexDevice) :
  rx (transport d) = [] -> _commands d <> [] ->
  exists d',
    poll rc fuel d = (Ret false, d')
    /\ rx (transport d') = [] /\ _commands d' <> [].
Proof.
  intros Hrx Hq. unfold poll, bind, read_events. rewrite Hrx.
  cbn [for_each]. unfold ret at 1.
  destruct (transmit_spec d) as (d1 & Ht & _ & Hcases).
  pose proof (transmit_kept d (Ret tt) d1 Ht) as (Htr & _).
  rewrite Ht.
  assert (Hq1 : _commands d1 <> []).
  { destruct Hcases as [[-> _]|(c & older & _ & _ & Hq1 & _)];
      [exact Hq|rewrite Hq1; discriminate]. }
  rewrite (idle_refresh_Ret d1 (or_intror Hq1)). unfold get, ret.
  exists d1. split.
  - destruct (_commands d1); [congruence|reflexivity].
  - split; [rewrite Htr; exact Hrx|exact Hq1].
Qed.

Lemma digits_latin1 (u : Decimal.uint) : Forall latin1_char (digits_of_uint u).
Proof.
  induction u; simpl; constructor; try assumption; unfold latin1_char; lia.
Qed.

Lemma str_of_int_latin1 (z : Z) : Forall latin1_char (str_of_int z).
Proof.
  destruct z; simpl.
  - repeat constructor.
  - apply digits_latin1.
  - constructor; [unfold latin1_char; lia|apply digits_latin1].
Qed.

(** X25: Nothing bounds the wait for an answer: with commands in the queue
    and a display that sends nothing, the loop [while self._commands:
    self.poll()] never ends, however many turns it is given; hence init on
    a silent display never comes back. *)
Theorem silent_display_hangs (rc : ReturnCodes) (fuel : nat) :
  (forall n d,
     rx (transport d) = [] -> _commands d <> [] ->
     fst (drain rc n fuel d) = Timeout)
  /\ (forall d, rx (transport d) = [] -> fst (init rc fuel d) = Timeout).
Proof.
  assert (Hdrain : forall n d,
            rx (transport d) = [] -> _commands d <> [] ->
            fst (drain rc n fuel d) = Timeout).
  { induction n as [|n IH]; intros d Hrx Hq.
    - simpl. destruct (_commands d); [congruence|reflexivity].
    - cbn [drain]. destruct (_commands d) eqn:E; [congruence|].
      destruct (poll_silent rc fuel d Hrx) as (d' & Hp & Hrx' & Hq');
        [congruence|].
      unfold bind. rewrite Hp. apply (IH d' Hrx' Hq'). }
  split; [exact Hdrain|].
  intros d Hrx. unfold init, bind at 1, flush, modify.
  unfold bind at 1, lift.
  destruct (latin1_cases (lit "bkcmd=" ++ str_of_int (Mode_ALWAYS rc)
                          ++ [255; 255; 255]%N)) as [[_ [b Hb]]|[Hno _]].
  - assert (Hc : new_Command (lit "bkcmd=" ++ str_of_int (Mode_ALWAYS rc))
                 = Ret {| cls := Command; status := CREATED; command := b;
                          data_event := None; property_name := None;
                          new_value := None; slots := NoSlots |}).
    { unfold new_Command, CommandBase_init, format_command.
      rewrite <- app_assoc, Hb. reflexivity. }
    rewrite Hc. unfold bind at 1, extendleft, modify. unfold bind at 1.
    match goal with
    | |- context [drain rc fuel fuel ?s] =>
        pose proof (Hdrain fuel s) as Hd;
        destruct (drain rc fuel fuel s) as [r1 d1]
    end.
    simpl in Hd. rewrite Hd; [reflexivity|exact Hrx|].
    destruct (_commands d); discriminate.
  - exfalso. apply Hno. apply Forall_app. split; [repeat constructor|].
    apply Forall_app. split; [apply str_of_int_latin1|repeat constructor].
Qed.

Lemma silent_display_hangs_witness :
  fst (drain nextion 7 3
         (set_commands (NexDevice_init {| rx := []; stale := [] |}) [cmd_A]))
  = Timeout
  /\ fst (init nextion 3 (NexDevice_init {| rx := []; stale := [] |}))
     = Timeout.
Proof.
  destruct (silent_display_hangs nextion 3) as [H1 H2]. split.
  - apply (H1 7%nat); [reflexivity|discriminate].
  - apply H2. reflexivity.
Defined.
